(** * BusTub storage core: copy-on-write trie, LRU-K replacer, buffer pool
      manager and page guards, embedded from the C++ sources.

    - [Trie]       : src/primer/trie.cpp
    - [Replacer]   : src/buffer/lru_k_replacer.cpp
    - [BufferPool], [Latch] : src/buffer/buffer_pool_manager.cpp
    - [PageGuard], [ReadPageGuard], [WritePageGuard] :
                     src/storage/page/page_guard.cpp

    Every operation is modelled as one atomic step of a sequential machine
    with one thread.  [BufferPool] holds the operations of the pool past
    their lock guards, which is how they run on a re-entrant latch.
    [Latch] adds the guards on [latch_], a [std::mutex]: [AllocatePage] and
    [DeallocatePage] lock it again under [NewPage], [FlushPage] and
    [DeletePage], and such a call does not return.  [FetchPage] and
    [UnpinPage] lock once, so that [BufferPool] has them as written.

    Null dereferences and C++ exceptions are explicit outcomes. *)

From Stdlib Require Import ZArith Ascii String Bool Lia.
From stdpp Require Import gmap strings list fin_maps.

Set Warnings "-register-all".
Local Open Scope Z_scope.

(** ** Outcomes of a call *)

(** [Ret a]: the call returns [a].  [Fault]: the call dereferences a null
    pointer.  [Throw]: the call leaves by a C++ exception. *)
Inductive outcome (A : Type) : Type :=
  | Ret (a : A)
  | Fault
  | Throw.
Arguments Ret {A} a.
Arguments Fault {A}.
Arguments Throw {A}.

Definition bind {A B : Type} (m : outcome A) (f : A -> outcome B) : outcome B :=
  match m with
  | Ret a => f a
  | Fault => Fault
  | Throw => Throw
  end.

Notation "x <- m ;; k" := (bind m (fun x => k))
  (at level 100, m at next level, right associativity, only parsing).

(** ** Copy-on-write trie (src/primer/trie.cpp) *)

Module Trie.
Section Payload.
(** The value stored at a key is a [std::shared_ptr<T>] for some [T];
    [tid] names the C++ types and [data] is what they hold. *)
Context {tid : Type} `{EqDecision tid} {data : Type}.

(** A node.  [value_ = Some (T, v)] exactly when the dynamic type of the
    node is [TrieNodeWithValue<T>]; a plain [TrieNode] has [value_ = None].
    [is_value_node_] is the flag of the same name; [Remove] clears it on
    nodes whose dynamic type stays [TrieNodeWithValue<T>]. *)
Inductive TrieNode : Type :=
  | Node (children : gmap ascii TrieNode) (is_value_node : bool)
         (value : option (tid * data)).

Definition children_ (n : TrieNode) : gmap ascii TrieNode :=
  match n with Node c _ _ => c end.
Definition is_value_node_ (n : TrieNode) : bool :=
  match n with Node _ b _ => b end.
Definition value_ (n : TrieNode) : option (tid * data) :=
  match n with Node _ _ v => v end.

(** [children_.empty()] *)
Definition children_empty (n : TrieNode) : bool :=
  bool_decide (dom (children_ n) = ∅).

(** [n->is_value_node_ = b] *)
Definition set_is_value_node (b : bool) (n : TrieNode) : TrieNode :=
  Node (children_ n) b (value_ n).

(** [n->children_[ch] = c] *)
Definition set_child (ch : ascii) (c : TrieNode) (n : TrieNode) : TrieNode :=
  Node (<[ch := c]> (children_ n)) (is_value_node_ n) (value_ n).

(** [n->children_.erase(ch)] *)
Definition erase_child (ch : ascii) (n : TrieNode) : TrieNode :=
  Node (delete ch (children_ n)) (is_value_node_ n) (value_ n).

(** Modelled from the spec: the constructors and [Clone] of primer/trie.h,
    which is not among the sources.  A [TrieNode] is built with the given
    children (none by default) and carries no value; a
    [TrieNodeWithValue<T>] carries the payload and sets [is_value_node_];
    [Clone] builds a node of the same dynamic type from the children and,
    for a value node, the payload ("a value-carrying subtype additionally
    holds a shared value payload and sets is_value_node"). *)
Definition mkTrieNode (c : gmap ascii TrieNode) : TrieNode := Node c false None.
Definition mkTrieNodeWithValue (c : gmap ascii TrieNode) (T : tid) (v : data) : TrieNode :=
  Node c true (Some (T, v)).
Definition Clone (n : TrieNode) : TrieNode :=
  match value_ n with
  | None => mkTrieNode (children_ n)
  | Some (T, v) => mkTrieNodeWithValue (children_ n) T v
  end.

(** A trie is a handle on an optional root. *)
Record Trie : Type := mkTrie { root_ : option TrieNode }.

Definition empty_trie : Trie := mkTrie None.

(** [p->...] on a shared pointer that may be null. *)
Definition deref (p : option TrieNode) : outcome TrieNode :=
  match p with
  | Some n => Ret n
  | None => Fault
  end.

Definition is_null (p : option TrieNode) : bool :=
  match p with Some _ => false | None => true end.

(** The [for (auto ch : key)] loop of [Trie::Get].  [Ret None] is the
    early [return nullptr]; [Ret (Some current)] is the pointer the loop
    ends on (possibly null). *)
Fixpoint Get_walk (current : option TrieNode) (key : string)
  : outcome (option (option TrieNode)) :=
  match key with
  | EmptyString => Ret (Some current)
  | String ch key' =>
      if is_null current then Ret None
      else
        n <- deref current ;;
        match children_ n !! ch with
        | None => Ret None
        | Some c => Get_walk (Some c) key'
        end
  end.

(** [dynamic_cast<const TrieNodeWithValue<T> *>(current.get())]: null for
    a null pointer, for a plain node and for a payload of another type. *)
Definition dynamic_cast (T : tid) (current : option TrieNode) : option (TrieNode * data) :=
  match current with
  | None => None
  | Some n =>
      match value_ n with
      | Some (T', v) => if decide (T' = T) then Some (n, v) else None
      | None => None
      end
  end.

(** [Trie::Get<T>(key)]: [Ret None] is [nullptr]. *)
Definition Get (T : tid) (key : string) (t : Trie) : outcome (option data) :=
  r <- Get_walk (root_ t) key ;;
  match r with
  | None => Ret None
  | Some current =>
      match dynamic_cast T current with
      | None => Ret None
      | Some (value_node, v) =>
          if negb (is_value_node_ value_node) then Ret None else Ret (Some v)
      end
  end.

(** [Putcycle<T>(new_root, key, value)]: the node [new_root] points to
    after the call.  [key.at(0)] throws on an empty key. *)
Fixpoint Putcycle (new_root : TrieNode) (key : string) (T : tid) (v : data)
  : outcome TrieNode :=
  match key with
  | EmptyString => Throw
  | String c key' =>
      match children_ new_root !! c with
      | Some iter =>
          match key' with
          | String _ _ =>
              ptr <- Putcycle (Clone iter) key' T v ;;
              Ret (set_child c ptr new_root)
          | EmptyString =>
              Ret (set_child c (mkTrieNodeWithValue (children_ iter) T v) new_root)
          end
      | None =>
          match key' with
          | EmptyString => Ret (set_child c (mkTrieNodeWithValue ∅ T v) new_root)
          | String _ _ =>
              ptr <- Putcycle (mkTrieNode ∅) key' T v ;;
              Ret (set_child c ptr new_root)
          end
      end
  end.

(** [Trie::Put<T>(key, value)] *)
Definition Put (T : tid) (key : string) (v : data) (t : Trie) : outcome Trie :=
  match key with
  | EmptyString =>
      r <- deref (root_ t) ;;
      if children_empty r
      then Ret (mkTrie (Some (mkTrieNodeWithValue ∅ T v)))
      else Ret (mkTrie (Some (mkTrieNodeWithValue (children_ r) T v)))
  | String _ _ =>
      let new_root :=
        match root_ t with
        | None => mkTrieNode ∅
        | Some r => Clone r
        end in
      new_root' <- Putcycle new_root key T v ;;
      Ret (mkTrie (Some new_root'))
  end.

(** The [for (char ch : key)] loop of [Trie::Remove].  [current] is the
    clone the loop stands on; [stacks] holds, deepest first, the pairs
    [(ch, parent)] pushed so far, each parent being a clone whose child at
    [ch] is the next clone down.  [None]: a child is missing and the
    function returns [*this]. *)
Fixpoint Remove_walk (current : TrieNode) (key : string)
    (stacks : list (ascii * TrieNode)) : option (TrieNode * list (ascii * TrieNode)) :=
  match key with
  | EmptyString => Some (current, stacks)
  | String ch key' =>
      match children_ current !! ch with
      | None => None
      | Some child =>
          let new_node := set_is_value_node (is_value_node_ child) (Clone child) in
          Remove_walk new_node key' ((ch, set_child ch new_node current) :: stacks)
      end
  end.

(** The [while (!stacks.empty())] loop of [Trie::Remove] on the chain of
    clones.  [child] is the present state of the clone below the top of
    [stacks]; the clones are linked by pointers in the source, so a parent
    sees its child as it is now.  While [pruning], a child with no
    children and no value is erased from its parent; after the [break]
    ([pruning = false]) the remaining parents keep their child.  The
    result is the node [new_root] points to. *)
Fixpoint Remove_prune (child : TrieNode) (stacks : list (ascii * TrieNode))
    (pruning : bool) : TrieNode :=
  match stacks with
  | [] => child
  | (ch, parent) :: stacks' =>
      if pruning && children_empty child && negb (is_value_node_ child)
      then Remove_prune (erase_child ch parent) stacks' true
      else Remove_prune (set_child ch child parent) stacks' false
  end.

(** [Trie::Remove(key)] *)
Definition Remove (key : string) (t : Trie) : Trie :=
  match root_ t with
  | None => t
  | Some r =>
      let new_root := Clone r in
      let new_root :=
        if negb (is_value_node_ r) then set_is_value_node false new_root
        else new_root in
      if bool_decide (key = EmptyString) && is_value_node_ new_root
      then mkTrie (Some (set_is_value_node false new_root))
      else
        match Remove_walk new_root key [] with
        | None => t
        | Some (current, stacks) =>
            if is_value_node_ current
            then
              let new_root := Remove_prune (set_is_value_node false current) stacks true in
              if negb (is_value_node_ new_root) && children_empty new_root
              then mkTrie None
              else mkTrie (Some new_root)
            else t
        end
  end.

(** The node a key leads to, if every character of the key has a child. *)
Fixpoint find_node (n : TrieNode) (key : string) : option TrieNode :=
  match key with
  | EmptyString => Some n
  | String ch key' =>
      match children_ n !! ch with
      | None => None
      | Some c => find_node c key'
      end
  end.

(** A value is stored at [key]: the key leads to a node flagged as a
    value node. *)
Definition stored (key : string) (t : Trie) : bool :=
  match root_ t with
  | None => false
  | Some r =>
      match find_node r key with
      | None => false
      | Some n => is_value_node_ n
      end
  end.

(** The key a stack of [Remove] spells, from the root down. *)
Fixpoint stack_key (stacks : list (ascii * TrieNode)) : string :=
  match stacks with
  | [] => EmptyString
  | (ch, _) :: stacks' => stack_key stacks' +:+ String ch EmptyString
  end.

(** What [Get<T>] returns for [key] on a trie whose root is [n]. *)
Definition lookup_value (T : tid) (n : TrieNode) (key : string) : option data :=
  match find_node n key with
  | None => None
  | Some m =>
      match value_ m with
      | Some (T', v) =>
          if decide (T' = T) then (if is_value_node_ m then Some v else None) else None
      | None => None
      end
  end.

(** [Remove] below one clone, by recursion on the key: the clone [n] once
    the walk along [key] has ended on a value node, that node is cleared
    and the pruning loop has run up to [n].  [None] when a child is
    missing or the walk ends on a node without value. *)
Fixpoint pruned (n : TrieNode) (key : string) : option TrieNode :=
  match key with
  | EmptyString =>
      if is_value_node_ n then Some (set_is_value_node false n) else None
  | String ch key' =>
      match children_ n !! ch with
      | None => None
      | Some child =>
          match pruned (set_is_value_node (is_value_node_ child) (Clone child)) key' with
          | None => None
          | Some child' =>
              if children_empty child' && negb (is_value_node_ child')
              then Some (erase_child ch n)
              else Some (set_child ch child' n)
          end
      end
  end.

(** What [Get<T>] reads off a node that carries [v] at type [T]. *)
Definition holds (T : tid) (v : data) (n : TrieNode) : Prop :=
  value_ n = Some (T, v) /\ is_value_node_ n = true.

End Payload.
Arguments TrieNode : clear implicits.
Arguments Trie : clear implicits.

(** The value types [Put] and [Get] are instantiated at in trie.cpp with
    an integer payload. *)
Inductive value_type : Type := uint32_t | uint64_t.

#[global] Instance value_type_eq_dec : EqDecision value_type.
Proof. solve_decision. Defined.

(** The empty trie after [Put<uint32_t>] of 1 at key "a", [Put<uint32_t>]
    of 2 at the empty key and [Remove] of "a": a root that carries 2 and
    has no children. *)
Definition root_value_only : outcome (Trie value_type Z) :=
  t1 <- Put uint32_t "a" 1 empty_trie ;;
  t2 <- Put uint32_t EmptyString 2 t1 ;;
  Ret (Remove "a" t2).

End Trie.

(** ** Machine integers *)

(** [static_cast<size_t>(z)] for a 32-bit signed [z], and arithmetic on
    [size_t]: values modulo 2^64. *)
Definition to_size_t (z : Z) : Z := z mod 2 ^ 64.

(** Arithmetic on [page_id_t] (a 32-bit signed integer held in a
    [std::atomic]): two's complement wrap-around. *)
Definition wrap_int32 (z : Z) : Z := (z + 2 ^ 31) mod 2 ^ 32 - 2 ^ 31.

(** ** LRU-K replacer (src/buffer/lru_k_replacer.cpp) *)

Module Replacer.

(** Modelled from the spec: buffer/lru_k_replacer.h is not among the
    sources.  A replacer node is "a bounded history of access timestamps
    (newest first, capacity k), plus an evictable flag"; a node created by
    [node_store_[frame_id]] has an empty history and is not evictable. *)
Record LRUKNode : Type := mkLRUKNode {
  history_ : list Z;
  is_evictable_ : bool
}.

Definition default_node : LRUKNode := mkLRUKNode [] false.

(** The replacer: [evictable_list_] is in insertion order,
    [current_timestamp_] and [curr_size_] start at 0. *)
Record LRUKReplacer : Type := mkLRUKReplacer {
  node_store_ : gmap Z LRUKNode;
  evictable_list_ : list Z;
  current_timestamp_ : Z;
  curr_size_ : Z;
  replacer_size_ : Z;
  k_ : Z
}.

(** [LRUKReplacer(num_frames, k)] *)
Definition new_replacer (num_frames k : Z) : LRUKReplacer :=
  mkLRUKReplacer ∅ [] 0 0 num_frames k.

(** [node_store_[f]] read: the node stored for [f], a fresh one if none. *)
Definition node_at (ns : gmap Z LRUKNode) (f : Z) : LRUKNode :=
  default default_node (ns !! f).

(** [node_store_[f]] on the store: [operator[]] inserts a fresh node when
    [f] has none. *)
Definition touch (ns : gmap Z LRUKNode) (f : Z) : gmap Z LRUKNode :=
  <[f := node_at ns f]> ns.

(** [std::map<size_t, iterator>] as a list sorted by key; [insert] keeps
    the entry already stored under an equal key, [begin()] is the head. *)
Fixpoint map_insert {A : Type} (key : Z) (a : A) (m : list (Z * A)) : list (Z * A) :=
  match m with
  | [] => [(key, a)]
  | (key', a') :: m' =>
      if key <? key' then (key, a) :: m
      else if key =? key' then m
      else (key', a') :: map_insert key a m'
  end.

(** The head of a map carries the least key. *)
Definition head_min {A : Type} (m : list (Z * A)) : Prop :=
  match m with
  | [] => True
  | e :: _ => forall e', e' ∈ m -> e.1 <= e'.1
  end.

(** An iterator into [evictable_list_]: the position and the frame there. *)
Definition iterators (l : list Z) : list (nat * Z) := imap pair l.

Section Evict.
(** [history_.front()] and [history_.back()] on an empty history are
    undefined in C++.  [undef f] stands for the value such a read
    yields for frame [f]; nothing is assumed about it. *)
Variable undef : Z -> Z.

Definition front (f : Z) (h : list Z) : Z :=
  match h with
  | x :: _ => x
  | [] => undef f
  end.

Definition back (f : Z) (h : list Z) : Z :=
  match last h with
  | Some x => x
  | None => undef f
  end.

(** One round of the first loop of [Evict]. *)
Definition less_k_step (k : Z) (acc : gmap Z LRUKNode * list (Z * (nat * Z)))
    (it : nat * Z) : gmap Z LRUKNode * list (Z * (nat * Z)) :=
  let ns := touch acc.1 it.2 in
  if Z.of_nat (length (history_ (node_at ns it.2))) <? k
  then (ns, map_insert (front it.2 (history_ (node_at ns it.2))) it acc.2)
  else (ns, acc.2).

(** One round of the second loop of [Evict]: [it] is the best so far. *)
Definition max_dist_step (ns : gmap Z LRUKNode) (it evict_it : nat * Z) : nat * Z :=
  if back evict_it.2 (history_ (node_at ns evict_it.2))
       <? back it.2 (history_ (node_at ns it.2))
  then evict_it else it.

(** The erasure both branches of [Evict] end with. *)
Definition erase_victim (r : LRUKReplacer) (ns : gmap Z LRUKNode) (it : nat * Z)
  : LRUKReplacer :=
  mkLRUKReplacer (delete it.2 ns) (delete it.1 (evictable_list_ r))
    (current_timestamp_ r) (to_size_t (curr_size_ r - 1))
    (replacer_size_ r) (k_ r).

(** [Evict(&frame_id)]: the replacer after the call and the frame
    written to [*frame_id]; [None] when the call returns [false]. *)
Definition Evict (r : LRUKReplacer) : LRUKReplacer * option Z :=
  match iterators (evictable_list_ r) with
  | [] => (r, None)
  | begin :: _ =>
      let '(ns, less_k_frames) :=
        foldl (less_k_step (k_ r)) (node_store_ r, []) (iterators (evictable_list_ r)) in
      match less_k_frames with
      | (_, it) :: _ => (erase_victim r ns it, Some it.2)
      | [] =>
          let it := foldl (max_dist_step ns) begin (iterators (evictable_list_ r)) in
          (erase_victim r ns it, Some it.2)
      end
  end.
End Evict.

(** [RecordAccess(frame_id)] *)
Definition RecordAccess (frame_id : Z) (r : LRUKReplacer) : outcome LRUKReplacer :=
  if replacer_size_ r <=? to_size_t frame_id then Throw
  else
    let node := node_at (node_store_ r) frame_id in
    let h := current_timestamp_ r :: history_ node in
    let h := if k_ r <? Z.of_nat (length h) then removelast h else h in
    Ret (mkLRUKReplacer
           (<[frame_id := mkLRUKNode h (is_evictable_ node)]> (node_store_ r))
           (evictable_list_ r)
           (to_size_t (current_timestamp_ r + 1))
           (curr_size_ r) (replacer_size_ r) (k_ r)).

(** [SetEvictable(frame_id, set_evictable)] *)
Definition SetEvictable (frame_id : Z) (set_evictable : bool) (r : LRUKReplacer)
  : outcome LRUKReplacer :=
  if replacer_size_ r <=? to_size_t frame_id then Throw
  else
    let node := node_at (node_store_ r) frame_id in
    let '(l, n) :=
      if set_evictable && negb (is_evictable_ node)
      then (evictable_list_ r ++ [frame_id], to_size_t (curr_size_ r + 1))
      else if negb set_evictable && is_evictable_ node
      then (filter (fun x => x <> frame_id) (evictable_list_ r),
            to_size_t (curr_size_ r - 1))
      else (evictable_list_ r, curr_size_ r) in
    Ret (mkLRUKReplacer
           (<[frame_id := mkLRUKNode (history_ node) set_evictable]> (node_store_ r))
           l (current_timestamp_ r) n (replacer_size_ r) (k_ r)).

(** [Remove(frame_id)] *)
Definition Remove (frame_id : Z) (r : LRUKReplacer) : outcome LRUKReplacer :=
  if replacer_size_ r <=? to_size_t frame_id then Throw
  else
    match node_store_ r !! frame_id with
    | None => Throw
    | Some node =>
        if negb (is_evictable_ node) then Throw
        else
          Ret (mkLRUKReplacer
                 (delete frame_id (node_store_ r))
                 (filter (fun x => x <> frame_id) (evictable_list_ r))
                 (current_timestamp_ r) (to_size_t (curr_size_ r - 1))
                 (replacer_size_ r) (k_ r))
    end.

(** [Size()] *)
Definition Size (r : LRUKReplacer) : Z := curr_size_ r.

(** The oldest timestamp a history holds: histories are newest first. *)
Definition earliest (h : list Z) : option Z := last h.

(** Fewer than [k] recorded accesses: k-distance is +infinity. *)
Definition fewer_than_k (r : LRUKReplacer) (f : Z) : bool :=
  Z.of_nat (length (history_ (node_at (node_store_ r) f))) <? k_ r.

(** An access to [f] was recorded between [r] and [r']: the history of
    [f] in [r'] holds the timestamp that was current in [r], which is
    what [RecordAccess] pushes. *)
Definition recorded_since (r r' : LRUKReplacer) (f : Z) : Prop :=
  current_timestamp_ r ∈ history_ (node_at (node_store_ r') f).

(** [k = 3]; accesses to frame 0, frame 1, frame 0 at times 0, 1, 2;
    both frames evictable. *)
Definition two_young_frames : outcome LRUKReplacer :=
  r <- RecordAccess 0 (new_replacer 2 3) ;;
  r <- RecordAccess 1 r ;;
  r <- RecordAccess 0 r ;;
  r <- SetEvictable 0 true r ;;
  SetEvictable 1 true r.

(** The bookkeeping of [SetEvictable]: [evictable_list_] holds no frame
    twice, and holds exactly the frames whose node is flagged evictable. *)
Definition consistent (r : LRUKReplacer) : Prop :=
  NoDup (evictable_list_ r)
  /\ Forall (fun f => is_evictable_ (node_at (node_store_ r) f) = true)
       (evictable_list_ r)
  /\ map_Forall (fun f nd => is_evictable_ nd = true -> f ∈ evictable_list_ r)
       (node_store_ r).

#[global] Instance consistent_dec (r : LRUKReplacer) : Decision (consistent r).
Proof. unfold consistent. apply _. Defined.

(** [frame_id_t] is a 32-bit signed integer. *)
Definition is_frame_id (f : Z) : Prop := - 2 ^ 31 <= f < 2 ^ 31.

(** [curr_size_] counts the evictable frames, and these lie below
    [replacer_size_], which no [frame_id_t] exceeds. *)
Definition sized (r : LRUKReplacer) : Prop :=
  consistent r
  /\ curr_size_ r = Z.of_nat (length (evictable_list_ r))
  /\ Forall (fun f => 0 <= f < replacer_size_ r) (evictable_list_ r)
  /\ 0 <= replacer_size_ r <= 2 ^ 31.

#[global] Instance sized_dec (r : LRUKReplacer) : Decision (sized r).
Proof. unfold sized. apply _. Defined.

(** No history is longer than [k_]. *)
Definition bounded (r : LRUKReplacer) : Prop :=
  0 <= k_ r
  /\ map_Forall (fun _ nd => Z.of_nat (length (history_ nd)) <= k_ r) (node_store_ r).

#[global] Instance bounded_dec (r : LRUKReplacer) : Decision (bounded r).
Proof. unfold bounded. apply _. Defined.

(** Calls of a client of the replacer. *)
Inductive rcall : Type :=
  | RRecordAccess (frame_id : Z)
  | RSetEvictable (frame_id : Z) (set_evictable : bool)
  | REvict
  | RRemove (frame_id : Z).

Definition rcall_frame_ok (c : rcall) : Prop :=
  match c with
  | RRecordAccess f | RSetEvictable f _ | RRemove f => is_frame_id f
  | REvict => True
  end.

(** The replacer after a call.  A call that throws does so before it
    changes anything, so it leaves the replacer as it was. *)
Definition after (undef : Z -> Z) (r : LRUKReplacer) (c : rcall) : LRUKReplacer :=
  match c with
  | RRecordAccess f => match RecordAccess f r with Ret r' => r' | _ => r end
  | RSetEvictable f e => match SetEvictable f e r with Ret r' => r' | _ => r end
  | REvict => (Evict undef r).1
  | RRemove f => match Remove f r with Ret r' => r' | _ => r end
  end.

Definition after_all (undef : Z -> Z) (r : LRUKReplacer) (cs : list rcall)
  : LRUKReplacer :=
  foldl (after undef) r cs.

End Replacer.

(** ** Disk scheduler (src/storage/disk/disk_scheduler.cpp) *)

Module Disk.

(** A request: [data_] is a pointer into the buffer of a frame of the
    pool, given here by the index of that frame.  The promise handed over
    with the request is never read back by the buffer pool. *)
Record DiskRequest : Type := mkDiskRequest {
  is_write_ : bool;
  data_ : Z;
  page_id_ : Z
}.

(** The scheduler as its callers see it: the queue of requests put so
    far, oldest first.  The worker thread is not modelled. *)
Record DiskScheduler : Type := mkDiskScheduler {
  request_queue_ : list DiskRequest
}.

(** [Schedule(r)] *)
Definition Schedule (r : DiskRequest) (s : DiskScheduler) : DiskScheduler :=
  mkDiskScheduler (request_queue_ s ++ [r]).

End Disk.

(** ** Buffer pool manager (src/buffer/buffer_pool_manager.cpp) *)

Module BufferPool.
Import Replacer.

(** Modelled from the spec: storage/page/page.h is not among the sources.
    A page is a "raw byte buffer, a page_id (signed 32-bit identifier;
    negative / INVALID_PAGE_ID = unassigned), a pin_count (non-negative
    integer), a dirty flag".  [pin_count_] is a C++ [int]; the model does
    not wrap it, and agrees with the source as long as no count at
    [INT_MAX] is incremented ([pins_below_INT_MAX]). *)
Record Page : Type := mkPage {
  data_ : list Byte.byte;
  page_id_ : Z;
  pin_count_ : Z;
  is_dirty_ : bool
}.

Definition INVALID_PAGE_ID : Z := -1.

(** A page as [new Page[pool_size_]] builds it; [PAGE_SIZE] is the size
    of the buffer. *)
Definition new_Page (PAGE_SIZE : nat) : Page :=
  mkPage (repeat Byte.x00 PAGE_SIZE) INVALID_PAGE_ID 0 false.

Record BufferPoolManager : Type := mkBufferPoolManager {
  pool_size_ : Z;
  pages_ : list Page;
  replacer_ : LRUKReplacer;
  disk_scheduler_ : Disk.DiskScheduler;
  page_table_ : gmap Z Z;
  free_list_ : list Z;
  free_pages_ : list Z;
  next_page_id_ : Z
}.

(** [BufferPoolManager(pool_size, disk_manager, replacer_k)] *)
Definition init (PAGE_SIZE : nat) (pool_size : nat) (replacer_k : Z) : BufferPoolManager :=
  mkBufferPoolManager (Z.of_nat pool_size)
    (replicate pool_size (new_Page PAGE_SIZE))
    (new_replacer (Z.of_nat pool_size) replacer_k)
    (Disk.mkDiskScheduler [])
    ∅
    (seqZ 0 (Z.of_nat pool_size))
    []
    0.

(** Field updates. *)
Definition set_pages (ps : list Page) (b : BufferPoolManager) : BufferPoolManager :=
  mkBufferPoolManager (pool_size_ b) ps (replacer_ b) (disk_scheduler_ b)
    (page_table_ b) (free_list_ b) (free_pages_ b) (next_page_id_ b).
Definition set_replacer (r : LRUKReplacer) (b : BufferPoolManager) : BufferPoolManager :=
  mkBufferPoolManager (pool_size_ b) (pages_ b) r (disk_scheduler_ b)
    (page_table_ b) (free_list_ b) (free_pages_ b) (next_page_id_ b).
Definition set_disk_scheduler (s : Disk.DiskScheduler) (b : BufferPoolManager)
  : BufferPoolManager :=
  mkBufferPoolManager (pool_size_ b) (pages_ b) (replacer_ b) s
    (page_table_ b) (free_list_ b) (free_pages_ b) (next_page_id_ b).
Definition set_page_table (t : gmap Z Z) (b : BufferPoolManager) : BufferPoolManager :=
  mkBufferPoolManager (pool_size_ b) (pages_ b) (replacer_ b) (disk_scheduler_ b)
    t (free_list_ b) (free_pages_ b) (next_page_id_ b).
Definition set_free_list (l : list Z) (b : BufferPoolManager) : BufferPoolManager :=
  mkBufferPoolManager (pool_size_ b) (pages_ b) (replacer_ b) (disk_scheduler_ b)
    (page_table_ b) l (free_pages_ b) (next_page_id_ b).
Definition set_free_pages (l : list Z) (b : BufferPoolManager) : BufferPoolManager :=
  mkBufferPoolManager (pool_size_ b) (pages_ b) (replacer_ b) (disk_scheduler_ b)
    (page_table_ b) (free_list_ b) l (next_page_id_ b).
Definition set_next_page_id (n : Z) (b : BufferPoolManager) : BufferPoolManager :=
  mkBufferPoolManager (pool_size_ b) (pages_ b) (replacer_ b) (disk_scheduler_ b)
    (page_table_ b) (free_list_ b) (free_pages_ b) n.

(** [pages_[f]] read.  Indexing outside the array is undefined in the
    source; the model reads an unassigned page there. *)
Definition page_at (b : BufferPoolManager) (f : Z) : Page :=
  if 0 <=? f then default (new_Page 0) (pages_ b !! Z.to_nat f) else new_Page 0.

(** [pages_[f]] updated by [g].  Outside the array the model stores nothing. *)
Definition update_page (f : Z) (g : Page -> Page) (b : BufferPoolManager)
  : BufferPoolManager :=
  if 0 <=? f then set_pages (alter g (Z.to_nat f) (pages_ b)) b else b.

Definition set_page_id (p : Z) (pg : Page) : Page :=
  mkPage (data_ pg) p (pin_count_ pg) (is_dirty_ pg).
Definition set_pin_count (n : Z) (pg : Page) : Page :=
  mkPage (data_ pg) (page_id_ pg) n (is_dirty_ pg).
Definition set_is_dirty (d : bool) (pg : Page) : Page :=
  mkPage (data_ pg) (page_id_ pg) (pin_count_ pg) d.

(** The loop both [NewPage] and [FetchPage] start with: no frame of the
    pool has pin count 0. *)
Definition all_pined (b : BufferPoolManager) : bool :=
  forallb (fun i => negb (pin_count_ (page_at b i) =? 0)) (seqZ 0 (pool_size_ b)).

(** [disk_scheduler_->Schedule(DiskRequest{is_write, pages_[f].GetData(), p, ...})] *)
Definition schedule (is_write : bool) (f p : Z) (b : BufferPoolManager)
  : BufferPoolManager :=
  set_disk_scheduler (Disk.Schedule (Disk.mkDiskRequest is_write f p) (disk_scheduler_ b)) b.

(** [AllocatePage()] past its lock guard ([Latch.AllocatePage] has the
    guard). *)
Definition AllocatePage (b : BufferPoolManager) : BufferPoolManager * Z :=
  match free_pages_ b with
  | page_id :: rest => (set_free_pages rest b, page_id)
  | [] => (set_next_page_id (wrap_int32 (next_page_id_ b + 1)) b, next_page_id_ b)
  end.

(** [DeallocatePage(page_id)] past its lock guard ([Latch.DeallocatePage]
    has the guard). *)
Definition DeallocatePage (page_id : Z) (b : BufferPoolManager) : BufferPoolManager :=
  set_free_pages (free_pages_ b ++ [page_id]) b.

(** [replacer_->SetEvictable(f, e)] inside the pool. *)
Definition pool_SetEvictable (f : Z) (e : bool) (b : BufferPoolManager)
  : outcome BufferPoolManager :=
  r <- SetEvictable f e (replacer_ b) ;;
  Ret (set_replacer r b).

(** What a call to [NewPage] leaves behind: the pool, the value written
    to [*page_id] if any, and the frame of the page returned ([None] for
    [nullptr]). *)
Record NewPage_result : Type := mkNewPage_result {
  np_pool : BufferPoolManager;
  np_page_id : option Z;
  np_page : option Z
}.

Section Ops.
Variable undef : Z -> Z.

(** The tail of [NewPage], from the call to [AllocatePage] on, once
    [free_frame] is chosen; [AllocatePage] is taken past its lock
    guard, as on a re-entrant latch ([Latch.NewPage_install] has the
    guard). *)
Definition NewPage_install (free_frame : Z) (b : BufferPoolManager)
  : outcome NewPage_result :=
  let '(b, page_id) := AllocatePage b in
  if pool_size_ b <=? to_size_t page_id
  then Ret (mkNewPage_result b (Some page_id) None)
  else
    let b :=
      match page_table_ b !! page_id with
      | Some _ => schedule false free_frame page_id b
      | None => b
      end in
    let b := update_page free_frame (set_page_id page_id) b in
    let b := update_page free_frame (set_pin_count 1) b in
    let b := update_page free_frame (set_is_dirty false) b in
    b <- pool_SetEvictable free_frame false b ;;
    let b := set_page_table (<[page_id := free_frame]> (page_table_ b)) b in
    Ret (mkNewPage_result b (Some page_id) (Some free_frame)).

(** [NewPage(&page_id)] on a re-entrant latch ([Latch.NewPage] is the
    function on the [std::mutex] of the source). *)
Definition NewPage (b : BufferPoolManager) : outcome NewPage_result :=
  if all_pined b then Ret (mkNewPage_result b None None)
  else
    match free_list_ b with
    | free_frame :: rest => NewPage_install free_frame (set_free_list rest b)
    | [] =>
        match Evict undef (replacer_ b) with
        | (r, None) => Ret (mkNewPage_result (set_replacer r b) None None)
        | (r, Some free_frame) =>
            let b := set_replacer r b in
            let b :=
              if is_dirty_ (page_at b free_frame)
              then
                let b := schedule true free_frame (page_id_ (page_at b free_frame)) b in
                update_page free_frame (set_is_dirty false) b
              else b in
            let b := set_free_pages (free_pages_ b ++ [page_id_ (page_at b free_frame)]) b in
            NewPage_install free_frame b
        end
    end.

(** The tail of [FetchPage] on a miss, once [free_frame] is chosen. *)
Definition FetchPage_install (page_id free_frame : Z) (b : BufferPoolManager)
  : outcome (BufferPoolManager * option Z) :=
  let b := schedule false free_frame page_id b in
  let b := update_page free_frame (set_page_id page_id) b in
  let b := update_page free_frame
             (fun pg => set_pin_count (pin_count_ pg + 1) pg) b in
  let b := update_page free_frame (set_is_dirty false) b in
  b <- pool_SetEvictable free_frame false b ;;
  Ret (b, Some free_frame).

(** [FetchPage(page_id)]: the pool and the frame of the page returned. *)
Definition FetchPage (page_id : Z) (b : BufferPoolManager)
  : outcome (BufferPoolManager * option Z) :=
  if all_pined b then Ret (b, None)
  else
    match page_table_ b !! page_id with
    | Some frame_id =>
        let b := update_page frame_id
                   (fun pg => set_pin_count (pin_count_ pg + 1) pg) b in
        b <- pool_SetEvictable frame_id false b ;;
        Ret (b, Some frame_id)
    | None =>
        match free_list_ b with
        | free_frame :: rest =>
            FetchPage_install page_id free_frame (set_free_list rest b)
        | [] =>
            match Evict undef (replacer_ b) with
            | (r, None) => Ret (set_replacer r b, None)
            | (r, Some free_frame) =>
                let b := set_replacer r b in
                let b :=
                  if is_dirty_ (page_at b free_frame)
                  then update_page free_frame (set_is_dirty false) b
                  else b in
                FetchPage_install page_id free_frame b
            end
        end
    end.
End Ops.

(** [UnpinPage(page_id, is_dirty)] *)
Definition UnpinPage (page_id : Z) (is_dirty : bool) (b : BufferPoolManager)
  : outcome (BufferPoolManager * bool) :=
  match page_table_ b !! page_id with
  | None => Ret (b, false)
  | Some frame_id =>
      if pin_count_ (page_at b frame_id) <=? 0 then Ret (b, false)
      else
        let b := update_page frame_id
                   (fun pg => set_pin_count (pin_count_ pg - 1) pg) b in
        let b := if is_dirty then update_page frame_id (set_is_dirty true) b else b in
        b <- (if pin_count_ (page_at b frame_id) =? 0
              then pool_SetEvictable frame_id true b
              else Ret b) ;;
        Ret (b, true)
  end.

(** [FlushPage(page_id)] on a re-entrant latch ([Latch.FlushPage] is the
    function on the [std::mutex] of the source). *)
Definition FlushPage (page_id : Z) (b : BufferPoolManager) : BufferPoolManager * bool :=
  match page_table_ b !! page_id with
  | None => (b, false)
  | Some frame_id =>
      let b :=
        if is_dirty_ (page_at b frame_id)
        then
          let b := update_page frame_id (set_is_dirty false) b in
          schedule true frame_id (page_id_ (page_at b frame_id)) b
        else b in
      (DeallocatePage page_id b, true)
  end.

(** Modelled from the spec: storage/page/page.h is not among the sources;
    [DeletePage] "resets the frame's memory".  [ResetMemory()] fills the
    buffer with zero bytes and leaves the other fields of the page. *)
Definition ResetMemory (pg : Page) : Page :=
  mkPage (repeat Byte.x00 (length (data_ pg))) (page_id_ pg) (pin_count_ pg)
    (is_dirty_ pg).

(** [DeletePage(page_id)] on a re-entrant latch ([Latch.DeletePage] is
    the function on the [std::mutex] of the source). *)
Definition DeletePage (page_id : Z) (b : BufferPoolManager)
  : outcome (BufferPoolManager * bool) :=
  match page_table_ b !! page_id with
  | None => Ret (b, true)
  | Some frame_id =>
      if 0 <? pin_count_ (page_at b frame_id) then Ret (b, false)
      else
        let b :=
          if is_dirty_ (page_at b frame_id)
          then
            let b := update_page frame_id (set_is_dirty false) b in
            schedule true frame_id (page_id_ (page_at b frame_id)) b
          else b in
        r <- Remove frame_id (replacer_ b) ;;
        let b := set_replacer r b in
        let b := set_page_table (delete page_id (page_table_ b)) b in
        let b := update_page frame_id ResetMemory b in
        let b := set_free_list (free_list_ b ++ [frame_id]) b in
        Ret (DeallocatePage page_id b, true)
  end.

(** A frame is marked evictable in the replacer. *)
Definition evictable (b : BufferPoolManager) (f : Z) : Prop :=
  f ∈ evictable_list_ (replacer_ b)
  /\ is_evictable_ (node_at (node_store_ (replacer_ b)) f) = true.

(** A frame is marked non-evictable in the replacer. *)
Definition non_evictable (b : BufferPoolManager) (f : Z) : Prop :=
  (f ∉ evictable_list_ (replacer_ b))
  /\ is_evictable_ (node_at (node_store_ (replacer_ b)) f) = false.

Definition in_pool (b : BufferPoolManager) (f : Z) : Prop :=
  0 <= f < pool_size_ b.

(** Well-formed pools: frames the pool refers to lie inside the array,
    the replacer is as large as the pool and its bookkeeping is
    consistent, and no pin count is negative. *)

Definition wf (b : BufferPoolManager) : Prop :=
  Z.of_nat (length (pages_ b)) = pool_size_ b
  /\ pool_size_ b < 2 ^ 31
  /\ replacer_size_ (replacer_ b) = pool_size_ b
  /\ Forall (in_pool b) (free_list_ b)
  /\ Forall (in_pool b) (evictable_list_ (replacer_ b))
  /\ map_Forall (fun _ f => in_pool b f) (page_table_ b)
  /\ Forall (fun pg => 0 <= pin_count_ pg) (pages_ b)
  /\ consistent (replacer_ b).

#[global] Instance wf_dec (b : BufferPoolManager) : Decision (wf b).
Proof. unfold wf, in_pool. apply _. Defined.

(** The outcomes of [NewPage] on the pool [b]: when it returns
    [nullptr], what it leaves unchanged, and what the page it returns
    looks like. *)
Definition NewPage_outcome (b : BufferPoolManager) (res : NewPage_result) : Prop :=
  (np_page res = None <->
     all_pined b = true
     \/ (free_list_ b = [] /\ evictable_list_ (replacer_ b) = [])
     \/ (exists pid, np_page_id res = Some pid /\ pool_size_ b <= to_size_t pid))
  /\ (all_pined b = true
      \/ (free_list_ b = [] /\ evictable_list_ (replacer_ b) = []) ->
      np_pool res = b /\ np_page_id res = None)
  /\ (forall f, np_page res = Some f ->
        exists pid, np_page_id res = Some pid
          /\ to_size_t pid < pool_size_ b
          /\ in_pool b f
          /\ page_id_ (page_at (np_pool res) f) = pid
          /\ pin_count_ (page_at (np_pool res) f) = 1
          /\ is_dirty_ (page_at (np_pool res) f) = false
          /\ non_evictable (np_pool res) f
          /\ page_table_ (np_pool res) !! pid = Some f).

(** Calls of a client, to build pool states from [init]. *)
Inductive call : Type :=
  | CNewPage
  | CFetchPage (page_id : Z)
  | CUnpinPage (page_id : Z) (is_dirty : bool)
  | CFlushPage (page_id : Z).

Definition step (undef : Z -> Z) (b : BufferPoolManager) (c : call)
  : outcome BufferPoolManager :=
  match c with
  | CNewPage => r <- NewPage undef b ;; Ret (np_pool r)
  | CFetchPage page_id => r <- FetchPage undef page_id b ;; Ret r.1
  | CUnpinPage page_id is_dirty => r <- UnpinPage page_id is_dirty b ;; Ret r.1
  | CFlushPage page_id => Ret (FlushPage page_id b).1
  end.

Definition run (undef : Z -> Z) (b : BufferPoolManager) (cs : list call)
  : outcome BufferPoolManager :=
  foldl (fun ob c => b <- ob ;; step undef b c) (Ret b) cs.

(** The pool a script of calls leaves, the script run on a fresh pool of
    [pool_size] frames with [k = 2]; the fresh pool itself if a call of
    the script does not return. *)
Definition PAGE_SIZE : nat := 4096.

Definition pool_after (undef : Z -> Z) (pool_size : nat) (cs : list call)
  : BufferPoolManager :=
  match run undef (init PAGE_SIZE pool_size 2) cs with
  | Ret b => b
  | _ => init PAGE_SIZE pool_size 2
  end.

(** One frame holding page 0, unpinned and dirty. *)
Definition dirty_victim : list call := [CNewPage; CUnpinPage 0 true].

(** One frame whose page table entry says page 0 while the frame holds
    page 5, unpinned. *)
Definition stale_entry : list call :=
  [CNewPage; CUnpinPage 0 false; CFetchPage 5; CUnpinPage 0 false].

(** The pool [stale_entry] leaves, after one more [NewPage]: the call
    evicts frame 0, is handed page id 5 and returns [nullptr]. *)
Definition lost_frame : list call := stale_entry ++ [CNewPage].

(** [FetchPage] of the pages [page_ids], one after the other: the pool
    after the calls and the frames returned, first call first. *)
Fixpoint FetchPage_times (undef : Z -> Z) (page_ids : list Z) (b : BufferPoolManager)
  : outcome (BufferPoolManager * list (option Z)) :=
  match page_ids with
  | [] => Ret (b, [])
  | page_id :: rest =>
      r <- FetchPage undef page_id b ;;
      r' <- FetchPage_times undef rest r.1 ;;
      Ret (r'.1, r.2 :: r'.2)
  end.

(** The largest [int]. *)
Definition INT_MAX : Z := 2 ^ 31 - 1.

(** No pin count is at [INT_MAX]: [pin_count_++] does not overflow. *)
Definition pins_below_INT_MAX (b : BufferPoolManager) : Prop :=
  Forall (fun pg => pin_count_ pg < INT_MAX) (pages_ b).

#[global] Instance pins_below_INT_MAX_dec (b : BufferPoolManager)
  : Decision (pins_below_INT_MAX b).
Proof. unfold pins_below_INT_MAX. apply _. Defined.

(** A pool of [n] frames of which the first [i] have been handed out by
    [FetchPage] and are pinned once, the others being free: nothing is in
    the page table, no page id was allocated or freed, and no frame is
    evictable. *)
Definition filled (n i : Z) (b : BufferPoolManager) : Prop :=
  wf b /\ pool_size_ b = n /\ 0 <= i <= n
  /\ free_list_ b = seqZ i (n - i)
  /\ page_table_ b = ∅
  /\ free_pages_ b = []
  /\ next_page_id_ b = 0
  /\ evictable_list_ (replacer_ b) = []
  /\ (forall j, 0 <= j < i -> pin_count_ (page_at b j) = 1)
  /\ (forall j, i <= j < n -> pin_count_ (page_at b j) = 0).

(** [b'] has the size of [b], and its replacer has the property [I] if
    that of [b] has it. *)
Definition kept (I : LRUKReplacer -> Prop) (b b' : BufferPoolManager) : Prop :=
  pool_size_ b' = pool_size_ b /\ (I (replacer_ b) -> I (replacer_ b')).

(** The replacer holds no access history. *)
Definition no_history (r : LRUKReplacer) : Prop :=
  current_timestamp_ r = 0
  /\ map_Forall (fun _ nd => history_ nd = []) (node_store_ r).

End BufferPool.

(** ** The latch of the buffer pool (src/buffer/buffer_pool_manager.cpp) *)

Module Latch.
Import Replacer BufferPool.

(** A call of the pool either ends, by a return or by an exception, or
    blocks for ever on [latch_]. *)
Inductive latched (A : Type) : Type :=
  | Returns (o : outcome A)
  | Deadlock.
Arguments Returns {A} o.
Arguments Deadlock {A}.

Definition lbind {A B : Type} (m : latched A) (f : A -> latched B) : latched B :=
  match m with
  | Returns (Ret a) => f a
  | Returns Fault => Returns Fault
  | Returns Throw => Returns Throw
  | Deadlock => Deadlock
  end.

(** [std::lock_guard<std::mutex> lock(latch_)] and the scope it guards.
    [latch_] says whether the mutex is locked; the model has one thread,
    so that it is then locked by the caller.  Locking a [std::mutex] that
    the calling thread owns is undefined in C++; the thread blocks for
    ever on the implementations at hand, and that is what the model
    takes.  Otherwise [scope] runs with the mutex locked, and the guard
    unlocks it when the scope is left, by return or by exception. *)
Definition lock_guard {A : Type} (latch_ : bool) (scope : bool -> latched A)
  : latched A :=
  if latch_ then Deadlock else scope true.

(** [AllocatePage()] *)
Definition AllocatePage (latch_ : bool) (b : BufferPoolManager)
  : latched (BufferPoolManager * Z) :=
  lock_guard latch_ (fun _ => Returns (Ret (BufferPool.AllocatePage b))).

(** [DeallocatePage(page_id)] *)
Definition DeallocatePage (latch_ : bool) (page_id : Z) (b : BufferPoolManager)
  : latched BufferPoolManager :=
  lock_guard latch_ (fun _ => Returns (Ret (BufferPool.DeallocatePage page_id b))).

Section Ops.
Variable undef : Z -> Z.

(** The tail of [NewPage], from the call to [AllocatePage] on, once
    [free_frame] is chosen. *)
Definition NewPage_install (latch_ : bool) (free_frame : Z) (b : BufferPoolManager)
  : latched NewPage_result :=
  lbind (AllocatePage latch_ b) (fun r =>
    let '(b, page_id) := r in
    if pool_size_ b <=? to_size_t page_id
    then Returns (Ret (mkNewPage_result b (Some page_id) None))
    else
      let b :=
        match page_table_ b !! page_id with
        | Some _ => schedule false free_frame page_id b
        | None => b
        end in
      let b := update_page free_frame (set_page_id page_id) b in
      let b := update_page free_frame (set_pin_count 1) b in
      let b := update_page free_frame (set_is_dirty false) b in
      lbind (Returns (pool_SetEvictable free_frame false b)) (fun b =>
        let b := set_page_table (<[page_id := free_frame]> (page_table_ b)) b in
        Returns (Ret (mkNewPage_result b (Some page_id) (Some free_frame))))).

(** [NewPage(&page_id)] *)
Definition NewPage (latch_ : bool) (b : BufferPoolManager) : latched NewPage_result :=
  lock_guard latch_ (fun latch_ =>
    if all_pined b then Returns (Ret (mkNewPage_result b None None))
    else
      match free_list_ b with
      | free_frame :: rest => NewPage_install latch_ free_frame (set_free_list rest b)
      | [] =>
          match Evict undef (replacer_ b) with
          | (r, None) => Returns (Ret (mkNewPage_result (set_replacer r b) None None))
          | (r, Some free_frame) =>
              let b := set_replacer r b in
              let b :=
                if BufferPool.is_dirty_ (page_at b free_frame)
                then
                  let b := schedule true free_frame (page_id_ (page_at b free_frame)) b in
                  update_page free_frame (set_is_dirty false) b
                else b in
              let b := set_free_pages
                         (free_pages_ b ++ [page_id_ (page_at b free_frame)]) b in
              NewPage_install latch_ free_frame b
          end
      end).

(** [FetchPage(page_id)]: one lock guard, and no call that locks. *)
Definition FetchPage (latch_ : bool) (page_id : Z) (b : BufferPoolManager)
  : latched (BufferPoolManager * option Z) :=
  lock_guard latch_ (fun _ => Returns (BufferPool.FetchPage undef page_id b)).
End Ops.

(** [UnpinPage(page_id, is_dirty)]: one lock guard, and no call that
    locks. *)
Definition UnpinPage (latch_ : bool) (page_id : Z) (is_dirty : bool)
    (b : BufferPoolManager) : latched (BufferPoolManager * bool) :=
  lock_guard latch_ (fun _ => Returns (BufferPool.UnpinPage page_id is_dirty b)).

(** [FlushPage(page_id)] *)
Definition FlushPage (latch_ : bool) (page_id : Z) (b : BufferPoolManager)
  : latched (BufferPoolManager * bool) :=
  lock_guard latch_ (fun latch_ =>
    match page_table_ b !! page_id with
    | None => Returns (Ret (b, false))
    | Some frame_id =>
        let b :=
          if BufferPool.is_dirty_ (page_at b frame_id)
          then
            let b := update_page frame_id (set_is_dirty false) b in
            schedule true frame_id (page_id_ (page_at b frame_id)) b
          else b in
        lbind (DeallocatePage latch_ page_id b) (fun b => Returns (Ret (b, true)))
    end).

(** [DeletePage(page_id)] *)
Definition DeletePage (latch_ : bool) (page_id : Z) (b : BufferPoolManager)
  : latched (BufferPoolManager * bool) :=
  lock_guard latch_ (fun latch_ =>
    match page_table_ b !! page_id with
    | None => Returns (Ret (b, true))
    | Some frame_id =>
        if 0 <? pin_count_ (page_at b frame_id) then Returns (Ret (b, false))
        else
          let b :=
            if BufferPool.is_dirty_ (page_at b frame_id)
            then
              let b := update_page frame_id (set_is_dirty false) b in
              schedule true frame_id (page_id_ (page_at b frame_id)) b
            else b in
          lbind (Returns (Remove frame_id (replacer_ b))) (fun r =>
            let b := set_replacer r b in
            let b := set_page_table (delete page_id (page_table_ b)) b in
            let b := update_page frame_id ResetMemory b in
            let b := set_free_list (free_list_ b ++ [frame_id]) b in
            lbind (DeallocatePage latch_ page_id b) (fun b => Returns (Ret (b, true))))
    end).

(** Calls of a client, made with [latch_] unlocked. *)
Inductive client_call : Type :=
  | LNewPage
  | LFetchPage (page_id : Z)
  | LUnpinPage (page_id : Z) (is_dirty : bool)
  | LFlushPage (page_id : Z)
  | LDeletePage (page_id : Z).

Definition step (undef : Z -> Z) (b : BufferPoolManager) (c : client_call)
  : latched BufferPoolManager :=
  match c with
  | LNewPage => lbind (NewPage undef false b) (fun r => Returns (Ret (np_pool r)))
  | LFetchPage page_id =>
      lbind (FetchPage undef false page_id b) (fun r => Returns (Ret r.1))
  | LUnpinPage page_id is_dirty =>
      lbind (UnpinPage false page_id is_dirty b) (fun r => Returns (Ret r.1))
  | LFlushPage page_id => lbind (FlushPage false page_id b) (fun r => Returns (Ret r.1))
  | LDeletePage page_id => lbind (DeletePage false page_id b) (fun r => Returns (Ret r.1))
  end.

(** A script of calls: it stops at the first call that does not return. *)
Definition run (undef : Z -> Z) (b : BufferPoolManager) (cs : list client_call)
  : latched BufferPoolManager :=
  foldl (fun lb c => lbind lb (fun b => step undef b c)) (Returns (Ret b)) cs.

Definition calls_NewPage (c : client_call) : bool :=
  match c with LNewPage => true | _ => false end.

End Latch.

(** ** Page guards (src/storage/page/page_guard.cpp) *)

Module PageGuard.
Import BufferPool.

(** [bpm_] is a pointer to the pool: the model has one pool, so the
    pointer is either null or that pool.  [page_] is a pointer to a frame
    of [pages_], given by its index. *)
Inductive pool_ptr : Type := null_pool | the_pool.

Record BasicPageGuard : Type := mkBasicPageGuard {
  bpm_ : pool_ptr;
  page_ : option Z;
  is_dirty_ : bool
}.

(** [BasicPageGuard()] *)
Definition empty_guard : BasicPageGuard := mkBasicPageGuard null_pool None false.

(** [BasicPageGuard(BasicPageGuard &&that)]: the new guard and [that]
    after the call. *)
Definition move_construct (that : BasicPageGuard) : BasicPageGuard * BasicPageGuard :=
  (mkBasicPageGuard (bpm_ that) (page_ that) (is_dirty_ that),
   mkBasicPageGuard null_pool None false).

(** [Drop()]: the guard and the pool after the call. *)
Definition Drop (g : BasicPageGuard) (b : BufferPoolManager)
  : outcome (BasicPageGuard * BufferPoolManager) :=
  match page_ g, bpm_ g with
  | Some frame, the_pool =>
      r <- UnpinPage (page_id_ (page_at b frame)) (is_dirty_ g) b ;;
      Ret (mkBasicPageGuard (bpm_ g) None (is_dirty_ g), r.1)
  | _, _ => Ret (g, b)
  end.

(** [operator=(BasicPageGuard &&that)] for [this] and [that] two distinct
    guards: [this], [that] and the pool after the call. *)
Definition move_assign (this that : BasicPageGuard) (b : BufferPoolManager)
  : outcome (BasicPageGuard * BasicPageGuard * BufferPoolManager) :=
  r <- Drop this b ;;
  let this := r.1 in
  let this := mkBasicPageGuard (bpm_ that) (page_ this) (is_dirty_ this) in
  let this := mkBasicPageGuard (bpm_ this) (page_ that) (is_dirty_ this) in
  let this := mkBasicPageGuard (bpm_ this) (page_ this) (is_dirty_ that) in
  let this := mkBasicPageGuard null_pool (page_ this) (is_dirty_ this) in
  Ret (this, that, r.2).

(** The guard holds nothing: dropping it releases no pin. *)
Definition is_empty (g : BasicPageGuard) : Prop :=
  bpm_ g = null_pool /\ page_ g = None.

End PageGuard.

Module ReadPageGuard.
Import BufferPool.

Record ReadPageGuard : Type := mkReadPageGuard {
  guard_ : PageGuard.BasicPageGuard
}.

(** [ReadPageGuard(ReadPageGuard &&that)]: [guard_] is move-constructed
    from [that.guard_], then assigned a temporary [BasicPageGuard()],
    which is destroyed at the end of the statement.  The new guard,
    [that] and the pool after the call. *)
Definition move_construct (that : ReadPageGuard) (b : BufferPoolManager)
  : outcome (ReadPageGuard * ReadPageGuard * BufferPoolManager) :=
  let '(this_guard, that_guard) := PageGuard.move_construct (guard_ that) in
  r <- PageGuard.move_assign this_guard PageGuard.empty_guard b ;;
  let '(this_guard, tmp, b) := r in
  r <- PageGuard.Drop tmp b ;;
  Ret (mkReadPageGuard this_guard, mkReadPageGuard that_guard, r.2).

(** [operator=(ReadPageGuard &&that)] for [this] and [that] two distinct
    guards: [this], [that] and the pool after the call. *)
Definition move_assign (this that : ReadPageGuard) (b : BufferPoolManager)
  : outcome (ReadPageGuard * ReadPageGuard * BufferPoolManager) :=
  r <- PageGuard.Drop (guard_ this) b ;;
  r <- PageGuard.move_assign r.1 (guard_ that) r.2 ;;
  let '(this_guard, that_guard, b) := r in
  r <- PageGuard.move_assign that_guard PageGuard.empty_guard b ;;
  let '(that_guard, tmp, b) := r in
  r <- PageGuard.Drop tmp b ;;
  Ret (mkReadPageGuard this_guard, mkReadPageGuard that_guard, r.2).

(** [Drop()] *)
Definition Drop (g : ReadPageGuard) (b : BufferPoolManager)
  : outcome (ReadPageGuard * BufferPoolManager) :=
  r <- PageGuard.Drop (guard_ g) b ;;
  Ret (mkReadPageGuard r.1, r.2).

End ReadPageGuard.

Module WritePageGuard.
Import BufferPool.

Record WritePageGuard : Type := mkWritePageGuard {
  guard_ : PageGuard.BasicPageGuard
}.

(** [operator=(WritePageGuard &&that)] for [this] and [that] two distinct
    guards: [this], [that] and the pool after the call. *)
Definition move_assign (this that : WritePageGuard) (b : BufferPoolManager)
  : outcome (WritePageGuard * WritePageGuard * BufferPoolManager) :=
  r <- PageGuard.Drop (guard_ this) b ;;
  r <- PageGuard.move_assign r.1 (guard_ that) r.2 ;;
  let '(this_guard, that_guard, b) := r in
  r <- PageGuard.move_assign that_guard PageGuard.empty_guard b ;;
  let '(that_guard, tmp, b) := r in
  r <- PageGuard.Drop tmp b ;;
  Ret (mkWritePageGuard this_guard, mkWritePageGuard that_guard, r.2).

(** [WritePageGuard(WritePageGuard &&that)]: [guard_] starts as
    [BasicPageGuard()]; the body is that of [operator=]. *)
Definition move_construct (that : WritePageGuard) (b : BufferPoolManager)
  : outcome (WritePageGuard * WritePageGuard * BufferPoolManager) :=
  move_assign (mkWritePageGuard PageGuard.empty_guard) that b.

(** [Drop()] *)
Definition Drop (g : WritePageGuard) (b : BufferPoolManager)
  : outcome (WritePageGuard * BufferPoolManager) :=
  r <- PageGuard.Drop (guard_ g) b ;;
  Ret (mkWritePageGuard r.1, r.2).

End WritePageGuard.

(** * Properties *)

(** ** Trie *)

Section TrieProperties.
Import Trie.
Context {tid : Type} `{EqDecision tid} {data : Type}.
Implicit Types (n r : TrieNode tid data) (t : Trie tid data) (key : string).
Implicit Types (stacks : list (ascii * TrieNode tid data)).

Lemma Get_walk_null key :
  Get_walk (tid:=tid) (data:=data) None key
  = Ret (match key with EmptyString => Some None | String _ _ => None end).
Proof. destruct key; reflexivity. Qed.

(** C10: on the empty trie (null root) [Get<T>] returns [nullptr] for
    every key, the empty one included, and dereferences no null pointer:
    the walk leaves at its null test and the cast of a null pointer is
    null. *)
Theorem Get_empty_trie (T : tid) key :
  Get (data:=data) T key empty_trie = Ret None.
Proof.
  unfold Get, empty_trie; simpl.
  rewrite Get_walk_null.
  destruct key; reflexivity.
Qed.

(** C7: [Put] with the empty key on the empty trie evaluates
    [root_->children_] on a null [root_]. *)
Theorem Put_empty_key_empty_trie (T : tid) (v : data) :
  Put T EmptyString v empty_trie = Fault.
Proof. reflexivity. Qed.

Lemma Get_of_walk T v key t m :
  Get_walk (root_ t) key = Ret (Some (Some m)) -> holds T v m ->
  Get T key t = Ret (Some v).
Proof.
  intros Hw [Hv Hf]. unfold Get. rewrite Hw. simpl.
  rewrite Hv. destruct (decide (T = T)) as [_|]; [|congruence].
  rewrite Hf. reflexivity.
Qed.

Lemma Get_walk_set_child ch c n key :
  Get_walk (Some (set_child ch c n)) (String ch key) = Get_walk (Some c) key.
Proof. simpl. rewrite lookup_insert_eq. reflexivity. Qed.

Lemma Putcycle_step T v n ch c' key :
  Putcycle n (String ch (String c' key)) T v
  = (ptr <- Putcycle
              (match children_ n !! ch with
               | Some iter => Clone iter
               | None => mkTrieNode ∅
               end) (String c' key) T v ;;
     Ret (set_child ch ptr n)).
Proof. simpl. destruct (children_ n !! ch); reflexivity. Qed.

Lemma Putcycle_walk T v key : forall n ch,
  exists n' m, Putcycle n (String ch key) T v = Ret n'
    /\ Get_walk (Some n') (String ch key) = Ret (Some (Some m))
    /\ holds T v m.
Proof.
  induction key as [|c' key IH]; intros n ch.
  - cbn [Putcycle].
    destruct (children_ n !! ch) as [iter|]; eexists _, _;
      (split; [reflexivity|]); rewrite Get_walk_set_child; simpl;
      (split; [reflexivity|]); split; reflexivity.
  - rewrite Putcycle_step.
    destruct (IH (match children_ n !! ch with
                  | Some iter => Clone iter
                  | None => mkTrieNode ∅
                  end) c') as (p & m & Hp & Hg & Hm).
    rewrite Hp. cbn [bind]. exists (set_child ch p n), m.
    split; [reflexivity|]. rewrite Get_walk_set_child. auto.
Qed.

(** Put/Get round trip wherever [Put] returns: every trie with a
    non-empty key, and every trie with a root with the empty key. *)
Lemma Put_Get_roundtrip T v key t :
  key <> EmptyString \/ root_ t <> None ->
  exists t', Put T key v t = Ret t' /\ Get T key t' = Ret (Some v).
Proof.
  intros Hne. destruct key as [|ch key].
  - destruct Hne as [?|Hr]; [congruence|].
    destruct t as [[r|]]; [|simpl in Hr; congruence].
    unfold Put; simpl. destruct (children_empty r); eexists; split; try reflexivity.
    + unfold Get; simpl. destruct (decide (T = T)); [reflexivity|congruence].
    + unfold Get; simpl. destruct (decide (T = T)); [reflexivity|congruence].
  - unfold Put.
    destruct (Putcycle_walk T v key
                (match root_ t with None => mkTrieNode ∅ | Some r => Clone r end) ch)
      as (n' & m & Hp & Hg & Hm).
    rewrite Hp. cbn [bind]. eexists; split; [reflexivity|].
    eapply Get_of_walk; [|exact Hm]. exact Hg.
Qed.

(** With the empty key on a trie that has a root, the new root is a
    value node with the children of the old root. *)
Lemma Put_empty_key_root T v r :
  Put T EmptyString v (mkTrie (Some r))
  = Ret (mkTrie (Some (mkTrieNodeWithValue (children_ r) T v))).
Proof.
  unfold Put; simpl. unfold children_empty.
  case_bool_decide as Hd; [|reflexivity].
  apply dom_empty_iff_L in Hd. rewrite Hd. reflexivity.
Qed.

Lemma children_Clone n : children_ (Clone n) = children_ n.
Proof. unfold Clone. destruct (value_ n) as [[T v]|]; reflexivity. Qed.

(** The walk of [Remove] over the clones follows the walk over the
    original nodes, and the clone it ends on has the flag of the node
    the key leads to. *)
Lemma Remove_walk_find_node key : forall n r stacks,
  children_ n = children_ r -> is_value_node_ n = is_value_node_ r ->
  match Remove_walk n key stacks with
  | Some (current, _) =>
      exists m, find_node r key = Some m
                /\ is_value_node_ current = is_value_node_ m
  | None => find_node r key = None
  end.
Proof.
  induction key as [|ch key IH]; intros n r stacks Hc Hf; simpl.
  - eauto.
  - rewrite Hc. destruct (children_ r !! ch) as [child|]; [|reflexivity].
    apply IH; [apply children_Clone|reflexivity].
Qed.

(** [Remove] of a key that stores no value returns the trie itself. *)
Lemma Remove_absent key t : stored key t = false -> Remove key t = t.
Proof.
  unfold stored, Remove. destruct t as [[r|]]; simpl; [|reflexivity].
  destruct key as [|ch key]; simpl.
  - intros ->. simpl. reflexivity.
  - assert (Hc : children_
              (if negb (is_value_node_ r) then set_is_value_node false (Clone r)
               else Clone r) = children_ r).
    { destruct (negb (is_value_node_ r)); simpl; apply children_Clone. }
    rewrite Hc. destruct (children_ r !! ch) as [child|]; [|reflexivity].
    intros Hst.
    pose proof (Remove_walk_find_node key
                  (set_is_value_node (is_value_node_ child) (Clone child)) child
                  [(ch, set_child ch (set_is_value_node (is_value_node_ child) (Clone child))
                          (if negb (is_value_node_ r)
                           then set_is_value_node false (Clone r) else Clone r))]
                  (children_Clone child) eq_refl) as Hw.
    destruct (Remove_walk _ key _) as [[current stacks]|]; [|reflexivity].
    destruct Hw as (m & Hm & Hfl). rewrite Hm in Hst. rewrite Hfl, Hst. reflexivity.
Qed.

(** [Get] on a trie without a root. *)
Lemma Get_no_root (T : tid) key : Get (data:=data) T key (mkTrie None) = Ret None.
Proof. unfold Get; simpl. rewrite Get_walk_null. by destruct key. Qed.

(** [Get] in terms of the node the key leads to. *)
Lemma Get_walk_find_node key : forall n,
  Get_walk (Some n) key = Ret (Some <$> find_node n key).
Proof.
  induction key as [|ch key IH]; intros n; simpl; [reflexivity|].
  destruct (children_ n !! ch) as [c|]; [apply IH|reflexivity].
Qed.

Lemma Get_no_node T key r :
  find_node r key = None -> Get T key (mkTrie (Some r)) = Ret None.
Proof. intros Hn. unfold Get; simpl. by rewrite Get_walk_find_node, Hn. Qed.

Lemma Get_no_flag T key r m :
  find_node r key = Some m -> is_value_node_ m = false ->
  Get T key (mkTrie (Some r)) = Ret None.
Proof.
  intros Hm Hf. unfold Get; simpl. rewrite Get_walk_find_node, Hm. simpl.
  destruct (value_ m) as [[T' v]|]; [|reflexivity].
  destruct (decide (T' = T)); [|reflexivity]. by rewrite Hf.
Qed.

Lemma Get_no_value T key r m :
  find_node r key = Some m -> value_ m = None ->
  Get T key (mkTrie (Some r)) = Ret None.
Proof.
  intros Hm Hv. unfold Get; simpl. rewrite Get_walk_find_node, Hm. simpl.
  by rewrite Hv.
Qed.

Lemma find_node_app key1 : forall n key2,
  find_node n (key1 +:+ key2)
  = match find_node n key1 with
    | Some m => find_node m key2
    | None => None
    end.
Proof.
  induction key1 as [|ch key1 IH]; intros n key2; simpl; [reflexivity|].
  destruct (children_ n !! ch); [apply IH|reflexivity].
Qed.

Lemma append_snoc key1 ch key2 :
  (key1 +:+ String ch EmptyString) +:+ key2 = key1 +:+ String ch key2.
Proof.
  induction key1 as [|c key1 IH]; [reflexivity|].
  change (String c ((key1 +:+ String ch EmptyString) +:+ key2)
          = String c (key1 +:+ String ch key2)).
  by rewrite IH.
Qed.

(** The stack the walk of [Remove] ends with spells the key. *)
Lemma Remove_walk_stack_key key : forall n stacks current stacks',
  Remove_walk n key stacks = Some (current, stacks') ->
  stack_key stacks' = stack_key stacks +:+ key.
Proof.
  induction key as [|ch key IH]; intros n stacks current stacks'; simpl.
  - intros [= _ <-]. induction (stack_key stacks) as [|c s IHs]; [done|].
    change (String c s = String c (s +:+ EmptyString)). by rewrite <- IHs.
  - destruct (children_ n !! ch) as [child|]; [|done].
    intros Hw. apply IH in Hw. rewrite Hw. cbn [stack_key]. apply append_snoc.
Qed.

(** After the pruning loop, the key the stack spells leads to the node
    the loop started from, or to nothing. *)
Lemma Remove_prune_find stacks : forall child pruning,
  find_node (Remove_prune child stacks pruning) (stack_key stacks) = Some child
  \/ find_node (Remove_prune child stacks pruning) (stack_key stacks) = None.
Proof.
  induction stacks as [|[ch parent] stacks IH]; intros child pruning; simpl.
  - auto.
  - rewrite find_node_app.
    destruct (pruning && children_empty child && negb (is_value_node_ child)).
    + destruct (IH (erase_child ch parent) true) as [-> | ->]; [|auto].
      right. simpl. by rewrite lookup_delete_eq.
    + destruct (IH (set_child ch child parent) false) as [-> | ->]; [|auto].
      left. simpl. by rewrite lookup_insert_eq.
Qed.

(** Remove/Get: whatever the trie and the key, [Get] finds nothing at a
    key that [Remove] has been called on. *)
Lemma Get_Remove T key t : Get T key (Remove key t) = Ret None.
Proof.
  destruct t as [[r|]]; [|apply Get_no_root].
  unfold Remove; simpl.
  set (new_root := if negb (is_value_node_ r)
                   then set_is_value_node false (Clone r) else Clone r).
  assert (Hc : children_ new_root = children_ r).
  { unfold new_root. destruct (negb (is_value_node_ r)); simpl; apply children_Clone. }
  destruct (bool_decide (key = EmptyString) && is_value_node_ new_root) eqn:Hb.
  { apply andb_true_iff in Hb as [->%bool_decide_eq_true _].
    by apply (Get_no_flag T EmptyString _ (set_is_value_node false new_root)). }
  destruct (Remove_walk new_root key []) as [[current stacks]|] eqn:Hw.
  2:{ destruct key as [|ch key]; [simpl in Hw; done|]. simpl in Hw.
      apply Get_no_node. simpl. rewrite <- Hc.
      destruct (children_ new_root !! ch) as [child|]; [|reflexivity].
      pose proof (Remove_walk_find_node key
                    (set_is_value_node (is_value_node_ child) (Clone child)) child
                    [(ch, set_child ch
                            (set_is_value_node (is_value_node_ child) (Clone child))
                            new_root)]
                    (children_Clone child) eq_refl) as Hf.
      by rewrite Hw in Hf. }
  destruct (is_value_node_ current) eqn:Hcur.
  - pose proof (Remove_walk_stack_key key _ _ _ _ Hw) as Hk. simpl in Hk.
    set (root' := Remove_prune (set_is_value_node false current) stacks true).
    destruct (negb (is_value_node_ root') && children_empty root');
      [apply Get_no_root|].
    destruct (Remove_prune_find stacks (set_is_value_node false current) true)
      as [Hf|Hf]; fold root' in Hf; rewrite Hk in Hf.
    + by apply (Get_no_flag T key _ _ Hf).
    + by apply Get_no_node.
  - destruct key as [|ch key]; simpl in Hw.
    + injection Hw as <- <-. simpl in Hb.
      rewrite Hcur in Hb. unfold new_root in Hcur.
      destruct (is_value_node_ r) eqn:Hr; simpl in Hcur.
      * apply (Get_no_value T EmptyString r r eq_refl).
        unfold Clone in Hcur. destruct (value_ r) as [[]|]; [simpl in Hcur; done|done].
      * by apply (Get_no_flag T EmptyString r r).
    + rewrite Hc in Hw.
      destruct (children_ r !! ch) as [child|] eqn:Hch; [|done].
      pose proof (Remove_walk_find_node key
                    (set_is_value_node (is_value_node_ child) (Clone child)) child
                    [(ch, set_child ch
                            (set_is_value_node (is_value_node_ child) (Clone child))
                            new_root)]
                    (children_Clone child) eq_refl) as Hf.
      rewrite Hw in Hf. destruct Hf as (m & Hm & Hfl).
      apply (Get_no_flag T (String ch key) r m); [simpl; by rewrite Hch|congruence].
Qed.
End TrieProperties.

(** ** Replacer *)

Section ReplacerProperties.
Import Replacer.
Implicit Types (r : LRUKReplacer) (ns : gmap Z LRUKNode) (f g : Z) (l : list Z).

Lemma node_at_touch ns f g : node_at (touch ns f) g = node_at ns g.
Proof.
  unfold touch, node_at. destruct (decide (f = g)) as [->|Hne].
  - rewrite lookup_insert_eq. reflexivity.
  - rewrite lookup_insert_ne by done. reflexivity.
Qed.

Lemma node_at_insert ns f g nd :
  node_at (<[f := nd]> ns) g = if decide (g = f) then nd else node_at ns g.
Proof.
  unfold node_at. destruct (decide (g = f)) as [->|Hne].
  - rewrite lookup_insert_eq. reflexivity.
  - rewrite lookup_insert_ne by done. reflexivity.
Qed.

Lemma node_at_delete ns f g :
  node_at (delete f ns) g = if decide (g = f) then default_node else node_at ns g.
Proof.
  unfold node_at. destruct (decide (g = f)) as [->|Hne].
  - rewrite lookup_delete_eq. reflexivity.
  - rewrite lookup_delete_ne by done. reflexivity.
Qed.

(** The flag and the list agree on every frame. *)
Lemma consistent_iff r :
  consistent r <->
  NoDup (evictable_list_ r)
  /\ forall f, f ∈ evictable_list_ r <-> is_evictable_ (node_at (node_store_ r) f) = true.
Proof.
  unfold consistent. rewrite Forall_forall. split.
  - intros (Hnd & Hl & Hm). split; [done|]. intros f. split; [by apply Hl|].
    unfold node_at. destruct (node_store_ r !! f) as [nd|] eqn:E; simpl; [|done].
    by apply (Hm f nd).
  - intros (Hnd & Hiff). split; [done|]. split.
    + intros f Hf. by apply Hiff.
    + intros f nd E Hnd'. apply Hiff. unfold node_at. by rewrite E.
Qed.

Lemma elem_of_map_insert {A} (key : Z) (a : A) m x :
  x ∈ map_insert key a m -> x = (key, a) \/ x ∈ m.
Proof.
  induction m as [|[key' a'] m IH]; simpl.
  - rewrite list_elem_of_singleton. auto.
  - destruct (key <? key'); [rewrite elem_of_cons; tauto|].
    destruct (key =? key'); [auto|].
    rewrite !elem_of_cons. intros [->|Hx]; [auto|].
    destruct (IH Hx); auto.
Qed.

Section WithUndef.
Variable undef : Z -> Z.

Lemma less_k_loop k its : forall acc,
  let res := foldl (less_k_step undef k) acc its in
  (forall g, node_at res.1 g = node_at acc.1 g)
  /\ (forall e, e ∈ res.2 -> e ∈ acc.2 \/ e.2 ∈ its).
Proof.
  induction its as [|it its IH]; intros acc; simpl.
  - split; auto.
  - destruct (IH (less_k_step undef k acc it)) as [Hn He].
    split.
    + intros g. rewrite Hn. unfold less_k_step.
      destruct (_ <? k); simpl; apply node_at_touch.
    + intros e Hin. apply He in Hin as [Hin|Hin].
      * unfold less_k_step in Hin. destruct (_ <? k); simpl in Hin; [|auto].
        apply elem_of_map_insert in Hin as [->|Hin]; [|auto].
        right. simpl. apply elem_of_cons. auto.
      * right. apply elem_of_cons. auto.
Qed.

Lemma max_dist_loop ns its : forall it,
  let res := foldl (max_dist_step undef ns) it its in
  res = it \/ res ∈ its.
Proof.
  induction its as [|e its IH]; intros it; simpl; [auto|].
  destruct (IH (max_dist_step undef ns it e)) as [Hr|Hr].
  - rewrite Hr. unfold max_dist_step. destruct (_ <? _); [right|left]; [|done].
    apply elem_of_cons. auto.
  - right. apply elem_of_cons. auto.
Qed.

(** [Evict] fails only on an empty evictable set, and then changes
    nothing. *)
Lemma Evict_None r r' :
  Evict undef r = (r', None) -> r' = r /\ evictable_list_ r = [].
Proof.
  unfold Evict. destruct (evictable_list_ r) as [|x l] eqn:E; simpl.
  - intros [= <-]. auto.
  - destruct (foldl _ _ _) as [ns less_k].
    destruct less_k as [|[? it] ?]; intros [=].
Qed.

(** A successful [Evict] erases one position of the evictable list and
    the node of the frame found there. *)
Lemma Evict_Some r r' f :
  Evict undef r = (r', Some f) ->
  exists i ns,
    evictable_list_ r !! i = Some f
    /\ (forall g, node_at ns g = node_at (node_store_ r) g)
    /\ r' = erase_victim r ns (i, f).
Proof.
  unfold Evict.
  destruct (iterators (evictable_list_ r)) as [|begin its] eqn:E; [intros [=]|].
  rewrite <- E.
  assert (Hits : forall it, it ∈ iterators (evictable_list_ r) ->
            evictable_list_ r !! it.1 = Some it.2).
  { intros [i x] Hin. apply elem_of_lookup_imap in Hin as (i' & x' & [= -> ->] & Hl).
    exact Hl. }
  pose proof (less_k_loop (k_ r) (iterators (evictable_list_ r)) (node_store_ r, []))
    as [Hn He].
  destruct (foldl (less_k_step undef (k_ r)) _ _) as [ns less_k]. simpl in Hn, He.
  destruct less_k as [|[key it] rest].
  - intros [= <- <-].
    set (it := foldl _ _ _).
    assert (Hin : it ∈ iterators (evictable_list_ r)).
    { destruct (max_dist_loop ns (iterators (evictable_list_ r)) begin) as [Hr|Hr].
      - fold it in Hr. rewrite Hr, E. apply elem_of_cons. auto.
      - exact Hr. }
    exists it.1, ns. split; [by apply Hits|]. split; [done|].
    by destruct it.
  - intros [= <- <-].
    destruct (He (key, it)) as [Hin|Hin]; [apply elem_of_cons; auto| |].
    + by apply elem_of_nil in Hin.
    + exists it.1, ns. split; [by apply Hits|]. split; [done|].
      by destruct it.
Qed.

Lemma map_insert_keeps {A} (key : Z) (a : A) m e :
  e ∈ m -> e ∈ map_insert key a m.
Proof.
  induction m as [|[key' a'] m IH]; simpl; [by intros ?%elem_of_nil|].
  intros He. destruct (key <? key'); [by apply elem_of_cons; right|].
  destruct (key =? key'); [done|].
  apply elem_of_cons in He as [->|He]; apply elem_of_cons; auto.
Qed.

Lemma map_insert_has {A} (key : Z) (a : A) m :
  exists a', (key, a') ∈ map_insert key a m.
Proof.
  induction m as [|[key' a'] m IH]; simpl.
  - exists a. by apply list_elem_of_singleton.
  - destruct (key <? key'); [exists a; apply elem_of_cons; auto|].
    destruct (key =? key') eqn:E.
    + apply Z.eqb_eq in E as ->. exists a'. apply elem_of_cons; auto.
    + destruct IH as [a'' Ha]. exists a''. apply elem_of_cons; auto.
Qed.

Lemma map_insert_head_min {A} (key : Z) (a : A) m :
  head_min m -> head_min (map_insert key a m).
Proof.
  destruct m as [|[key' a'] m]; simpl.
  - intros _ e ->%list_elem_of_singleton. simpl. lia.
  - intros Hmin. destruct (key <? key') eqn:Hlt.
    + apply Z.ltb_lt in Hlt. intros e [->|He]%elem_of_cons; simpl; [lia|].
      specialize (Hmin e He). simpl in Hmin. lia.
    + destruct (key =? key') eqn:Heq; [exact Hmin|].
      apply Z.ltb_ge in Hlt. apply Z.eqb_neq in Heq.
      intros e [->|He]%elem_of_cons; simpl; [lia|].
      apply elem_of_map_insert in He as [->|He]; simpl; [lia|].
      apply (Hmin e). apply elem_of_cons; auto.
Qed.

(** The first loop of [Evict]: [less_k_frames] ends up with one entry
    for each evictable frame with fewer than [k] accesses, keyed by the
    front of its history. *)
Lemma less_k_loop_min k ns0 its : forall acc,
  (forall g, node_at acc.1 g = node_at ns0 g) ->
  head_min acc.2 ->
  let res := foldl (less_k_step undef k) acc its in
  head_min res.2
  /\ (forall e, e ∈ acc.2 -> e ∈ res.2)
  /\ (forall e, e ∈ res.2 ->
        e ∈ acc.2
        \/ (e.2 ∈ its
            /\ (Z.of_nat (length (history_ (node_at ns0 e.2.2))) <? k) = true
            /\ e.1 = front undef e.2.2 (history_ (node_at ns0 e.2.2))))
  /\ (forall it, it ∈ its ->
        (Z.of_nat (length (history_ (node_at ns0 it.2))) <? k) = true ->
        exists a, (front undef it.2 (history_ (node_at ns0 it.2)), a) ∈ res.2).
Proof.
  induction its as [|it its IH]; intros acc Hn Hmin; simpl.
  - split; [done|]. split; [done|]. split; [auto|]. by intros ? ?%elem_of_nil.
  - assert (Hstep : less_k_step undef k acc it
             = (touch acc.1 it.2,
                if Z.of_nat (length (history_ (node_at ns0 it.2))) <? k
                then map_insert (front undef it.2 (history_ (node_at ns0 it.2))) it acc.2
                else acc.2)).
    { unfold less_k_step. rewrite node_at_touch, Hn. by destruct (_ <? k). }
    destruct (IH (less_k_step undef k acc it)) as (Hmin' & Hkeep & Hfrom & Hall).
    { intros g. rewrite Hstep. simpl. by rewrite node_at_touch. }
    { rewrite Hstep. simpl. destruct (_ <? k); [by apply map_insert_head_min|done]. }
    rewrite Hstep in Hmin', Hkeep, Hfrom, Hall |- *. simpl in Hkeep, Hfrom.
    split; [done|]. split; [|split].
    + intros e He. apply Hkeep. destruct (_ <? k); [by apply map_insert_keeps|done].
    + intros e He. apply Hfrom in He as [He|(? & ? & ?)].
      * destruct (_ <? k) eqn:Hk; [|auto].
        apply elem_of_map_insert in He as [->|He]; [|auto].
        right. simpl. split; [apply elem_of_cons; auto|done].
      * right. split; [apply elem_of_cons; auto|done].
    + intros it' [->|Hin]%elem_of_cons Hk; [|by apply Hall].
      destruct (map_insert_has (front undef it.2 (history_ (node_at ns0 it.2))) it acc.2)
        as [a Ha].
      exists a. apply Hkeep. by rewrite Hk.
Qed.

(** What [Evict] does when some evictable frame has fewer than [k]
    accesses: the victim is such a frame, and among such frames it is
    one whose [history_.front()], its latest access, is least. *)
Lemma Evict_fewer_than_k r f0 :
  f0 ∈ evictable_list_ r -> fewer_than_k r f0 = true ->
  exists r' f, Evict undef r = (r', Some f)
    /\ f ∈ evictable_list_ r
    /\ fewer_than_k r f = true
    /\ forall g, g ∈ evictable_list_ r -> fewer_than_k r g = true ->
         front undef f (history_ (node_at (node_store_ r) f))
         <= front undef g (history_ (node_at (node_store_ r) g)).
Proof.
  intros Hin0 Hk0. unfold Evict, fewer_than_k in *.
  assert (Hits : forall it, it ∈ iterators (evictable_list_ r) ->
            evictable_list_ r !! it.1 = Some it.2).
  { intros [i x] Hin. apply elem_of_lookup_imap in Hin as (i' & x' & [= -> ->] & Hl).
    exact Hl. }
  assert (Hits' : forall g, g ∈ evictable_list_ r ->
            exists i, (i, g) ∈ iterators (evictable_list_ r)).
  { intros g (i & Hi)%list_elem_of_lookup_1. exists i.
    by apply (elem_of_lookup_imap_2 pair). }
  destruct (Hits' f0 Hin0) as [i0 Hi0].
  destruct (iterators (evictable_list_ r)) as [|begin its] eqn:E;
    [by apply elem_of_nil in Hi0|].
  rewrite <- E in *.
  destruct (less_k_loop_min (k_ r) (node_store_ r) (iterators (evictable_list_ r))
              (node_store_ r, [])) as (Hmin & _ & Hfrom & Hall); [done|done|].
  destruct (foldl (less_k_step undef (k_ r)) _ _) as [ns less_k]. simpl in *.
  destruct (Hall (i0, f0) Hi0 Hk0) as [a0 Ha0].
  destruct less_k as [|[key it] rest]; [by apply elem_of_nil in Ha0|].
  destruct (Hfrom (key, it)) as [Hnil|(Hit & Hk & Hkey)];
    [apply elem_of_cons; auto|by apply elem_of_nil in Hnil|].
  simpl in *. eexists _, _. split; [reflexivity|].
  split; [eapply list_elem_of_lookup_2; by apply Hits|]. split; [done|].
  intros g Hg Hkg. destruct (Hits' g Hg) as [i Hi].
  destruct (Hall (i, g) Hi Hkg) as [a Ha]. rewrite <- Hkey.
  apply (Hmin _ Ha).
Qed.
End WithUndef.

Lemma NoDup_delete_lookup l i f :
  NoDup l -> l !! i = Some f ->
  NoDup (delete i l) /\ forall g, g ∈ delete i l <-> g ∈ l /\ g <> f.
Proof.
  intros Hnd Hl. split.
  - eapply sublist_NoDup; [done|apply sublist_delete].
  - intros g. rewrite delete_take_drop.
    pose proof (take_drop_middle l i f Hl) as Hsplit.
    set (l1 := take i l) in *. set (l2 := drop (S i) l) in *.
    rewrite <- Hsplit in Hnd |- *. clearbody l1 l2. clear Hsplit Hl.
    apply NoDup_app in Hnd as (_ & Hdisj & Hnd2).
    apply NoDup_cons in Hnd2 as [Hnf _].
    rewrite !elem_of_app, elem_of_cons. split.
    + intros [Hg|Hg].
      * split; [auto|]. intros ->. apply (Hdisj f Hg). apply elem_of_cons. auto.
      * split; [auto|]. intros ->. done.
    + intros [[Hg|[->|Hg]] Hne]; [auto|done|auto].
Qed.

Lemma Evict_consistent undef r r' f :
  consistent r -> Evict undef r = (r', Some f) ->
  f ∈ evictable_list_ r
  /\ consistent r'
  /\ (forall g, g ∈ evictable_list_ r' <-> g ∈ evictable_list_ r /\ g <> f)
  /\ replacer_size_ r' = replacer_size_ r
  /\ k_ r' = k_ r
  /\ current_timestamp_ r' = current_timestamp_ r
  /\ (forall g, node_at (node_store_ r') g
               = if decide (g = f) then default_node else node_at (node_store_ r) g).
Proof.
  intros Hc Hev. apply Evict_Some in Hev as (i & ns & Hl & Hn & ->).
  apply consistent_iff in Hc as [Hnd Hiff].
  destruct (NoDup_delete_lookup _ _ _ Hnd Hl) as [Hnd' Hmem].
  assert (Hnodes : forall g, node_at (delete f ns) g
               = if decide (g = f) then default_node else node_at (node_store_ r) g).
  { intros g. rewrite node_at_delete. destruct (decide (g = f)); [done|apply Hn]. }
  split; [by eapply list_elem_of_lookup_2|].
  split; [|by simpl].
  apply consistent_iff. simpl. split; [done|].
  intros g. rewrite Hmem, Hnodes. destruct (decide (g = f)) as [->|Hne].
  - simpl. split; [intros [_ ?]; done|done].
  - rewrite Hiff. tauto.
Qed.

Lemma SetEvictable_consistent f e r :
  to_size_t f < replacer_size_ r -> consistent r ->
  exists r', SetEvictable f e r = Ret r'
    /\ consistent r'
    /\ (forall g, g ∈ evictable_list_ r'
                 <-> if decide (g = f) then e = true else g ∈ evictable_list_ r)
    /\ replacer_size_ r' = replacer_size_ r
    /\ k_ r' = k_ r
    /\ current_timestamp_ r' = current_timestamp_ r
    /\ (forall g, history_ (node_at (node_store_ r') g)
                 = history_ (node_at (node_store_ r) g)).
Proof.
  intros Hsz Hc. apply consistent_iff in Hc as [Hnd Hiff].
  unfold SetEvictable. case_match eqn:Hle; [apply Z.leb_le in Hle; lia|].
  set (node := node_at (node_store_ r) f).
  assert (Hmem : forall l',
     (forall g, g ∈ l' <-> if decide (g = f) then e = true else g ∈ evictable_list_ r) ->
     NoDup l' ->
     forall n, consistent (mkLRUKReplacer
           (<[f := mkLRUKNode (history_ node) e]> (node_store_ r))
           l' (current_timestamp_ r) n (replacer_size_ r) (k_ r))).
  { intros l' Hl' Hnd' n. apply consistent_iff. simpl. split; [done|].
    intros g. rewrite Hl', node_at_insert. destruct (decide (g = f)); [done|apply Hiff]. }
  assert (Hhist : forall g, history_ (node_at (<[f := mkLRUKNode (history_ node) e]> (node_store_ r)) g)
                 = history_ (node_at (node_store_ r) g)).
  { intros g. rewrite node_at_insert. destruct (decide (g = f)) as [->|]; done. }
  destruct e; simpl.
  - destruct (is_evictable_ node) eqn:Hflag; simpl.
    + eexists; split; [reflexivity|]. simpl.
      assert (Hl' : forall g, g ∈ evictable_list_ r
                 <-> if decide (g = f) then true = true else g ∈ evictable_list_ r).
      { intros g. destruct (decide (g = f)) as [->|]; [|done].
        split; [done|]. intros _. by apply Hiff. }
      split; [by apply Hmem|]. done.
    + assert (Hnf : f ∉ evictable_list_ r).
      { intros Hin. apply Hiff in Hin. fold node in Hin. congruence. }
      eexists; split; [reflexivity|]. simpl.
      assert (Hl' : forall g, g ∈ evictable_list_ r ++ [f]
                 <-> if decide (g = f) then true = true else g ∈ evictable_list_ r).
      { intros g. rewrite elem_of_app, list_elem_of_singleton.
        destruct (decide (g = f)); tauto. }
      split; [|done]. apply Hmem; [done|].
      apply NoDup_app. split; [done|]. split; [|apply NoDup_singleton].
      intros x Hx ->%list_elem_of_singleton. done.
  - destruct (is_evictable_ node) eqn:Hflag; simpl.
    + eexists; split; [reflexivity|]. simpl.
      assert (Hl' : forall g, g ∈ filter (fun x => x <> f) (evictable_list_ r)
                 <-> if decide (g = f) then false = true else g ∈ evictable_list_ r).
      { intros g. rewrite list_elem_of_filter.
        destruct (decide (g = f)); [|tauto]. split; [tauto|done]. }
      split; [|done]. apply Hmem; [done|]. by apply NoDup_filter.
    + assert (Hnf : f ∉ evictable_list_ r).
      { intros Hin. apply Hiff in Hin. fold node in Hin. congruence. }
      eexists; split; [reflexivity|]. simpl.
      assert (Hl' : forall g, g ∈ evictable_list_ r
                 <-> if decide (g = f) then false = true else g ∈ evictable_list_ r).
      { intros g. destruct (decide (g = f)) as [->|]; [|done]. split; done. }
      split; [by apply Hmem|]. done.
Qed.
End ReplacerProperties.

(** ** Buffer pool manager *)

Section BufferPoolProperties.
Import Replacer BufferPool.
Implicit Types (b : BufferPoolManager) (f : Z) (pg : Page).

Lemma to_size_t_in_pool b f : wf b -> in_pool b f -> to_size_t f = f.
Proof.
  intros (_ & Hsz & _) [H0 H1]. unfold to_size_t. apply Z.mod_small. lia.
Qed.

Lemma update_page_fields f g b :
  pool_size_ (update_page f g b) = pool_size_ b
  /\ replacer_ (update_page f g b) = replacer_ b
  /\ disk_scheduler_ (update_page f g b) = disk_scheduler_ b
  /\ page_table_ (update_page f g b) = page_table_ b
  /\ free_list_ (update_page f g b) = free_list_ b
  /\ free_pages_ (update_page f g b) = free_pages_ b
  /\ next_page_id_ (update_page f g b) = next_page_id_ b
  /\ length (pages_ (update_page f g b)) = length (pages_ b).
Proof.
  unfold update_page. destruct (0 <=? f); simpl; repeat split; try reflexivity.
  apply length_alter.
Qed.

Lemma page_at_update_page f g b f' :
  0 <= f < Z.of_nat (length (pages_ b)) ->
  page_at (update_page f g b) f'
  = if decide (f' = f) then g (page_at b f) else page_at b f'.
Proof.
  intros [H0 H1]. unfold update_page, page_at.
  destruct (0 <=? f) eqn:E0; [|apply Z.leb_gt in E0; lia]. simpl.
  destruct (decide (f' = f)) as [->|Hne].
  - rewrite E0, list_lookup_alter_eq.
    destruct (lookup_lt_is_Some_2 (pages_ b) (Z.to_nat f)) as [pg Hpg]; [lia|].
    rewrite Hpg. reflexivity.
  - destruct (0 <=? f') eqn:E1; [|reflexivity].
    apply Z.leb_le in E1.
    rewrite list_lookup_alter_ne by lia. reflexivity.
Qed.

Lemma wf_update_page f g b :
  0 <= pin_count_ (g (page_at b f)) ->
  wf b -> wf (update_page f g b).
Proof.
  intros Hg (Hlen & Hsz & Hrs & Hfl & Hel & Hpt & Hpins & Hc).
  unfold wf, in_pool.
  destruct (update_page_fields f g b) as (-> & -> & _ & -> & -> & _ & _ & ->).
  split_and!; try done.
  unfold update_page, page_at in *. destruct (0 <=? f); [simpl|done].
  apply Forall_alter; [done|]. intros pg Hpg _. rewrite Hpg in Hg. exact Hg.
Qed.

Lemma page_at_pin_nonneg b f : wf b -> 0 <= pin_count_ (page_at b f).
Proof.
  intros (_ & _ & _ & _ & _ & _ & Hpins & _). unfold page_at.
  destruct (0 <=? f); [|simpl; lia].
  destruct (pages_ b !! Z.to_nat f) as [pg|] eqn:E; simpl; [|lia].
  rewrite Forall_forall in Hpins. apply Hpins. by eapply list_elem_of_lookup_2.
Qed.

Lemma in_pool_pages b f : wf b -> in_pool b f -> 0 <= f < Z.of_nat (length (pages_ b)).
Proof. intros (Hlen & _) Hf. rewrite Hlen. exact Hf. Qed.

(** [SetEvictable] on a frame of a well-formed pool returns, and only the
    replacer changes. *)
Lemma pool_SetEvictable_spec f e b :
  wf b -> in_pool b f ->
  exists b', pool_SetEvictable f e b = Ret b'
    /\ wf b'
    /\ b' = set_replacer (replacer_ b') b
    /\ (if e then evictable b' f else non_evictable b' f)
    /\ (forall g, g <> f ->
          (g ∈ evictable_list_ (replacer_ b') <-> g ∈ evictable_list_ (replacer_ b)))
    /\ current_timestamp_ (replacer_ b') = current_timestamp_ (replacer_ b).
Proof.
  intros Hwf Hf. pose proof (to_size_t_in_pool b f Hwf Hf) as Hts.
  destruct Hwf as (Hlen & Hsz & Hrs & Hfl & Hel & Hpt & Hpins & Hc).
  destruct (SetEvictable_consistent f e (replacer_ b)) as
    (r' & Hr' & Hc' & Hmem & Hrs' & Hk' & Hts' & Hh'); [|done|].
  { rewrite Hts, Hrs. apply Hf. }
  unfold pool_SetEvictable. rewrite Hr'. simpl.
  eexists; split; [reflexivity|].
  split; [|split; [reflexivity|]].
  - unfold wf, in_pool. simpl. split_and!; try done; [congruence|].
    rewrite Forall_forall in Hel |- *. intros g Hg. apply Hmem in Hg.
    destruct (decide (g = f)) as [->|]; [apply Hf|by apply Hel].
  - simpl. split; [|split; [|done]].
    + pose proof (Hmem f) as Hmf. destruct (decide (f = f)); [|done].
      apply consistent_iff in Hc' as [_ Hiff].
      destruct e; unfold evictable, non_evictable; simpl.
      * split; [by apply Hmf|]. apply Hiff. by apply Hmf.
      * assert (Hnf : f ∉ evictable_list_ r') by (intros Hin; apply Hmf in Hin; done).
        split; [done|]. destruct (is_evictable_ _) eqn:E; [|done].
        apply Hiff in E. done.
    + intros g Hne. rewrite Hmem. destruct (decide (g = f)); done.
Qed.

Lemma UnpinPage_core b page_id is_dirty :
  wf b ->
  exists b' ok, UnpinPage page_id is_dirty b = Ret (b', ok)
    /\ wf b'
    /\ (ok = false <->
          page_table_ b !! page_id = None
          \/ exists f, page_table_ b !! page_id = Some f
                       /\ pin_count_ (page_at b f) = 0)
    /\ (ok = false -> b' = b)
    /\ (ok = true ->
          exists f, page_table_ b !! page_id = Some f
            /\ pin_count_ (page_at b' f) = pin_count_ (page_at b f) - 1
            /\ is_dirty_ (page_at b' f) = is_dirty_ (page_at b f) || is_dirty
            /\ (pin_count_ (page_at b' f) = 0 -> evictable b' f)
            /\ page_table_ b' = page_table_ b).
Proof.
  intros Hwf. unfold UnpinPage.
  destruct (page_table_ b !! page_id) as [f|] eqn:Hpt.
  2:{ exists b, false. split_and!; [reflexivity|done|split; auto|auto|intros [=]]. }
  assert (Hf : in_pool b f).
  { destruct Hwf as (_ & _ & _ & _ & _ & Hm & _). by apply (Hm page_id f). }
  pose proof (page_at_pin_nonneg b f Hwf) as Hpin.
  pose proof (in_pool_pages b f Hwf Hf) as Hrange.
  destruct (pin_count_ (page_at b f) <=? 0) eqn:Hle.
  { apply Z.leb_le in Hle. exists b, false.
    split_and!; [reflexivity|done|split; [|done]|auto|intros [=]].
    intros _. right. exists f. split; [done|lia]. }
  apply Z.leb_gt in Hle.
  set (b1 := update_page f (fun pg => set_pin_count (pin_count_ pg - 1) pg) b).
  set (b2 := if is_dirty then update_page f (set_is_dirty true) b1 else b1).
  assert (Hp1 : page_at b1 f = set_pin_count (pin_count_ (page_at b f) - 1) (page_at b f)).
  { unfold b1. rewrite page_at_update_page by done. by rewrite decide_True. }
  assert (Hwf1 : wf b1).
  { apply wf_update_page; [simpl; lia|done]. }
  assert (Hf1 : in_pool b1 f).
  { unfold in_pool, b1. by destruct (update_page_fields f
      (fun pg => set_pin_count (pin_count_ pg - 1) pg) b) as (-> & _). }
  assert (Hpt1 : page_table_ b1 = page_table_ b).
  { unfold b1. by destruct (update_page_fields f
      (fun pg => set_pin_count (pin_count_ pg - 1) pg) b) as (_ & _ & _ & -> & _). }
  assert (H2 : wf b2 /\ in_pool b2 f /\ page_table_ b2 = page_table_ b
               /\ page_at b2 f
                  = mkPage (data_ (page_at b f)) (page_id_ (page_at b f))
                      (pin_count_ (page_at b f) - 1)
                      (is_dirty_ (page_at b f) || is_dirty)).
  { unfold b2. destruct is_dirty.
    - destruct (update_page_fields f (set_is_dirty true) b1)
        as (Hps & _ & _ & Hpt' & _).
      split_and!.
      + apply wf_update_page; [|done]. simpl. rewrite Hp1. simpl. lia.
      + unfold in_pool. rewrite Hps. apply Hf1.
      + congruence.
      + rewrite page_at_update_page by (by apply in_pool_pages).
        rewrite decide_True by done. rewrite Hp1. simpl.
        by rewrite orb_true_r.
    - split_and!; try done. rewrite Hp1. simpl. by rewrite orb_false_r. }
  destruct H2 as (Hwf2 & Hf2 & Hpt2 & Hp2).
  fold b1. fold b2. rewrite Hp2. simpl.
  destruct (pin_count_ (page_at b f) - 1 =? 0) eqn:Hz.
  - destruct (pool_SetEvictable_spec f true b2 Hwf2 Hf2)
      as (b' & Hb' & Hwf' & Heq & Hev & _).
    rewrite Hb'. simpl. exists b', true.
    assert (Hpg : page_at b' f = page_at b2 f).
    { rewrite Heq. reflexivity. }
    split; [reflexivity|]. split; [done|]. split; [|split; [intros [=]|]].
    + split; [intros [=]|]. intros [Hn|(f' & [= <-] & Hz')]; [congruence|lia].
    + intros _. exists f. rewrite Hpg, Hp2. simpl.
      split_and!; try done. rewrite Heq. simpl. exact Hpt2.
  - simpl. exists b2, true.
    split; [reflexivity|]. split; [done|]. split; [|split; [intros [=]|]].
    + split; [intros [=]|]. intros [Hn|(f' & [= <-] & Hz')]; [congruence|lia].
    + intros _. exists f. rewrite Hp2. simpl. apply Z.eqb_neq in Hz.
      split_and!; try done.
Qed.
(** C4: on a well-formed pool [UnpinPage] returns [false] exactly when
    the page is not in the page table or the pin count of its frame is
    zero, and then changes nothing; otherwise it returns [true], the pin
    count of the frame is one less, its dirty flag is the old flag or'ed
    with [is_dirty], the frame is marked evictable if the pin count has
    reached zero, and the page stays where it was in the page table. *)
Theorem UnpinPage_spec b page_id is_dirty :
  wf b ->
  exists b' ok, UnpinPage page_id is_dirty b = Ret (b', ok)
    /\ (ok = false <->
          page_table_ b !! page_id = None
          \/ exists f, page_table_ b !! page_id = Some f
                       /\ pin_count_ (page_at b f) = 0)
    /\ (ok = false -> b' = b)
    /\ (ok = true ->
          exists f, page_table_ b !! page_id = Some f
            /\ pin_count_ (page_at b' f) = pin_count_ (page_at b f) - 1
            /\ is_dirty_ (page_at b' f) = is_dirty_ (page_at b f) || is_dirty
            /\ (pin_count_ (page_at b' f) = 0 -> evictable b' f)
            /\ page_table_ b' = page_table_ b).
Proof.
  intros Hwf.
  destruct (UnpinPage_core b page_id is_dirty Hwf) as (b' & ok & Hu & _ & Hrest).
  exists b', ok. split; [exact Hu|exact Hrest].
Qed.

Lemma wf_UnpinPage b page_id is_dirty :
  wf b -> exists b' ok, UnpinPage page_id is_dirty b = Ret (b', ok) /\ wf b'.
Proof.
  intros Hwf.
  destruct (UnpinPage_core b page_id is_dirty Hwf) as (b' & ok & Hu & Hwf' & _).
  eauto.
Qed.

Lemma wf_same b b' :
  wf b -> pool_size_ b' = pool_size_ b -> pages_ b' = pages_ b ->
  replacer_ b' = replacer_ b -> free_list_ b' ⊆ free_list_ b ->
  map_Forall (fun _ f => in_pool b f) (page_table_ b') -> wf b'.
Proof.
  intros (Hlen & Hsz & Hrs & Hfl & Hel & Hpt & Hpins & Hc) Hps Hpg Hr Hsub Hpt'.
  unfold wf, in_pool in *. rewrite Hps, Hpg, Hr. split_and!; try done.
  rewrite Forall_forall in Hfl |- *. intros x Hx. apply Hfl, Hsub, Hx.
Qed.

Lemma wf_page_table b : wf b -> map_Forall (fun _ f => in_pool b f) (page_table_ b).
Proof. intros (_ & _ & _ & _ & _ & Hpt & _). exact Hpt. Qed.

Lemma update_page_step f g b :
  wf b -> in_pool b f -> 0 <= pin_count_ (g (page_at b f)) ->
  wf (update_page f g b)
  /\ in_pool (update_page f g b) f
  /\ page_at (update_page f g b) f = g (page_at b f).
Proof.
  intros Hwf Hf Hg. split_and!.
  - by apply wf_update_page.
  - unfold in_pool. by destruct (update_page_fields f g b) as (-> & _).
  - rewrite page_at_update_page by (by apply in_pool_pages). by rewrite decide_True.
Qed.

Lemma AllocatePage_fields b :
  pool_size_ (AllocatePage b).1 = pool_size_ b
  /\ pages_ (AllocatePage b).1 = pages_ b
  /\ replacer_ (AllocatePage b).1 = replacer_ b
  /\ disk_scheduler_ (AllocatePage b).1 = disk_scheduler_ b
  /\ page_table_ (AllocatePage b).1 = page_table_ b
  /\ free_list_ (AllocatePage b).1 = free_list_ b.
Proof. unfold AllocatePage. destruct (free_pages_ b); simpl; done. Qed.

(** The tail of [NewPage] on a frame of a well-formed pool. *)
Lemma NewPage_install_core f b :
  wf b -> in_pool b f ->
  exists res, NewPage_install f b = Ret res
    /\ wf (np_pool res)
    /\ np_page_id res = Some (AllocatePage b).2
    /\ current_timestamp_ (replacer_ (np_pool res)) = current_timestamp_ (replacer_ b)
    /\ (if pool_size_ b <=? to_size_t (AllocatePage b).2
        then np_page res = None
        else np_page res = Some f
             /\ page_id_ (page_at (np_pool res) f) = (AllocatePage b).2
             /\ pin_count_ (page_at (np_pool res) f) = 1
             /\ is_dirty_ (page_at (np_pool res) f) = false
             /\ non_evictable (np_pool res) f
             /\ page_table_ (np_pool res) !! (AllocatePage b).2 = Some f).
Proof.
  intros Hwf Hf. unfold NewPage_install.
  destruct (AllocatePage_fields b) as (Hps & Hpg & Hr & Hds & Hpt & Hfl).
  destruct (AllocatePage b) as [b1 pid]. simpl in *.
  assert (Hwf1 : wf b1).
  { apply (wf_same b); try done; [by rewrite Hfl|]. rewrite Hpt. by apply wf_page_table. }
  rewrite Hps.
  destruct (pool_size_ b <=? to_size_t pid) eqn:Hguard.
  { eexists; split; [reflexivity|]. simpl.
    split; [done|]. split; [done|]. split; [by rewrite Hr|done]. }
  set (b2 := match page_table_ b1 !! pid with
             | Some _ => schedule false f pid b1
             | None => b1
             end).
  assert (Hwf2 : wf b2 /\ in_pool b2 f /\ replacer_ b2 = replacer_ b1
                 /\ page_table_ b2 = page_table_ b1).
  { assert (Hf1 : in_pool b1 f) by (unfold in_pool; rewrite Hps; apply Hf).
    unfold b2. destruct (page_table_ b1 !! pid); simpl; [|done].
    split; [|done].
    apply (wf_same b1); try done. exact (wf_page_table b1 Hwf1). }
  clearbody b2. destruct Hwf2 as (Hwf2 & Hf2 & Hr2 & Hpt2).
  destruct (update_page_step f (set_page_id pid) b2 Hwf2 Hf2) as (Hwf3 & Hf3 & Hp3).
  { simpl. by apply page_at_pin_nonneg. }
  destruct (update_page_fields f (set_page_id pid) b2)
    as (_ & Hr3 & _ & Hpt3 & _).
  set (b3 := update_page f (set_page_id pid) b2) in *. clearbody b3.
  destruct (update_page_step f (set_pin_count 1) b3 Hwf3 Hf3) as (Hwf4 & Hf4 & Hp4).
  { simpl. lia. }
  destruct (update_page_fields f (set_pin_count 1) b3)
    as (_ & Hr4 & _ & Hpt4 & _).
  set (b4 := update_page f (set_pin_count 1) b3) in *. clearbody b4.
  destruct (update_page_step f (set_is_dirty false) b4 Hwf4 Hf4) as (Hwf5 & Hf5 & Hp5).
  { simpl. rewrite Hp4. simpl. lia. }
  destruct (update_page_fields f (set_is_dirty false) b4)
    as (_ & Hr5 & _ & Hpt5 & _).
  set (b5 := update_page f (set_is_dirty false) b4) in *. clearbody b5.
  destruct (pool_SetEvictable_spec f false b5 Hwf5 Hf5)
    as (b6 & Hb6 & Hwf6 & Heq6 & Hne6 & _ & Hts6).
  rewrite Hb6. cbn [bind]. eexists; split; [reflexivity|].
  cbn [np_pool np_page np_page_id].
  assert (Hf6 : in_pool b6 f) by (rewrite Heq6; exact Hf5).
  assert (Hp6 : page_at b6 f = page_at b5 f) by (rewrite Heq6; reflexivity).
  assert (Hpage : forall g, page_at (set_page_table g b6) f = page_at b6 f) by done.
  split; [|split; [|split; [|split_and!]]].
  - apply (wf_same b6); try done.
    apply map_Forall_insert_2; [exact Hf6|exact (wf_page_table b6 Hwf6)].
  - reflexivity.
  - change (current_timestamp_ (replacer_ b6) = current_timestamp_ (replacer_ b)).
    rewrite Hts6, Hr5, Hr4, Hr3, Hr2, Hr. reflexivity.
  - reflexivity.
  - rewrite Hpage, Hp6, Hp5, Hp4, Hp3. reflexivity.
  - rewrite Hpage, Hp6, Hp5, Hp4, Hp3. reflexivity.
  - rewrite Hpage, Hp6, Hp5, Hp4, Hp3. reflexivity.
  - exact Hne6.
  - apply lookup_insert_eq.
Qed.

Lemma set_replacer_id b : set_replacer (replacer_ b) b = b.
Proof. by destruct b. Qed.

(** The frame a successful [Evict] hands to the pool. *)
Lemma wf_Evict undef b r f :
  wf b -> Evict undef (replacer_ b) = (r, Some f) ->
  wf (set_replacer r b) /\ in_pool b f /\ f ∈ evictable_list_ (replacer_ b)
  /\ current_timestamp_ r = current_timestamp_ (replacer_ b)
  /\ (f ∉ evictable_list_ r).
Proof.
  intros Hwf Hev.
  pose proof Hwf as (Hlen & Hsz & Hrs & Hfl & Hel & Hpt & Hpins & Hc).
  destruct (Evict_consistent undef _ _ _ Hc Hev)
    as (Hin & Hc' & Hmem & Hrs' & Hk' & Hts' & Hn').
  rewrite Forall_forall in Hel.
  split; [|split; [by apply Hel|split; [done|split; [done|]]]].
  - unfold wf, in_pool. simpl. split_and!; try done; [congruence|].
    rewrite Forall_forall. intros g Hg. apply Hmem in Hg as [Hg _]. by apply Hel.
  - intros Hf. apply Hmem in Hf as [_ Hf]. done.
Qed.

Lemma NewPage_install_outcome f b0 b :
  wf b0 -> in_pool b0 f -> pool_size_ b0 = pool_size_ b ->
  all_pined b = false ->
  ~ (free_list_ b = [] /\ evictable_list_ (replacer_ b) = []) ->
  exists res, NewPage_install f b0 = Ret res
    /\ wf (np_pool res)
    /\ current_timestamp_ (replacer_ (np_pool res)) = current_timestamp_ (replacer_ b0)
    /\ NewPage_outcome b res.
Proof.
  intros Hwf Hf Hps Hap Hne.
  destruct (NewPage_install_core f b0 Hwf Hf) as (res & Hres & Hwf' & Hid & Hts & Hif).
  exists res. split; [done|]. split; [done|]. split; [done|].
  rewrite Hps in Hif. unfold NewPage_outcome.
  destruct (pool_size_ b <=? to_size_t (AllocatePage b0).2) eqn:Hg.
  - apply Z.leb_le in Hg. split; [|split].
    + split; [|done]. intros _. right. right. eauto.
    + intros [Ht|Ht]; [congruence|done].
    + intros f' Hf'. congruence.
  - apply Z.leb_gt in Hg. destruct Hif as (Hpg & Hrest). split; [|split].
    + split; [congruence|]. intros [Ht|[Ht|(pid & Hpid & Hle)]]; [congruence|done|].
      rewrite Hid in Hpid. injection Hpid as <-. lia.
    + intros [Ht|Ht]; [congruence|done].
    + intros f' Hf'. rewrite Hpg in Hf'. injection Hf' as <-.
      exists (AllocatePage b0).2. split; [done|]. split; [done|].
      split; [|done]. unfold in_pool in *. by rewrite <- Hps.
Qed.

Lemma NewPage_core undef b :
  wf b ->
  exists res, NewPage undef b = Ret res
    /\ wf (np_pool res)
    /\ current_timestamp_ (replacer_ (np_pool res)) = current_timestamp_ (replacer_ b)
    /\ NewPage_outcome b res.
Proof.
  intros Hwf. unfold NewPage.
  destruct (all_pined b) eqn:Hap.
  { eexists; split; [reflexivity|]. simpl. split; [done|]. split; [done|].
    unfold NewPage_outcome; simpl. split; [|split]; [|done|intros ? [=]].
    split; auto. }
  destruct (free_list_ b) as [|f rest] eqn:Hfl.
  - destruct (Evict undef (replacer_ b)) as [r [f|]] eqn:Hev.
    + destruct (wf_Evict undef b r f Hwf Hev) as (Hwf1 & Hf & Hin & Hts & _).
      set (b1 := set_replacer r b) in *.
      set (b2 := if is_dirty_ (page_at b1 f)
                 then update_page f (set_is_dirty false)
                        (schedule true f (page_id_ (page_at b1 f)) b1)
                 else b1).
      assert (H2 : wf b2 /\ replacer_ b2 = r /\ pool_size_ b2 = pool_size_ b).
      { unfold b2. destruct (is_dirty_ (page_at b1 f)); [|done].
        set (b1' := schedule true f (page_id_ (page_at b1 f)) b1).
        assert (Hwf1' : wf b1').
        { apply (wf_same b1); try done. exact (wf_page_table b1 Hwf1). }
        destruct (update_page_fields f (set_is_dirty false) b1')
          as (Hps & Hr & _).
        split; [|split; [exact Hr|exact Hps]].
        apply wf_update_page; [|done]. simpl. by apply page_at_pin_nonneg. }
      destruct H2 as (Hwf2 & Hr2 & Hps2). clearbody b2.
      set (b3 := set_free_pages _ b2).
      assert (Hwf3 : wf b3).
      { apply (wf_same b2); try done. exact (wf_page_table b2 Hwf2). }
      destruct (NewPage_install_outcome f b3 b) as (res & Hres & Hwf' & Hts' & Hout);
        try done.
      { unfold in_pool. simpl. rewrite Hps2. apply Hf. }
      { rewrite Hfl. intros [_ Hnil]. rewrite Hnil in Hin. by apply elem_of_nil in Hin. }
      exists res. split; [done|]. split; [done|]. split; [|done].
      rewrite Hts'. simpl. rewrite Hr2. exact Hts.
    + apply Evict_None in Hev as [-> Hnil].
      eexists; split; [reflexivity|]. simpl. rewrite set_replacer_id.
      split; [done|]. split; [done|].
      unfold NewPage_outcome; simpl. split; [|split]; [|done|intros ? [=]].
      split; auto.
  - assert (Hf : in_pool b f).
    { destruct Hwf as (_ & _ & _ & Hfree & _). rewrite Hfl in Hfree.
      by apply Forall_cons in Hfree as [? _]. }
    destruct (NewPage_install_outcome f (set_free_list rest b) b)
      as (res & Hres & Hwf' & Hts' & Hout); try done.
    { apply (wf_same b); try done; [|exact (wf_page_table b Hwf)].
      simpl. rewrite Hfl. set_solver. }
    { rewrite Hfl. intros [[=] _]. }
    exists res. split; [done|]. split; [done|]. split; [done|done].
Qed.

(** The tail of [FetchPage] on a frame of a well-formed pool. *)
Lemma FetchPage_install_core page_id f b :
  wf b -> in_pool b f ->
  exists b', FetchPage_install page_id f b = Ret (b', Some f)
    /\ wf b'
    /\ current_timestamp_ (replacer_ b') = current_timestamp_ (replacer_ b)
    /\ page_at b' f = mkPage (data_ (page_at b f)) page_id
                        (pin_count_ (page_at b f) + 1) false
    /\ non_evictable b' f
    /\ page_table_ b' = page_table_ b.
Proof.
  intros Hwf Hf. unfold FetchPage_install.
  pose proof (page_at_pin_nonneg b f Hwf) as Hpin.
  set (b1 := schedule false f page_id b).
  assert (Hwf1 : wf b1).
  { apply (wf_same b); try done. exact (wf_page_table b Hwf). }
  assert (Hf1 : in_pool b1 f) by exact Hf.
  assert (Hp1 : page_at b1 f = page_at b f) by reflexivity.
  assert (Hr1 : replacer_ b1 = replacer_ b) by reflexivity.
  assert (Hpt1 : page_table_ b1 = page_table_ b) by reflexivity.
  clearbody b1.
  destruct (update_page_step f (set_page_id page_id) b1 Hwf1 Hf1) as (Hwf2 & Hf2 & Hp2).
  { simpl. rewrite Hp1. exact Hpin. }
  destruct (update_page_fields f (set_page_id page_id) b1)
    as (_ & Hr2 & _ & Hpt2 & _).
  set (b2 := update_page f (set_page_id page_id) b1) in *. clearbody b2.
  destruct (update_page_step f (fun pg => set_pin_count (pin_count_ pg + 1) pg) b2 Hwf2 Hf2)
    as (Hwf3 & Hf3 & Hp3).
  { simpl. rewrite Hp2, Hp1. simpl. lia. }
  destruct (update_page_fields f (fun pg => set_pin_count (pin_count_ pg + 1) pg) b2)
    as (_ & Hr3 & _ & Hpt3 & _).
  set (b3 := update_page f (fun pg => set_pin_count (pin_count_ pg + 1) pg) b2) in *.
  clearbody b3.
  destruct (update_page_step f (set_is_dirty false) b3 Hwf3 Hf3) as (Hwf4 & Hf4 & Hp4).
  { simpl. rewrite Hp3, Hp2, Hp1. simpl. lia. }
  destruct (update_page_fields f (set_is_dirty false) b3)
    as (_ & Hr4 & _ & Hpt4 & _).
  set (b4 := update_page f (set_is_dirty false) b3) in *. clearbody b4.
  destruct (pool_SetEvictable_spec f false b4 Hwf4 Hf4)
    as (b5 & Hb5 & Hwf5 & Heq5 & Hne5 & _ & Hts5).
  rewrite Hb5. cbn [bind]. exists b5. split; [reflexivity|].
  assert (Hp5 : page_at b5 f = page_at b4 f) by (rewrite Heq5; reflexivity).
  assert (Hpt5 : page_table_ b5 = page_table_ b4) by (rewrite Heq5; reflexivity).
  split; [done|]. split; [|split; [|split; [done|]]].
  - rewrite Hts5, Hr4, Hr3, Hr2, Hr1. reflexivity.
  - rewrite Hp5, Hp4, Hp3, Hp2, Hp1. reflexivity.
  - rewrite Hpt5, Hpt4, Hpt3, Hpt2, Hpt1. reflexivity.
Qed.

Lemma FetchPage_core undef page_id b :
  wf b ->
  exists b' ret, FetchPage undef page_id b = Ret (b', ret)
    /\ wf b'
    /\ current_timestamp_ (replacer_ b') = current_timestamp_ (replacer_ b)
    /\ (forall f, ret = Some f ->
          in_pool b f
          /\ pin_count_ (page_at b' f) = pin_count_ (page_at b f) + 1
          /\ non_evictable b' f
          /\ (forall f', page_table_ b !! page_id = Some f' ->
                f' = f /\ page_table_ b' !! page_id = Some f)
          /\ (page_table_ b !! page_id = None ->
                page_id_ (page_at b' f) = page_id
                /\ is_dirty_ (page_at b' f) = false)).
Proof.
  intros Hwf. unfold FetchPage.
  destruct (all_pined b) eqn:Hap.
  { exists b, None. split; [done|]. split; [done|]. split; [done|]. intros ? [=]. }
  destruct (page_table_ b !! page_id) as [f|] eqn:Hpt.
  { assert (Hf : in_pool b f) by exact (wf_page_table b Hwf page_id f Hpt).
    pose proof (page_at_pin_nonneg b f Hwf) as Hpin.
    destruct (update_page_step f (fun pg => set_pin_count (pin_count_ pg + 1) pg) b Hwf Hf)
      as (Hwf1 & Hf1 & Hp1).
    { simpl. lia. }
    destruct (update_page_fields f (fun pg => set_pin_count (pin_count_ pg + 1) pg) b)
      as (_ & Hr1 & _ & Hpt1 & _).
    set (b1 := update_page f (fun pg => set_pin_count (pin_count_ pg + 1) pg) b) in *.
    clearbody b1.
    destruct (pool_SetEvictable_spec f false b1 Hwf1 Hf1)
      as (b2 & Hb2 & Hwf2 & Heq2 & Hne2 & _ & Hts2).
    rewrite Hb2. cbn [bind]. exists b2, (Some f). split; [reflexivity|].
    split; [done|]. split; [by rewrite Hts2, Hr1|].
    intros f' [= <-]. split; [done|]. split; [|split; [done|split; [|done]]].
    - rewrite Heq2. change (page_at (set_replacer _ b1) f) with (page_at b1 f).
      rewrite Hp1. reflexivity.
    - intros f' [= <-]. split; [done|]. rewrite Heq2. simpl. by rewrite Hpt1. }
  assert (Hmiss : forall b0 f, wf b0 -> in_pool b0 f ->
            pool_size_ b0 = pool_size_ b ->
            current_timestamp_ (replacer_ b0) = current_timestamp_ (replacer_ b) ->
            pin_count_ (page_at b0 f) = pin_count_ (page_at b f) ->
            exists b' ret, FetchPage_install page_id f b0 = Ret (b', ret)
              /\ wf b'
              /\ current_timestamp_ (replacer_ b') = current_timestamp_ (replacer_ b)
              /\ (forall f0, ret = Some f0 ->
                    in_pool b f0
                    /\ pin_count_ (page_at b' f0) = pin_count_ (page_at b f0) + 1
                    /\ non_evictable b' f0
                    /\ (forall f', @None Z = Some f' ->
                          f' = f0 /\ page_table_ b' !! page_id = Some f0)
                    /\ (@None Z = None ->
                          page_id_ (page_at b' f0) = page_id
                          /\ is_dirty_ (page_at b' f0) = false))).
  { intros b0 f Hwf0 Hf0 Hps0 Hts0 Hpin0.
    destruct (FetchPage_install_core page_id f b0 Hwf0 Hf0)
      as (b' & Hb' & Hwf' & Hts' & Hp' & Hne' & _).
    exists b', (Some f). split; [done|]. split; [done|]. split; [congruence|].
    intros f0 [= <-]. split; [unfold in_pool in *; by rewrite <- Hps0|].
    split; [by rewrite Hp', <- Hpin0|]. split; [done|]. split; [intros ? [=]|].
    intros _. by rewrite Hp'. }
  destruct (free_list_ b) as [|f rest] eqn:Hfl.
  - destruct (Evict undef (replacer_ b)) as [r [f|]] eqn:Hev.
    + destruct (wf_Evict undef b r f Hwf Hev) as (Hwf1 & Hf & Hin & Hts & _).
      set (b1 := set_replacer r b) in *.
      set (b2 := if is_dirty_ (page_at b1 f)
                 then update_page f (set_is_dirty false) b1 else b1).
      assert (H2 : wf b2 /\ replacer_ b2 = r /\ pool_size_ b2 = pool_size_ b
                   /\ pin_count_ (page_at b2 f) = pin_count_ (page_at b f)).
      { unfold b2. destruct (is_dirty_ (page_at b1 f)); [|done].
        destruct (update_page_fields f (set_is_dirty false) b1) as (Hps & Hr & _).
        destruct (update_page_step f (set_is_dirty false) b1 Hwf1 Hf) as (Hw & _ & Hp).
        { simpl. by apply page_at_pin_nonneg. }
        split; [done|]. split; [done|]. split; [done|]. by rewrite Hp. }
      destruct H2 as (Hwf2 & Hr2 & Hps2 & Hpin2). clearbody b2.
      apply Hmiss; try done.
      * unfold in_pool. rewrite Hps2. apply Hf.
      * by rewrite Hr2.
    + apply Evict_None in Hev as [-> Hnil].
      eexists _, None. split; [reflexivity|]. rewrite set_replacer_id.
      split; [done|]. split; [done|]. intros ? [=].
  - assert (Hf : in_pool b f).
    { destruct Hwf as (_ & _ & _ & Hfree & _). rewrite Hfl in Hfree.
      by apply Forall_cons in Hfree as [? _]. }
    apply Hmiss; try done.
    apply (wf_same b); try done; [|exact (wf_page_table b Hwf)].
    simpl. rewrite Hfl. set_solver.
Qed.

(** [FlushPage] keeps a pool well-formed. *)
Lemma wf_FlushPage page_id b : wf b -> wf (FlushPage page_id b).1.
Proof.
  intros Hwf. unfold FlushPage.
  destruct (page_table_ b !! page_id) as [f|] eqn:Hpt; [|done]. simpl.
  assert (Hf : in_pool b f) by exact (wf_page_table b Hwf page_id f Hpt).
  destruct (is_dirty_ (page_at b f)).
  - destruct (update_page_step f (set_is_dirty false) b Hwf Hf) as (Hw & _ & _).
    { simpl. by apply page_at_pin_nonneg. }
    apply (wf_same (update_page f (set_is_dirty false) b)); try done.
    exact (wf_page_table _ Hw).
  - apply (wf_same b); try done. exact (wf_page_table b Hwf).
Qed.

(** A fresh pool is well-formed. *)
Lemma wf_init PAGE_SIZE pool_size k :
  Z.of_nat pool_size < 2 ^ 31 -> wf (init PAGE_SIZE pool_size k).
Proof.
  intros Hsz. unfold wf, init, in_pool; simpl. split_and!.
  - by rewrite length_replicate.
  - done.
  - done.
  - apply Forall_forall. intros f Hf. apply elem_of_seqZ in Hf. lia.
  - constructor.
  - apply map_Forall_empty.
  - apply Forall_replicate. simpl. lia.
  - unfold consistent; simpl. split_and!; [constructor|constructor|apply map_Forall_empty].
Qed.

(** Every call returns on a well-formed pool and leaves it well-formed. *)
Lemma wf_step undef b c : wf b -> exists b', step undef b c = Ret b' /\ wf b'.
Proof.
  intros Hwf. destruct c as [|page_id|page_id is_dirty|page_id]; simpl.
  - destruct (NewPage_core undef b Hwf) as (res & -> & Hwf' & _). simpl. eauto.
  - destruct (FetchPage_core undef page_id b Hwf) as (b' & ret & -> & Hwf' & _).
    simpl. eauto.
  - destruct (UnpinPage_core b page_id is_dirty Hwf) as (b' & ok & -> & Hwf' & _).
    simpl. eauto.
  - eexists; split; [reflexivity|]. by apply wf_FlushPage.
Qed.

Lemma wf_run undef cs : forall b,
  wf b -> exists b', run undef b cs = Ret b' /\ wf b'.
Proof.
  unfold run. induction cs as [|c cs IH]; intros b Hwf; simpl; [eauto|].
  destruct (wf_step undef b c Hwf) as (b1 & -> & Hwf1). by apply IH.
Qed.

(** Every pool a script of calls builds from a fresh pool is well-formed. *)
Lemma wf_pool_after undef pool_size cs :
  Z.of_nat pool_size < 2 ^ 31 -> wf (pool_after undef pool_size cs).
Proof.
  intros Hsz. unfold pool_after.
  destruct (wf_run undef cs (init PAGE_SIZE pool_size 2)) as (b & -> & Hwf);
    [by apply wf_init|done].
Qed.
End BufferPoolProperties.

(** ** Concrete runs *)

Section Runs.
Import Replacer BufferPool.

(** C1: with [k = 3], frame 0 accessed at times 0 and 2 and frame 1 at
    time 1, both evictable and both with fewer than [k] accesses, the
    earliest access is that of frame 0, and [Evict] returns frame 1: the
    key of [less_k_frames] is [history_.front()], the latest access. *)
Theorem Evict_fewer_than_k_by_latest (undef : Z -> Z) :
  exists r, two_young_frames = Ret r
    /\ evictable_list_ r = [0; 1]
    /\ fewer_than_k r 0 = true
    /\ fewer_than_k r 1 = true
    /\ earliest (history_ (node_at (node_store_ r) 0)) = Some 0
    /\ earliest (history_ (node_at (node_store_ r) 1)) = Some 1
    /\ (Evict undef r).2 = Some 1.
Proof.
  eexists. split; [vm_compute; reflexivity|]. vm_compute. by split_and!.
Qed.


(** The same eviction in [NewPage]: with frame 0 holding page 0 dirty
    and page id 1 waiting in [free_pages_], [NewPage] schedules the write
    of page 0, hands frame 0 to page 1, and page 0 stays in the page
    table. *)
Lemma NewPage_evicts_dirty_keeps_entry (undef : Z -> Z) :
  let b := pool_after undef 2
             [CNewPage; CNewPage; CFlushPage 1; CUnpinPage 0 true] in
  exists res, NewPage undef b = Ret res
    /\ np_page res = Some 0
    /\ np_page_id res = Some 1
    /\ Disk.request_queue_ (disk_scheduler_ (np_pool res))
       = Disk.request_queue_ (disk_scheduler_ b)
         ++ [Disk.mkDiskRequest true 0 0; Disk.mkDiskRequest false 0 1]
    /\ page_table_ (np_pool res) !! 0 = Some 0
    /\ page_table_ (np_pool res) !! 1 = Some 0.
Proof.
  eexists. split; [vm_compute; reflexivity|].
  split_and!; vm_compute; reflexivity.
Qed.

(** C3: [FetchPage(5)] on a fresh pool of one frame, a miss.  The call
    returns frame 0, which holds page 5, is pinned once and is marked
    non-evictable; but page 5 is not in the page table, and no access is
    recorded: the history of frame 0 in the replacer is empty and the
    timestamp of the replacer has not moved. *)
Theorem FetchPage_miss_no_entry_no_access (undef : Z -> Z) :
  let b := init PAGE_SIZE 1 2 in
  exists b', Latch.FetchPage undef false 5 b = Latch.Returns (Ret (b', Some 0))
    /\ page_id_ (page_at b' 0) = 5
    /\ pin_count_ (page_at b' 0) = 1
    /\ non_evictable b' 0
    /\ page_table_ b' !! 5 = None
    /\ ~ recorded_since (replacer_ b) (replacer_ b') 0
    /\ history_ (node_at (node_store_ (replacer_ b')) 0) = []
    /\ current_timestamp_ (replacer_ b') = current_timestamp_ (replacer_ b).
Proof.
  eexists. split; [vm_compute; reflexivity|].
  split; [vm_compute; reflexivity|]. split; [vm_compute; reflexivity|].
  split; [split; [intros Hin; vm_compute in Hin; inversion Hin|vm_compute; reflexivity]|].
  split; [vm_compute; reflexivity|].
  split; [intros Hrec; vm_compute in Hrec; inversion Hrec|].
  split; vm_compute; reflexivity.
Qed.

(** On a miss [FetchPage] does not enter the page in the page table. *)
Lemma FetchPage_miss_leaves_page_table (undef : Z -> Z) :
  exists b', FetchPage undef 5 (init PAGE_SIZE 1 2) = Ret (b', Some 0)
    /\ page_id_ (page_at b' 0) = 5
    /\ page_table_ b' !! 5 = None.
Proof.
  eexists. split; [vm_compute; reflexivity|]. split; vm_compute; reflexivity.
Qed.

(** On a hit through an entry that a miss has left behind, the frame
    returned holds another page. *)
Lemma FetchPage_hit_stale_entry (undef : Z -> Z) :
  let b := pool_after undef 1 stale_entry in
  page_table_ b !! 0 = Some 0
  /\ exists b', FetchPage undef 0 b = Ret (b', Some 0)
       /\ page_id_ (page_at b' 0) = 5.
Proof.
  split; [vm_compute; reflexivity|].
  eexists. split; vm_compute; reflexivity.
Qed.

(** C6: [NewPage] on a fresh pool of one frame.  No frame is pinned and
    frame 0 is free.  The call takes frame 0 from the free list and calls
    [AllocatePage] inside the scope of its lock guard; [AllocatePage]
    locks [latch_] again, and the call does not return: no page comes
    back. *)
Theorem NewPage_fresh_pool_blocks (undef : Z -> Z) :
  let b := init PAGE_SIZE 1 2 in
  all_pined b = false
  /\ free_list_ b = [0]
  /\ Latch.AllocatePage true (set_free_list [] b) = Latch.Deadlock
  /\ Latch.NewPage undef false b = Latch.Deadlock.
Proof. split_and!; vm_compute; reflexivity. Qed.

(** On a re-entrant latch, [NewPage] on a pool of one frame that is
    unpinned and holds page 5 evicts the frame, allocates page id 5,
    finds it not below [pool_size_] and returns [nullptr]: the frame is
    then in neither the free list nor the evictable list. *)
Lemma NewPage_nullptr_loses_frame (undef : Z -> Z) :
  let b := pool_after undef 1 stale_entry in
  all_pined b = false
  /\ evictable_list_ (replacer_ b) = [0]
  /\ exists res, NewPage undef b = Ret res
       /\ np_page res = None
       /\ np_page_id res = Some 5
       /\ evictable_list_ (replacer_ (np_pool res)) = []
       /\ free_list_ (np_pool res) = [].
Proof.
  split; [vm_compute; reflexivity|]. split; [vm_compute; reflexivity|].
  eexists. split; [vm_compute; reflexivity|].
  split_and!; vm_compute; reflexivity.
Qed.


(** [FlushPage] on a resident page, in general. *)
Lemma FlushPage_resident page_id f b :
  wf b -> page_table_ b !! page_id = Some f ->
  (FlushPage page_id b).2 = true
  /\ free_pages_ (FlushPage page_id b).1 = free_pages_ b ++ [page_id]
  /\ next_page_id_ (FlushPage page_id b).1 = next_page_id_ b
  /\ page_table_ (FlushPage page_id b).1 = page_table_ b
  /\ replacer_ (FlushPage page_id b).1 = replacer_ b
  /\ free_list_ (FlushPage page_id b).1 = free_list_ b
  /\ page_at (FlushPage page_id b).1 f = set_is_dirty false (page_at b f)
  /\ Disk.request_queue_ (disk_scheduler_ (FlushPage page_id b).1)
     = Disk.request_queue_ (disk_scheduler_ b)
       ++ (if is_dirty_ (page_at b f)
           then [Disk.mkDiskRequest true f (page_id_ (page_at b f))]
           else []).
Proof.
  intros Hwf Hpt. unfold FlushPage. rewrite Hpt.
  assert (Hf : in_pool b f) by exact (wf_page_table b Hwf page_id f Hpt).
  destruct (is_dirty_ (page_at b f)) eqn:Hd.
  - destruct (update_page_step f (set_is_dirty false) b Hwf Hf) as (_ & _ & Hp).
    { simpl. by apply page_at_pin_nonneg. }
    destruct (update_page_fields f (set_is_dirty false) b)
      as (_ & Hr & Hds & Hpt' & Hfl & Hfp & Hnp & _).
    set (b1 := update_page f (set_is_dirty false) b) in *.
    cbn [fst snd].
    change (page_at (DeallocatePage page_id (schedule true f (page_id_ (page_at b1 f)) b1)) f)
      with (page_at b1 f).
    unfold DeallocatePage, schedule. simpl.
    rewrite Hp, Hr, Hds, Hpt', Hfl, Hfp, Hnp. simpl. by split_and!.
  - cbn [fst snd]. unfold DeallocatePage. simpl.
    split_and!; try done.
    + change (page_at b f = set_is_dirty false (page_at b f)).
      destruct (page_at b f); simpl in *. by rewrite Hd.
    + by rewrite app_nil_r.
Qed.
End Runs.

(** ** Page guards *)

Section GuardProperties.
Import BufferPool PageGuard.
Implicit Types (g this that : BasicPageGuard) (b : BufferPoolManager).

(** The move constructor hands over the three fields and empties the
    source. *)
Lemma move_construct_transfers that :
  (move_construct that).1 = that /\ is_empty (move_construct that).2.
Proof. destruct that. split; [reflexivity|]. split; reflexivity. Qed.

(** An empty guard releases nothing. *)
Lemma Drop_empty g b : is_empty g -> Drop g b = Ret (g, b).
Proof. intros [Hb Hp]. unfold Drop. by rewrite Hp. Qed.

(** A second [Drop] changes neither the guard nor the pool. *)
Lemma Drop_twice g b g' b' :
  Drop g b = Ret (g', b') -> Drop g' b' = Ret (g', b').
Proof.
  unfold Drop. destruct (page_ g) as [frame|] eqn:Hp.
  - destruct (bpm_ g) eqn:Hb.
    + intros [= <- <-]. by rewrite Hp, Hb.
    + destruct (UnpinPage _ _ _) as [[b1 ok]| |]; simpl; intros [= <- <-].
      reflexivity.
  - intros [= <- <-]. by rewrite Hp.
Qed.

(** C9: move assignment into an empty guard from a guard that holds the
    page of frame 0, pinned once.  The source is left as it was and is
    not empty; the destination gets the page and the dirty flag but a
    null pool, so its [Drop] releases nothing; the pin is released by the
    [Drop] of the source. *)
Theorem move_assign_keeps_source (undef : Z -> Z) :
  let b := pool_after undef 1 [CNewPage] in
  let that := mkBasicPageGuard the_pool (Some 0) false in
  pin_count_ (page_at b 0) = 1
  /\ exists this', move_assign empty_guard that b = Ret (this', that, b)
       /\ this' = mkBasicPageGuard null_pool (Some 0) false
       /\ ~ is_empty that
       /\ Drop this' b = Ret (this', b)
       /\ exists b', Drop that b = Ret (mkBasicPageGuard the_pool None false, b')
            /\ pin_count_ (page_at b' 0) = 0.
Proof.
  split; [vm_compute; reflexivity|].
  eexists. split; [vm_compute; reflexivity|].
  split; [reflexivity|]. split; [intros [[=] _]|].
  split; [reflexivity|].
  eexists. split; vm_compute; reflexivity.
Qed.
End GuardProperties.

(** ** Trie: [Remove] *)

Section TrieRemove.
Import Trie.

(** C8: a trie whose root carries a value and has no children.  A value
    is stored at the empty key; [Remove] of the empty key returns a trie
    whose root is still there, with no value and no children, not the
    empty trie. *)
Theorem Remove_empty_key_keeps_root :
  exists t, root_value_only = Ret t
    /\ t = mkTrie (Some (Node ∅ true (Some (uint32_t, 2))))
    /\ stored EmptyString t = true
    /\ Remove EmptyString t = mkTrie (Some (Node ∅ false (Some (uint32_t, 2))))
    /\ Remove EmptyString t <> empty_trie.
Proof.
  eexists. split; [vm_compute; reflexivity|].
  split; [reflexivity|]. split; [reflexivity|]. split; [reflexivity|].
  intros [=].
Qed.

(** For comparison, the pruning at the end of [Remove] on a non-empty
    key: removing the only key gives the empty trie. *)
Lemma Remove_only_key :
  (t <- Put uint32_t "abc" 1 empty_trie ;; Ret (Remove "abc" t)) = Ret empty_trie.
Proof. vm_compute. reflexivity. Qed.
End TrieRemove.

(** ** Instances of the theorems that carry hypotheses *)

Section Witnesses.
Import Replacer BufferPool.

Lemma UnpinPage_spec_witness :
  wf (pool_after (fun _ => 0) 1 [CNewPage])
  /\ exists b' ok,
       UnpinPage 0 true (pool_after (fun _ => 0) 1 [CNewPage]) = Ret (b', ok)
       /\ (ok = false <->
             page_table_ (pool_after (fun _ => 0) 1 [CNewPage]) !! 0 = None
             \/ exists f, page_table_ (pool_after (fun _ => 0) 1 [CNewPage]) !! 0 = Some f
                          /\ pin_count_ (page_at (pool_after (fun _ => 0) 1 [CNewPage]) f) = 0)
       /\ (ok = false -> b' = pool_after (fun _ => 0) 1 [CNewPage])
       /\ (ok = true ->
             exists f, page_table_ (pool_after (fun _ => 0) 1 [CNewPage]) !! 0 = Some f
               /\ pin_count_ (page_at b' f)
                  = pin_count_ (page_at (pool_after (fun _ => 0) 1 [CNewPage]) f) - 1
               /\ is_dirty_ (page_at b' f)
                  = is_dirty_ (page_at (pool_after (fun _ => 0) 1 [CNewPage]) f) || true
               /\ (pin_count_ (page_at b' f) = 0 -> evictable b' f)
               /\ page_table_ b' = page_table_ (pool_after (fun _ => 0) 1 [CNewPage])).
Proof.
  split.
  - apply (bool_decide_unpack _). vm_compute. exact I.
  - apply (UnpinPage_spec (pool_after (fun _ => 0) 1 [CNewPage]) 0 true).
    apply (bool_decide_unpack _). vm_compute. exact I.
Defined.
End Witnesses.

(** * Further properties *)

(** ** Trie: what [Put] and [Remove] leave alone *)

Section TrieMore.
Import Trie.
Context {tid : Type} `{EqDecision tid} {data : Type}.
Implicit Types (n r m : TrieNode tid data) (t : Trie tid data) (key : string).
Implicit Types (stacks : list (ascii * TrieNode tid data)).

Lemma Get_lookup_value (T : tid) key n :
  Get T key (mkTrie (Some n)) = Ret (lookup_value T n key).
Proof.
  unfold Get, lookup_value; simpl. rewrite Get_walk_find_node.
  destruct (find_node n key) as [m|]; simpl; [|done].
  destruct (value_ m) as [[T' v]|]; [|done].
  destruct (decide (T' = T)); [|done]. by destruct (is_value_node_ m).
Qed.

Lemma lookup_value_find (T : tid) n n' key key' :
  find_node n key = find_node n' key' -> lookup_value T n key = lookup_value T n' key'.
Proof. unfold lookup_value. by intros ->. Qed.

Lemma find_node_children n n' ch key :
  children_ n = children_ n' ->
  find_node n (String ch key) = find_node n' (String ch key).
Proof. simpl. by intros ->. Qed.

Lemma find_node_no_children ch key :
  find_node (mkTrieNode (tid:=tid) (data:=data) ∅) (String ch key) = None.
Proof. simpl. by rewrite lookup_empty. Qed.

Lemma prefix_empty_r key : String.prefix key EmptyString = false -> key <> EmptyString.
Proof. by destruct key. Qed.

(** [Putcycle] changes nothing off the path of its key. *)
Lemma Putcycle_others (T : tid) (v : data) key : forall n c n',
  Putcycle n (String c key) T v = Ret n' ->
  forall key', String.prefix key' (String c key) = false ->
  find_node n' key' = find_node n key'.
Proof.
  induction key as [|c' key IH]; intros n c n' Hput key' Hpre.
  - destruct key' as [|c2 rest]; [done|]. simpl in Hpre.
    destruct (ascii_dec c2 c) as [->|Hne].
    + destruct rest as [|c3 rest]; [by destruct (ascii_dec c c)|].
      simpl in Hput. destruct (children_ n !! c) as [iter|] eqn:Hc;
        injection Hput as <-; simpl; rewrite lookup_insert_eq, Hc; simpl; [done|].
      by rewrite lookup_empty.
    + simpl in Hput. destruct (children_ n !! c) as [iter|];
        injection Hput as <-; simpl; by rewrite lookup_insert_ne.
  - rewrite Putcycle_step in Hput.
    destruct (Putcycle _ (String c' key) T v) as [ptr| |] eqn:Hptr; simpl in Hput; [|done|done].
    injection Hput as <-.
    destruct key' as [|c2 rest]; [done|]. simpl in Hpre.
    destruct (ascii_dec c2 c) as [->|Hne].
    + change (find_node (set_child c ptr n) (String c rest))
        with (match <[c:=ptr]> (children_ n) !! c with
              | Some x => find_node x rest | None => None end).
      rewrite lookup_insert_eq. rewrite (IH _ _ _ Hptr rest Hpre).
      destruct rest as [|c3 rest]; [by destruct (ascii_dec c c)|].
      cbn [find_node]. destruct (children_ n !! c) as [iter|].
      * by rewrite children_Clone.
      * simpl. by rewrite lookup_empty.
    + simpl. by rewrite lookup_insert_ne.
Qed.

(** X1: [Put] followed by [Get<T>] of the same key returns the value
    put, for every key on a trie that has a root and for every non-empty
    key on any trie. *)
Theorem Put_then_Get (T : tid) (v : data) key t :
  key <> EmptyString \/ root_ t <> None ->
  exists t', Put T key v t = Ret t' /\ Get T key t' = Ret (Some v).
Proof. apply Put_Get_roundtrip. Qed.

(** X2: [Put] leaves [Get] unchanged at every key that is not a prefix
    of the key put (the key itself counts as a prefix), at every type. *)
Theorem Put_other_keys (T T' : tid) (v : data) key key' t t' :
  Put T key v t = Ret t' ->
  String.prefix key' key = false ->
  Get T' key' t' = Get T' key' t.
Proof.
  intros Hput Hpre. destruct key as [|c key].
  - apply prefix_empty_r in Hpre. destruct key' as [|c2 rest]; [done|].
    destruct t as [[r|]]; [|done]. unfold Put in Hput; simpl in Hput.
    unfold children_empty in Hput. case_bool_decide as Hd; injection Hput as <-.
    + apply dom_empty_iff_L in Hd. rewrite !Get_lookup_value. apply (f_equal Ret).
      apply lookup_value_find, find_node_children. simpl. by rewrite Hd.
    + rewrite !Get_lookup_value. apply (f_equal Ret).
      by apply lookup_value_find, find_node_children.
  - assert (Hk : key' <> EmptyString) by (by destruct key').
    destruct key' as [|c2 rest]; [done|].
    unfold Put in Hput.
    destruct (Putcycle _ (String c key) T v) as [n'| |] eqn:Hn'; simpl in Hput; [|done|done].
    injection Hput as <-. rewrite Get_lookup_value.
    rewrite (lookup_value_find T' _ _ _ _ (Putcycle_others T v key _ _ _ Hn' _ Hpre)).
    destruct t as [[r|]]; simpl.
    + rewrite Get_lookup_value. apply (f_equal Ret).
      apply lookup_value_find, find_node_children, children_Clone.
    + rewrite Get_no_root. unfold lookup_value. by rewrite find_node_no_children.
Qed.

(** X3: [Get] at another type than the one the value was put at returns
    [nullptr]. *)
Theorem Put_then_Get_other_type (T T' : tid) (v : data) key t t' :
  Put T key v t = Ret t' -> T' <> T -> Get T' key t' = Ret None.
Proof.
  intros Hput HT. destruct key as [|c key].
  - destruct t as [[r|]]; [|done]. unfold Put in Hput; simpl in Hput.
    destruct (children_empty r); injection Hput as <-;
      unfold Get; simpl; destruct (decide (T = T')); congruence.
  - unfold Put in Hput.
    destruct (Putcycle_walk T v key
                (match root_ t with None => mkTrieNode ∅ | Some r => Clone r end) c)
      as (n' & m & Hp & Hg & Hv & Hf).
    rewrite Hp in Hput. injection Hput as <-.
    unfold Get. cbn [root_]. rewrite Hg. simpl. rewrite Hv.
    destruct (decide (T = T')); congruence.
Qed.

Lemma Putcycle_keeps_node (T : tid) (v : data) key n c n' :
  Putcycle n (String c key) T v = Ret n' ->
  value_ n' = value_ n /\ is_value_node_ n' = is_value_node_ n.
Proof.
  destruct key as [|c' key].
  - simpl. destruct (children_ n !! c); intros [= <-]; done.
  - rewrite Putcycle_step. destruct (Putcycle _ _ T v); simpl; [|done|done].
    intros [= <-]. done.
Qed.

Lemma value_Clone n : value_ (Clone n) = value_ n.
Proof. unfold Clone. by destruct (value_ n) as [[]|]. Qed.

Lemma is_value_node_Clone n :
  is_value_node_ (Clone n) = match value_ n with Some _ => true | None => false end.
Proof. unfold Clone. by destruct (value_ n) as [[]|]. Qed.

(** Every node [Putcycle] passes through on its way down is a clone: it
    carries the payload of the node it copies, flagged as a value. *)
Lemma Putcycle_path (T' : tid) (v' : data) s c : forall p n0 m,
  p <> EmptyString ->
  find_node n0 p = Some m ->
  exists n' m', Putcycle n0 (p +:+ String c s) T' v' = Ret n'
    /\ find_node n' p = Some m'
    /\ value_ m' = value_ m
    /\ is_value_node_ m' = match value_ m with Some _ => true | None => false end.
Proof.
  induction p as [|ch p IH]; intros n0 m Hp Hm; [done|].
  change (String ch p +:+ String c s) with (String ch (p +:+ String c s)).
  simpl in Hm. destruct (children_ n0 !! ch) as [child|] eqn:Hch; [|done].
  destruct p as [|ch' p].
  - injection Hm as <-.
    change (EmptyString +:+ String c s) with (String c s).
    rewrite Putcycle_step, Hch.
    destruct (Putcycle_walk T' v' s (Clone child) c) as (ptr & ? & Hptr & _).
    rewrite Hptr. exists (set_child ch ptr n0), ptr. split; [done|].
    split; [simpl; by rewrite lookup_insert_eq|].
    destruct (Putcycle_keeps_node T' v' s _ c _ Hptr) as [-> ->].
    by rewrite value_Clone, is_value_node_Clone.
  - destruct (IH (Clone child) m) as (ptr & m' & Hptr & Hfind & Hv & Hf); [done| |].
    { rewrite <- Hm. by apply find_node_children, children_Clone. }
    change (String ch' p +:+ String c s) with (String ch' (p +:+ String c s)) in *.
    rewrite Putcycle_step, Hch, Hptr. exists (set_child ch ptr n0), m'.
    split; [done|].
    change (find_node (set_child ch ptr n0) (String ch (String ch' p)))
      with (match <[ch:=ptr]> (children_ n0) !! ch with
            | Some x => find_node x (String ch' p) | None => None end).
    by rewrite lookup_insert_eq.
Qed.

(** X4: [Put] clones every node on the way to its key, and a clone of a
    node that carries a payload is flagged as a value node.  So the
    payload of a node at a proper prefix of the key put is what [Get]
    returns there afterwards, also when [Remove] had cleared that node. *)
Theorem Put_reexposes_prefix (T T' : tid) (v v' : data) p c s t r n :
  root_ t = Some r ->
  find_node r p = Some n ->
  value_ n = Some (T, v) ->
  exists t', Put T' (p +:+ String c s) v' t = Ret t' /\ Get T p t' = Ret (Some v).
Proof.
  intros Hr Hn Hv. destruct t as [root]. simpl in Hr. subst root.
  destruct p as [|ch p].
  - injection Hn as <-. change (EmptyString +:+ String c s) with (String c s).
    change (Put T' (String c s) v' (mkTrie (Some r)))
      with (new_root' <- Putcycle (Clone r) (String c s) T' v' ;;
            Ret (mkTrie (Some new_root'))).
    destruct (Putcycle_walk T' v' s (Clone r) c) as (n' & ? & Hn' & _).
    rewrite Hn'. simpl. eexists; split; [done|].
    destruct (Putcycle_keeps_node T' v' s _ c _ Hn') as [Hv' Hf'].
    rewrite Get_lookup_value. unfold lookup_value; simpl.
    rewrite Hv', value_Clone, Hv, Hf', is_value_node_Clone, Hv.
    by rewrite decide_True.
  - destruct (Putcycle_path T' v' s c (String ch p) (Clone r) n) as (n' & m' & Hn' & Hf & Hv' & Hfl);
      [done| |].
    { rewrite <- Hn. by apply find_node_children, children_Clone. }
    change (String ch p +:+ String c s) with (String ch (p +:+ String c s)) in *.
    change (Put T' (String ch (p +:+ String c s)) v' (mkTrie (Some r)))
      with (new_root' <- Putcycle (Clone r) (String ch (p +:+ String c s)) T' v' ;;
            Ret (mkTrie (Some new_root'))).
    rewrite Hn'. simpl. eexists; split; [done|].
    rewrite Get_lookup_value. unfold lookup_value. rewrite Hf, Hv', Hv, Hfl, Hv.
    by rewrite decide_True.
Qed.

(** *** [Remove] by recursion on the key *)

Lemma children_empty_set_child ch c n : children_empty (set_child ch c n) = false.
Proof.
  unfold children_empty. apply bool_decide_eq_false. simpl.
  rewrite dom_insert_L. set_solver.
Qed.

Lemma erase_set_child ch c n : erase_child ch (set_child ch c n) = erase_child ch n.
Proof. unfold erase_child, set_child; simpl. by rewrite delete_insert_eq. Qed.

Lemma set_set_child ch c c' n : set_child ch c (set_child ch c' n) = set_child ch c n.
Proof. unfold set_child; simpl. by rewrite insert_insert_eq. Qed.

Lemma Remove_prune_live child stacks :
  children_empty child = false ->
  Remove_prune child stacks true = Remove_prune child stacks false.
Proof. destruct stacks as [|[ch parent] stacks]; simpl; [done|]. by intros ->. Qed.

(** The walk and the pruning loop of [Remove], run from any clone with
    any stack, come to what [pruned] computes for that clone. *)
Lemma Remove_walk_pruned key : forall n stacks,
  match Remove_walk n key stacks with
  | None => pruned n key = None
  | Some (current, stacks') =>
      if is_value_node_ current
      then exists n', pruned n key = Some n'
             /\ Remove_prune (set_is_value_node false current) stacks' true
                = Remove_prune n' stacks true
      else pruned n key = None
  end.
Proof.
  induction key as [|ch key IH]; intros n stacks; simpl.
  - destruct (is_value_node_ n); eauto.
  - destruct (children_ n !! ch) as [child|]; [|done].
    set (new_node := set_is_value_node (is_value_node_ child) (Clone child)).
    specialize (IH new_node ((ch, set_child ch new_node n) :: stacks)).
    destruct (Remove_walk new_node key _) as [[current stacks']|]; [|by rewrite IH].
    destruct (is_value_node_ current); [|by rewrite IH].
    destruct IH as (child' & -> & ->). simpl.
    destruct (children_empty child' && negb (is_value_node_ child')) eqn:Hdead.
    + eexists; split; [done|]. by rewrite erase_set_child.
    + eexists; split; [done|]. rewrite set_set_child.
      symmetry. apply Remove_prune_live, children_empty_set_child.
Qed.

(** [Remove] in terms of [pruned]. *)
Lemma Remove_pruned key r :
  Remove key (mkTrie (Some r))
  = match pruned (if negb (is_value_node_ r)
                  then set_is_value_node false (Clone r) else Clone r) key with
    | None => mkTrie (Some r)
    | Some n' =>
        match key with
        | EmptyString => mkTrie (Some n')
        | String _ _ =>
            if negb (is_value_node_ n') && children_empty n'
            then mkTrie None else mkTrie (Some n')
        end
    end.
Proof.
  unfold Remove; cbn [root_].
  set (new_root := if negb (is_value_node_ r)
                   then set_is_value_node false (Clone r) else Clone r).
  destruct key as [|ch key].
  - simpl. by destruct (is_value_node_ new_root).
  - rewrite bool_decide_eq_false_2 by done. cbn [andb].
    pose proof (Remove_walk_pruned (String ch key) new_root []) as Hw.
    destruct (Remove_walk new_root (String ch key) []) as [[current stacks]|];
      [|by rewrite Hw].
    destruct (is_value_node_ current); [|by rewrite Hw].
    destruct Hw as (n' & -> & ->). done.
Qed.

Lemma lookup_value_cons (T : tid) n ch key :
  lookup_value T n (String ch key)
  = match children_ n !! ch with
    | Some c => lookup_value T c key
    | None => None
    end.
Proof. unfold lookup_value; simpl. by destruct (children_ n !! ch). Qed.

Lemma lookup_value_same (T : tid) n n' key :
  children_ n = children_ n' -> value_ n = value_ n' ->
  is_value_node_ n = is_value_node_ n' ->
  lookup_value T n key = lookup_value T n' key.
Proof.
  intros Hc Hv Hf. destruct key as [|ch key].
  - unfold lookup_value; simpl. by rewrite Hv, Hf.
  - by rewrite !lookup_value_cons, Hc.
Qed.

(** A node without children whose flag is off shows no value at any key. *)
Lemma lookup_value_dead (T : tid) n key :
  children_empty n = true -> is_value_node_ n = false -> lookup_value T n key = None.
Proof.
  intros Hc%bool_decide_eq_true%dom_empty_iff_L Hf. destruct key as [|ch key].
  - unfold lookup_value; simpl. rewrite Hf.
    destruct (value_ n) as [[T' v]|]; [|done]. by destruct (decide (T' = T)).
  - by rewrite lookup_value_cons, Hc, lookup_empty.
Qed.

(** The root clone of [Remove] shows what the root shows. *)
Lemma lookup_value_new_root (T : tid) r key :
  lookup_value T (if negb (is_value_node_ r)
                  then set_is_value_node false (Clone r) else Clone r) key
  = lookup_value T r key.
Proof.
  destruct key as [|ch key].
  - unfold lookup_value; simpl.
    destruct (is_value_node_ r) eqn:Hf; simpl.
    + rewrite value_Clone, is_value_node_Clone.
      by destruct (value_ r) as [[T' v]|].
    + by rewrite value_Clone.
  - rewrite !lookup_value_cons.
    by destruct (negb (is_value_node_ r)); simpl; rewrite children_Clone.
Qed.

Lemma pruned_lookup_value (T : tid) key : forall n n',
  pruned n key = Some n' ->
  forall key', key' <> key -> lookup_value T n' key' = lookup_value T n key'.
Proof.
  induction key as [|ch key IH]; intros n n'; simpl.
  - destruct (is_value_node_ n); [|done]. intros [= <-] [|c rest] Hne; [done|].
    by rewrite !lookup_value_cons.
  - destruct (children_ n !! ch) as [child|] eqn:Hch; [|done].
    set (new_node := set_is_value_node (is_value_node_ child) (Clone child)).
    destruct (pruned new_node key) as [child'|] eqn:Hp; [|done].
    assert (Hnew : forall k, lookup_value T new_node k = lookup_value T child k).
    { intros k. apply lookup_value_same; simpl;
        [apply children_Clone|apply value_Clone|done]. }
    intros Hn' [|c rest] Hne.
    + unfold lookup_value.
      destruct (children_empty child' && negb (is_value_node_ child'));
        by injection Hn' as <-.
    + rewrite (lookup_value_cons T n), !lookup_value_cons.
      destruct (decide (c = ch)) as [->|Hc].
      * assert (Hrest : rest <> key) by congruence.
        rewrite Hch, <- Hnew, <- (IH _ _ Hp rest Hrest).
        destruct (children_empty child' && negb (is_value_node_ child')) eqn:Hdead;
          injection Hn' as <-; simpl.
        -- rewrite lookup_delete_eq.
           apply andb_true_iff in Hdead as [Hd1 Hd2%negb_true_iff].
           symmetry. by apply lookup_value_dead.
        -- by rewrite lookup_insert_eq.
      * destruct (children_empty child' && negb (is_value_node_ child'));
          injection Hn' as <-; simpl.
        -- by rewrite lookup_delete_ne.
        -- by rewrite lookup_insert_ne.
Qed.

(** X5: whatever the trie and the key, [Get] at a key returns [nullptr]
    in the trie [Remove] of that key returns. *)
Theorem Get_after_Remove (T : tid) key t : Get T key (Remove key t) = Ret None.
Proof. apply Get_Remove. Qed.

(** X6: [Remove] of a key that leads to no node, or to a node whose
    flag is off, returns the trie it was called on. *)
Theorem Remove_absent_same key t : stored key t = false -> Remove key t = t.
Proof. apply Remove_absent. Qed.

(** X7: [Remove] of a key leaves [Get] unchanged at every other key, at
    every type: pruning erases only nodes that show no value. *)
Theorem Remove_other_keys (T : tid) key key' t :
  key' <> key -> Get T key' (Remove key t) = Get T key' t.
Proof.
  intros Hne. destruct t as [[r|]]; [|done].
  rewrite Remove_pruned.
  set (new_root := if negb (is_value_node_ r)
                   then set_is_value_node false (Clone r) else Clone r).
  destruct (pruned new_root key) as [n'|] eqn:Hp; [|done].
  pose proof (pruned_lookup_value T key _ _ Hp key' Hne) as Hl.
  unfold new_root in Hl. rewrite lookup_value_new_root in Hl.
  rewrite (Get_lookup_value T key' r), <- Hl.
  destruct key as [|ch key]; [apply Get_lookup_value|].
  destruct (negb (is_value_node_ n') && children_empty n') eqn:Hdead;
    [|apply Get_lookup_value].
  apply andb_true_iff in Hdead as [Hd1%negb_true_iff Hd2].
  rewrite Get_no_root. by rewrite lookup_value_dead.
Qed.

(** A path that [Putcycle] has built below a node without children is
    pruned away whole. *)
Lemma pruned_fresh_path (T : tid) (v : data) key : forall c n0 n x,
  children_ n0 = ∅ ->
  Putcycle n0 (String c key) T v = Ret n ->
  children_ x = children_ n ->
  exists d, pruned x (String c key) = Some d
    /\ children_empty d = true
    /\ is_value_node_ d = is_value_node_ x.
Proof.
  induction key as [|c' key IH]; intros c n0 n x Hn0 Hput Hx.
  - simpl in Hput. rewrite Hn0, lookup_empty in Hput. injection Hput as <-.
    simpl in Hx. rewrite Hn0 in Hx. simpl. rewrite Hx, lookup_insert_eq. simpl.
    eexists; split; [done|]. split; [|done].
    unfold children_empty. apply bool_decide_eq_true. simpl.
    rewrite Hx, delete_insert_eq, delete_empty. apply dom_empty_L.
  - rewrite Putcycle_step, Hn0, lookup_empty in Hput.
    destruct (Putcycle (mkTrieNode ∅) (String c' key) T v) as [ptr| |] eqn:Hptr;
      simpl in Hput; [|done|done].
    injection Hput as <-. simpl in Hx. rewrite Hn0 in Hx.
    destruct (IH c' (mkTrieNode ∅) ptr
                (set_is_value_node (is_value_node_ ptr) (Clone ptr)))
      as (d & Hd & Hde & Hdf); [done|done|apply children_Clone|].
    destruct (Putcycle_keeps_node T v key _ c' _ Hptr) as [_ Hpf]. simpl in Hpf, Hdf.
    change (pruned x (String c (String c' key)))
      with (match children_ x !! c with
            | None => None
            | Some child =>
                match pruned (set_is_value_node (is_value_node_ child) (Clone child))
                        (String c' key) with
                | None => None
                | Some child' =>
                    if children_empty child' && negb (is_value_node_ child')
                    then Some (erase_child c x) else Some (set_child c child' x)
                end
            end).
    rewrite Hx, lookup_insert_eq, Hd, Hde, Hdf, Hpf. simpl.
    eexists; split; [done|]. split; [|done].
    unfold children_empty. apply bool_decide_eq_true. simpl.
    rewrite Hx, delete_insert_eq, delete_empty. apply dom_empty_L.
Qed.

(** X8: [Remove] of the only key of a trie, when that key is not empty,
    returns the empty trie: every node of the path is pruned and the
    root is dropped. *)
Theorem Remove_only_key_empty (T : tid) (v : data) key :
  key <> EmptyString ->
  exists t, Put T key v empty_trie = Ret t /\ Remove key t = empty_trie.
Proof.
  intros Hk. destruct key as [|c key]; [done|].
  destruct (Putcycle_walk T v key (mkTrieNode ∅) c) as (n & ? & Hn & _).
  change (Put T (String c key) v empty_trie)
    with (new_root' <- Putcycle (mkTrieNode ∅) (String c key) T v ;;
          Ret (mkTrie (Some new_root'))).
  rewrite Hn. simpl. eexists; split; [done|].
  rewrite Remove_pruned.
  destruct (Putcycle_keeps_node T v key _ c _ Hn) as [_ Hf]. simpl in Hf.
  rewrite Hf. cbn [negb].
  destruct (pruned_fresh_path T v key c (mkTrieNode ∅) n
              (set_is_value_node false (Clone n)))
    as (d & -> & Hde & Hdf); [done|done|apply children_Clone|].
  simpl in Hdf. by rewrite Hde, Hdf.
Qed.
End TrieMore.

(** ** Replacer: the eviction rule and the bookkeeping *)

Section ReplacerMore.
Import Replacer.
Implicit Types (r : LRUKReplacer) (ns : gmap Z LRUKNode) (f g : Z) (l : list Z).

Lemma iterators_lookup l it :
  it ∈ iterators l -> l !! it.1 = Some it.2.
Proof.
  destruct it as [i x]. intros Hin.
  apply elem_of_lookup_imap in Hin as (i' & x' & [= -> ->] & Hl). exact Hl.
Qed.

Lemma iterators_elem_of l g : g ∈ l -> exists i, (i, g) ∈ iterators l.
Proof.
  intros (i & Hi)%list_elem_of_lookup_1. exists i.
  by apply (elem_of_lookup_imap_2 pair).
Qed.

Section WithUndef.
Variable undef : Z -> Z.

(** The second loop of [Evict] ends on an iterator whose
    [history_.back()] is least. *)
Lemma max_dist_loop_min ns its : forall it,
  let res := foldl (max_dist_step undef ns) it its in
  let dist e := back undef e.2 (history_ (node_at ns e.2)) in
  dist res <= dist it /\ forall e, e ∈ its -> dist res <= dist e.
Proof.
  induction its as [|e its IH]; intros it; simpl.
  - split; [lia|]. by intros ? ?%elem_of_nil.
  - destruct (IH (max_dist_step undef ns it e)) as [H1 H2].
    assert (Hstep : back undef (max_dist_step undef ns it e).2
                      (history_ (node_at ns (max_dist_step undef ns it e).2))
                    <= back undef it.2 (history_ (node_at ns it.2))
                    /\ back undef (max_dist_step undef ns it e).2
                         (history_ (node_at ns (max_dist_step undef ns it e).2))
                       <= back undef e.2 (history_ (node_at ns e.2))).
    { unfold max_dist_step. destruct (_ <? _) eqn:E.
      - apply Z.ltb_lt in E. lia.
      - apply Z.ltb_ge in E. lia. }
    split; [lia|]. intros e' [->|He']%elem_of_cons; [lia|by apply H2].
Qed.

(** X9: when some evictable frame has fewer than [k_] recorded
    accesses, [Evict] returns such a frame, never one with [k_]
    accesses, and among such frames one whose [history_.front()], the
    latest access, is least. *)
Theorem Evict_prefers_fewer_than_k r f0 :
  f0 ∈ evictable_list_ r -> fewer_than_k r f0 = true ->
  exists r' f, Evict undef r = (r', Some f)
    /\ f ∈ evictable_list_ r
    /\ fewer_than_k r f = true
    /\ forall g, g ∈ evictable_list_ r -> fewer_than_k r g = true ->
         front undef f (history_ (node_at (node_store_ r) f))
         <= front undef g (history_ (node_at (node_store_ r) g)).
Proof. apply Evict_fewer_than_k. Qed.

Lemma Evict_full_histories r :
  evictable_list_ r <> [] ->
  (forall g, g ∈ evictable_list_ r -> fewer_than_k r g = false) ->
  exists r' f, Evict undef r = (r', Some f)
    /\ f ∈ evictable_list_ r
    /\ forall g, g ∈ evictable_list_ r ->
         back undef f (history_ (node_at (node_store_ r) f))
         <= back undef g (history_ (node_at (node_store_ r) g)).
Proof.
  intros Hne Hfull. unfold Evict, fewer_than_k in *.
  destruct (iterators (evictable_list_ r)) as [|begin its] eqn:E.
  { destruct (evictable_list_ r) as [|x l]; [done|]. discriminate E. }
  rewrite <- E in *.
  destruct (less_k_loop_min undef (k_ r) (node_store_ r) (iterators (evictable_list_ r))
              (node_store_ r, [])) as (_ & _ & Hfrom & _); [done|done|].
  pose proof (less_k_loop undef (k_ r) (iterators (evictable_list_ r))
                (node_store_ r, [])) as [Hn _].
  destruct (foldl (less_k_step undef (k_ r)) _ _) as [ns less_k]. simpl in *.
  destruct less_k as [|[key it] rest].
  - set (it := foldl _ _ _).
    destruct (max_dist_loop_min ns (iterators (evictable_list_ r)) begin) as [_ Hmin].
    fold it in Hmin.
    assert (Hin : it ∈ iterators (evictable_list_ r)).
    { destruct (max_dist_loop undef ns (iterators (evictable_list_ r)) begin) as [Hr|Hr].
      - fold it in Hr. rewrite Hr, E. apply elem_of_cons. auto.
      - exact Hr. }
    eexists _, _. split; [reflexivity|].
    split; [eapply list_elem_of_lookup_2; by apply iterators_lookup|].
    intros g Hg. destruct (iterators_elem_of _ g Hg) as [i Hi].
    specialize (Hmin (i, g) Hi). simpl in Hmin. by rewrite !Hn in Hmin.
  - destruct (Hfrom (key, it)) as [Hnil|(Hit & Hk & _)];
      [apply elem_of_cons; auto|by apply elem_of_nil in Hnil|].
    simpl in *. apply iterators_lookup in Hit.
    rewrite (Hfull it.2) in Hk; [done|]. by eapply list_elem_of_lookup_2.
Qed.

(** X10: when every evictable frame has [k_] recorded accesses or
    more, [Evict] returns an evictable frame whose [history_.back()],
    the oldest access it remembers, is least. *)
Theorem Evict_least_back r :
  evictable_list_ r <> [] ->
  (forall g, g ∈ evictable_list_ r -> fewer_than_k r g = false) ->
  exists r' f, Evict undef r = (r', Some f)
    /\ f ∈ evictable_list_ r
    /\ forall g, g ∈ evictable_list_ r ->
         back undef f (history_ (node_at (node_store_ r) f))
         <= back undef g (history_ (node_at (node_store_ r) g)).
Proof. apply Evict_full_histories. Qed.

(** X11: on a replacer whose bookkeeping is consistent, [Evict]
    returns [false] exactly when no frame is evictable, and then
    changes nothing; otherwise the frame it returns was evictable, is
    no longer in the evictable list, has lost its node (history and
    flag), and every other frame keeps its node and its place. *)
Theorem Evict_removes_victim r :
  consistent r ->
  exists r' o, Evict undef r = (r', o)
    /\ (o = None <-> evictable_list_ r = [])
    /\ (o = None -> r' = r)
    /\ (forall f, o = Some f ->
          f ∈ evictable_list_ r
          /\ consistent r'
          /\ (forall g, g ∈ evictable_list_ r' <-> g ∈ evictable_list_ r /\ g <> f)
          /\ node_at (node_store_ r') f = default_node
          /\ (forall g, g <> f ->
                node_at (node_store_ r') g = node_at (node_store_ r) g)
          /\ current_timestamp_ r' = current_timestamp_ r).
Proof.
  intros Hc. destruct (Evict undef r) as [r' [f|]] eqn:Hev.
  - destruct (Evict_consistent undef r r' f Hc Hev)
      as (Hin & Hc' & Hmem & _ & _ & Hts & Hn).
    exists r', (Some f). split; [done|]. split; [|split; [done|]].
    + split; [done|]. intros Hnil. rewrite Hnil in Hin. by apply elem_of_nil in Hin.
    + intros ? [= <-]. split_and!; try done.
      * rewrite Hn. by rewrite decide_True.
      * intros g Hg. rewrite Hn. by rewrite decide_False.
  - apply Evict_None in Hev as [-> Hnil]. exists r, None.
    split; [done|]. split; [done|]. split; [done|]. intros ? [=].
Qed.

(** With [k_ = 1] the rule is LRU. *)
Lemma back_singleton f x : back undef f [x] = x.
Proof. reflexivity. Qed.

(** X12: with [k_ = 1], histories of one entry at most and every
    evictable frame accessed at least once, [Evict] returns the
    evictable frame whose last access is oldest. *)
Theorem Evict_k1_is_LRU r :
  k_ r = 1 -> bounded r -> evictable_list_ r <> [] ->
  (forall g, g ∈ evictable_list_ r -> history_ (node_at (node_store_ r) g) <> []) ->
  exists r' f, Evict undef r = (r', Some f)
    /\ f ∈ evictable_list_ r
    /\ forall g, g ∈ evictable_list_ r ->
         front undef f (history_ (node_at (node_store_ r) f))
         <= front undef g (history_ (node_at (node_store_ r) g)).
Proof.
  intros Hk [_ Hb] Hne Hacc.
  assert (Hone : forall g, g ∈ evictable_list_ r ->
            exists x, history_ (node_at (node_store_ r) g) = [x]).
  { intros g Hg. specialize (Hacc g Hg). unfold node_at in *.
    destruct (node_store_ r !! g) as [nd|] eqn:E; simpl in *; [|done].
    specialize (Hb g nd E). simpl in Hb. rewrite Hk in Hb.
    destruct (history_ nd) as [|x [|y h]]; [done|eauto|simpl in Hb; lia]. }
  destruct (Evict_full_histories r Hne) as (r' & f & Hev & Hin & Hmin).
  { intros g Hg. destruct (Hone g Hg) as [x Hx].
    unfold fewer_than_k. rewrite Hx, Hk. reflexivity. }
  exists r', f. split; [done|]. split; [done|].
  intros g Hg. specialize (Hmin g Hg).
  destruct (Hone f Hin) as [x Hx]. destruct (Hone g Hg) as [y Hy].
  rewrite Hx, Hy in *. exact Hmin.
Qed.
End WithUndef.

(** *** The bookkeeping *)

Lemma frame_in_range r f :
  is_frame_id f -> replacer_size_ r <= 2 ^ 31 ->
  (replacer_size_ r <=? to_size_t f) = false -> 0 <= f < replacer_size_ r.
Proof.
  intros [Hlo Hhi] Hsz Hle%Z.leb_gt. unfold to_size_t in Hle.
  destruct (decide (0 <= f)) as [H0|H0].
  - rewrite Z.mod_small in Hle by lia. lia.
  - assert (E : f mod 2 ^ 64 = f + 2 ^ 64).
    { rewrite <- (Z_mod_plus_full f 1). apply Z.mod_small. lia. }
    lia.
Qed.

Lemma NoDup_bounded_length l n :
  0 <= n -> NoDup l -> Forall (fun f => 0 <= f < n) l -> Z.of_nat (length l) <= n.
Proof.
  intros Hn Hnd Hall. rewrite Forall_forall in Hall.
  assert (Hsub : l ⊆+ seqZ 0 n).
  { apply NoDup_submseteq; [done|]. intros y Hy. apply elem_of_seqZ.
    specialize (Hall y Hy). lia. }
  apply submseteq_length in Hsub. rewrite length_seqZ in Hsub. lia.
Qed.

Lemma length_filter_remove l f :
  NoDup l -> f ∈ l -> S (length (filter (fun x => x <> f) l)) = length l.
Proof.
  induction l as [|x l IH]; intros Hnd Hin; [by apply elem_of_nil in Hin|].
  apply NoDup_cons in Hnd as [Hx Hnd].
  destruct (decide (x = f)) as [->|Hne].
  - rewrite filter_cons_False by (intros ?; done). simpl. f_equal.
    f_equal. clear IH Hin Hnd. induction l as [|y l IHl]; [done|].
    apply not_elem_of_cons in Hx as [Hy Hx].
    rewrite filter_cons_True by done. simpl. f_equal. by apply IHl.
  - rewrite filter_cons_True by done. simpl. f_equal. apply IH; [done|].
    apply elem_of_cons in Hin as [->|Hin]; done.
Qed.

Lemma to_size_t_small z : 0 <= z < 2 ^ 64 -> to_size_t z = z.
Proof. intros Hz. unfold to_size_t. by apply Z.mod_small. Qed.

Lemma sized_RecordAccess f r r' :
  sized r -> RecordAccess f r = Ret r' -> sized r'.
Proof.
  intros (Hc & Hsz & Hall & Hn). unfold RecordAccess.
  destruct (replacer_size_ r <=? to_size_t f); [done|]. intros [= <-].
  unfold sized; simpl. split_and!; try done; try lia.
  apply consistent_iff in Hc as [Hnd Hiff]. apply consistent_iff; simpl.
  split; [done|]. intros g. rewrite node_at_insert.
  destruct (decide (g = f)) as [->|]; [|apply Hiff]. simpl. apply Hiff.
Qed.

Lemma sized_SetEvictable f e r r' :
  is_frame_id f -> sized r -> SetEvictable f e r = Ret r' -> sized r'.
Proof.
  intros Hf (Hc & Hsz & Hall & Hn) Hset.
  assert (Hrange : 0 <= f < replacer_size_ r).
  { unfold SetEvictable in Hset.
    destruct (replacer_size_ r <=? to_size_t f) eqn:E; [done|].
    apply frame_in_range; [done|lia|done]. }
  destruct (SetEvictable_consistent f e r) as (r'' & Hr'' & Hc' & Hmem & Hrs & _);
    [rewrite to_size_t_small; lia|done|].
  rewrite Hset in Hr''. injection Hr'' as <-.
  pose proof Hc as [Hnd Hiff]%consistent_iff.
  pose proof (NoDup_bounded_length _ _ (proj1 Hn) Hnd Hall) as Hlen.
  unfold sized. rewrite Hrs. split; [done|]. split; [|split; [|done]].
  - unfold SetEvictable in Hset.
    destruct (replacer_size_ r <=? to_size_t f); [done|].
    destruct e; simpl in Hset.
    + destruct (is_evictable_ (node_at (node_store_ r) f)) eqn:Hflag;
        simpl in Hset; injection Hset as <-; simpl; [done|].
      assert (Hnf : f ∉ evictable_list_ r).
      { intros Hin%Hiff. congruence. }
      assert (Hlen' : Z.of_nat (length (evictable_list_ r ++ [f])) <= replacer_size_ r).
      { apply NoDup_bounded_length; [lia| |].
        - apply NoDup_app. split; [done|]. split; [|apply NoDup_singleton].
          intros x Hx ->%list_elem_of_singleton. done.
        - apply Forall_app. split; [done|]. by apply Forall_singleton. }
      rewrite length_app in *. simpl in *. rewrite to_size_t_small; lia.
    + destruct (is_evictable_ (node_at (node_store_ r) f)) eqn:Hflag;
        simpl in Hset; injection Hset as <-; simpl; [|done].
      assert (Hin : f ∈ evictable_list_ r) by (by apply Hiff).
      pose proof (length_filter_remove _ _ Hnd Hin) as Hl.
      rewrite to_size_t_small; lia.
  - rewrite Forall_forall in Hall |- *. intros g Hg%Hmem.
    destruct (decide (g = f)) as [->|]; [done|by apply Hall].
Qed.

Lemma sized_Evict undef r : sized r -> sized (Evict undef r).1.
Proof.
  intros (Hc & Hsz & Hall & Hn).
  destruct (Evict undef r) as [r' [f|]] eqn:Hev; simpl.
  - destruct (Evict_consistent undef r r' f Hc Hev) as (Hin & Hc' & Hmem & Hrs & _).
    apply Evict_Some in Hev as (i & ns & Hl & _ & ->).
    unfold sized. split; [done|]. simpl. split; [|split; [|done]].
    + rewrite length_delete by eauto.
      pose proof (lookup_lt_Some _ _ _ Hl) as Hlt.
      pose proof (NoDup_bounded_length _ _ (proj1 Hn)
                    (proj1 (proj1 (consistent_iff r) Hc)) Hall) as Hlen.
      rewrite to_size_t_small; lia.
    + rewrite Forall_forall in Hall |- *. intros g Hg.
      apply Hall. by eapply list_elem_of_delete_inv.
  - apply Evict_None in Hev as [-> _]. done.
Qed.

Lemma sized_Remove f r r' : sized r -> Remove f r = Ret r' -> sized r'.
Proof.
  intros (Hc & Hsz & Hall & Hn). unfold Remove.
  destruct (replacer_size_ r <=? to_size_t f); [done|].
  destruct (node_store_ r !! f) as [node|] eqn:Hnode; [|done].
  destruct (is_evictable_ node) eqn:Hflag; [|done]. simpl. intros [= <-].
  apply consistent_iff in Hc as [Hnd Hiff].
  assert (Hin : f ∈ evictable_list_ r).
  { apply Hiff. unfold node_at. by rewrite Hnode. }
  unfold sized; simpl. split; [|split; [|split; [|done]]].
  - apply consistent_iff; simpl. split; [by apply NoDup_filter|].
    intros g. rewrite list_elem_of_filter, node_at_delete.
    destruct (decide (g = f)) as [->|Hne]; simpl; [split; [tauto|done]|].
    rewrite Hiff. tauto.
  - pose proof (length_filter_remove _ _ Hnd Hin) as Hl.
    pose proof (NoDup_bounded_length _ _ (proj1 Hn) Hnd Hall) as Hlen.
    rewrite to_size_t_small; lia.
  - rewrite Forall_forall in Hall |- *. intros g [_ Hg]%list_elem_of_filter.
    by apply Hall.
Qed.

Lemma sized_after undef r c : sized r -> rcall_frame_ok c -> sized (after undef r c).
Proof.
  intros Hs Hc. destruct c as [f|f e| |f]; simpl in *.
  - destruct (RecordAccess f r) as [r'| |] eqn:E; [|done|done].
    by eapply sized_RecordAccess.
  - destruct (SetEvictable f e r) as [r'| |] eqn:E; [|done|done].
    by eapply sized_SetEvictable.
  - by apply sized_Evict.
  - destruct (Remove f r) as [r'| |] eqn:E; [|done|done].
    by eapply sized_Remove.
Qed.

(** X13: after any sequence of [RecordAccess], [SetEvictable], [Evict]
    and [Remove] calls on a fresh replacer of at most 2^31 frames,
    [Size()] is the length of the evictable list, which holds no frame
    twice and holds exactly the frames whose node is flagged evictable. *)
Theorem Size_counts_evictable undef num_frames k cs :
  0 <= num_frames <= 2 ^ 31 ->
  Forall rcall_frame_ok cs ->
  let r := after_all undef (new_replacer num_frames k) cs in
  Size r = Z.of_nat (length (evictable_list_ r))
  /\ NoDup (evictable_list_ r)
  /\ forall f, f ∈ evictable_list_ r
               <-> is_evictable_ (node_at (node_store_ r) f) = true.
Proof.
  intros Hn Hcs.
  assert (Hs : sized (after_all undef (new_replacer num_frames k) cs)).
  { unfold after_all.
    assert (H0 : sized (new_replacer num_frames k)).
    { unfold sized, consistent; simpl.
      split; [|split; [done|split; [constructor|lia]]].
      split; [constructor|]. split; [constructor|].
      apply map_Forall_empty. }
    revert H0. generalize (new_replacer num_frames k).
    induction Hcs as [|c cs Hc Hcs IH]; intros r Hr; simpl; [done|].
    apply IH. by apply sized_after. }
  destruct Hs as (Hc & Hsz & _). apply consistent_iff in Hc as [Hnd Hiff].
  simpl. by split_and!.
Qed.

(** *** Histories *)

Lemma bounded_node_at r :
  bounded r <->
  0 <= k_ r
  /\ forall g, Z.of_nat (length (history_ (node_at (node_store_ r) g))) <= k_ r.
Proof.
  unfold bounded. split; intros [Hk Hb]; (split; [done|]).
  - intros g. unfold node_at. destruct (node_store_ r !! g) as [nd|] eqn:E; simpl.
    + by apply (Hb g nd).
    + lia.
  - intros g nd E. specialize (Hb g). unfold node_at in Hb. by rewrite E in Hb.
Qed.

Lemma removelast_take (h : list Z) : removelast h = take (pred (length h)) h.
Proof. apply List.removelast_firstn_len. Qed.

(** X14: on a replacer whose histories are no longer than [k_],
    [RecordAccess] of a frame in range puts the current timestamp in
    front of the history of the frame and keeps the [k_] newest entries;
    it advances the timestamp by one, keeps the evictable flag of the
    frame, and changes no other frame, nor the evictable list, nor
    [Size()]. *)
Theorem RecordAccess_keeps_k_newest f r :
  bounded r -> to_size_t f < replacer_size_ r ->
  exists r', RecordAccess f r = Ret r'
    /\ history_ (node_at (node_store_ r') f)
       = take (Z.to_nat (k_ r))
           (current_timestamp_ r :: history_ (node_at (node_store_ r) f))
    /\ is_evictable_ (node_at (node_store_ r') f)
       = is_evictable_ (node_at (node_store_ r) f)
    /\ (forall g, g <> f -> node_at (node_store_ r') g = node_at (node_store_ r) g)
    /\ current_timestamp_ r' = to_size_t (current_timestamp_ r + 1)
    /\ evictable_list_ r' = evictable_list_ r
    /\ Size r' = Size r
    /\ bounded r'.
Proof.
  intros Hb Hf. pose proof Hb as [Hk Hlen]%bounded_node_at.
  unfold RecordAccess. rewrite (proj2 (Z.leb_gt _ _)) by done.
  eexists; split; [reflexivity|]. cbv zeta.
  set (old := history_ (node_at (node_store_ r) f)).
  assert (Hnew : (if k_ r <? Z.of_nat (length (current_timestamp_ r :: old))
                  then removelast (current_timestamp_ r :: old)
                  else current_timestamp_ r :: old)
                 = take (Z.to_nat (k_ r)) (current_timestamp_ r :: old)).
  { specialize (Hlen f). fold old in Hlen.
    destruct (k_ r <? _) eqn:E.
    - apply Z.ltb_lt in E. rewrite removelast_take. f_equal.
      simpl length in *. lia.
    - apply Z.ltb_ge in E. symmetry. apply take_ge. lia. }
  rewrite Hnew. unfold Size. cbn [node_store_ current_timestamp_ evictable_list_ curr_size_ k_].
  split_and!; try done.
  - by rewrite node_at_insert, decide_True.
  - by rewrite node_at_insert, decide_True.
  - intros g Hg. by rewrite node_at_insert, decide_False.
  - apply bounded_node_at; simpl. split; [done|]. intros g.
    rewrite node_at_insert. destruct (decide (g = f)); [|apply Hlen]. simpl.
    rewrite length_take. lia.
Qed.

(** *** [Remove] and [SetEvictable] *)

Lemma Remove_consistent f r r' :
  consistent r -> Remove f r = Ret r' ->
  to_size_t f < replacer_size_ r
  /\ f ∈ evictable_list_ r
  /\ consistent r'
  /\ (forall g, g ∈ evictable_list_ r' <-> g ∈ evictable_list_ r /\ g <> f)
  /\ (forall g, node_at (node_store_ r') g
               = if decide (g = f) then default_node else node_at (node_store_ r) g)
  /\ replacer_size_ r' = replacer_size_ r
  /\ k_ r' = k_ r
  /\ current_timestamp_ r' = current_timestamp_ r
  /\ curr_size_ r' = to_size_t (curr_size_ r - 1).
Proof.
  intros Hc. unfold Remove.
  destruct (replacer_size_ r <=? to_size_t f) eqn:Hle; [done|].
  apply Z.leb_gt in Hle.
  destruct (node_store_ r !! f) as [node|] eqn:Hnode; [|done].
  destruct (is_evictable_ node) eqn:Hflag; [|done]. simpl. intros [= <-].
  apply consistent_iff in Hc as [Hnd Hiff].
  assert (Hin : f ∈ evictable_list_ r).
  { apply Hiff. unfold node_at. by rewrite Hnode. }
  simpl. split; [done|]. split; [done|].
  assert (Hmem : forall g, g ∈ filter (fun x => x <> f) (evictable_list_ r)
                           <-> g ∈ evictable_list_ r /\ g <> f).
  { intros g. rewrite list_elem_of_filter. tauto. }
  split; [|split; [done|split; [|done]]].
  - apply consistent_iff; simpl. split; [by apply NoDup_filter|].
    intros g. rewrite Hmem, node_at_delete.
    destruct (decide (g = f)) as [->|Hne]; simpl; [split; [tauto|done]|].
    rewrite Hiff. tauto.
  - intros g. apply node_at_delete.
Qed.

Lemma Remove_core f r :
  consistent r ->
  (Remove f r = Throw
     <-> replacer_size_ r <= to_size_t f \/ f ∉ evictable_list_ r)
  /\ (forall r', Remove f r = Ret r' ->
        (forall g, g ∈ evictable_list_ r' <-> g ∈ evictable_list_ r /\ g <> f)
        /\ node_store_ r' !! f = None
        /\ (forall g, g <> f -> node_store_ r' !! g = node_store_ r !! g)
        /\ NoDup (evictable_list_ r')
        /\ current_timestamp_ r' = current_timestamp_ r)
  /\ Remove f r <> Fault.
Proof.
  intros Hc. pose proof Hc as [Hnd Hiff]%consistent_iff.
  split; [|split].
  - unfold Remove.
    destruct (replacer_size_ r <=? to_size_t f) eqn:Hle.
    + apply Z.leb_le in Hle. split; auto.
    + apply Z.leb_gt in Hle. rewrite Hiff. unfold node_at.
      destruct (node_store_ r !! f) as [node|] eqn:Hnode; simpl.
      * destruct (is_evictable_ node); simpl.
        -- split; [done|]. intros [?|?]; [lia|done].
        -- split; [|done]. intros _. right. done.
      * split; [|done]. intros _. right. done.
  - intros r' Hr'.
    destruct (Remove_consistent f r r' Hc Hr') as (_ & _ & Hc' & Hmem & _ & _ & _ & Hts & _).
    split; [done|]. split_and!; try done.
    + revert Hr'. unfold Remove. repeat case_match; try done.
      intros [= <-]. simpl. apply lookup_delete_eq.
    + intros g Hg. revert Hr'. unfold Remove. repeat case_match; try done.
      intros [= <-]. simpl. by apply lookup_delete_ne.
    + by apply consistent_iff in Hc' as [? _].
  - unfold Remove. repeat case_match; done.
Qed.

(** X15: on a replacer with consistent bookkeeping, [Remove] throws
    exactly when the frame id is out of range or the frame is not in the
    evictable list; otherwise it takes the frame, and only that frame,
    out of the evictable list and forgets its node with its history. *)
Theorem Remove_throws_iff f r :
  consistent r ->
  (Remove f r = Throw
     <-> replacer_size_ r <= to_size_t f \/ f ∉ evictable_list_ r)
  /\ (forall r', Remove f r = Ret r' ->
        (forall g, g ∈ evictable_list_ r' <-> g ∈ evictable_list_ r /\ g <> f)
        /\ node_store_ r' !! f = None
        /\ (forall g, g <> f -> node_store_ r' !! g = node_store_ r !! g)
        /\ NoDup (evictable_list_ r')
        /\ current_timestamp_ r' = current_timestamp_ r)
  /\ Remove f r <> Fault.
Proof. apply Remove_core. Qed.

(** X16: a second [SetEvictable] with the same frame and the same flag
    changes nothing. *)
Theorem SetEvictable_twice f e r r' :
  SetEvictable f e r = Ret r' -> SetEvictable f e r' = Ret r'.
Proof.
  unfold SetEvictable.
  destruct (replacer_size_ r <=? to_size_t f) eqn:Hle; [done|].
  set (node := node_at (node_store_ r) f).
  destruct (if e && negb (is_evictable_ node) then _ else _) as [l n] eqn:Hln.
  intros [= <-]. simpl. rewrite Hle. rewrite node_at_insert, decide_True by done.
  simpl. rewrite andb_negb_r.
  replace (negb e && e) with false by (by destruct e).
  by rewrite insert_insert_eq.
Qed.
End ReplacerMore.

(** ** The buffer pool *)

Section PoolMore.
Import Replacer BufferPool.

Lemma pool_SetEvictable_frame f e b b' :
  pool_SetEvictable f e b = Ret b' -> b' = set_replacer (replacer_ b') b.
Proof.
  unfold pool_SetEvictable. destruct (SetEvictable f e (replacer_ b)); simpl; [|done|done].
  by intros [= <-].
Qed.

Lemma pool_size_update_page f g b : pool_size_ (update_page f g b) = pool_size_ b.
Proof. apply update_page_fields. Qed.
Lemma replacer_update_page f g b : replacer_ (update_page f g b) = replacer_ b.
Proof. apply update_page_fields. Qed.
Lemma disk_scheduler_update_page f g b :
  disk_scheduler_ (update_page f g b) = disk_scheduler_ b.
Proof. apply update_page_fields. Qed.
Lemma page_table_update_page f g b : page_table_ (update_page f g b) = page_table_ b.
Proof. apply update_page_fields. Qed.
Lemma free_list_update_page f g b : free_list_ (update_page f g b) = free_list_ b.
Proof. apply update_page_fields. Qed.
Lemma free_pages_update_page f g b : free_pages_ (update_page f g b) = free_pages_ b.
Proof. apply update_page_fields. Qed.
Lemma next_page_id_update_page f g b :
  next_page_id_ (update_page f g b) = next_page_id_ b.
Proof. apply update_page_fields. Qed.

Ltac frame :=
  cbn [pool_size_ replacer_ disk_scheduler_ page_table_ free_list_ free_pages_
       next_page_id_ set_replacer set_disk_scheduler set_page_table set_free_list
       set_free_pages set_next_page_id schedule DeallocatePage] in *;
  rewrite ?pool_size_update_page, ?replacer_update_page, ?disk_scheduler_update_page,
    ?page_table_update_page, ?free_list_update_page, ?free_pages_update_page,
    ?next_page_id_update_page in *;
  cbn [pool_size_ replacer_ disk_scheduler_ page_table_ free_list_ free_pages_
       next_page_id_ set_replacer set_disk_scheduler set_page_table set_free_list
       set_free_pages set_next_page_id schedule DeallocatePage] in *.

Lemma FetchPage_install_frame page_id f b b' o :
  FetchPage_install page_id f b = Ret (b', o) ->
  o = Some f
  /\ pool_size_ b' = pool_size_ b
  /\ page_table_ b' = page_table_ b
  /\ free_list_ b' = free_list_ b
  /\ free_pages_ b' = free_pages_ b
  /\ next_page_id_ b' = next_page_id_ b
  /\ Disk.request_queue_ (disk_scheduler_ b')
     = Disk.request_queue_ (disk_scheduler_ b) ++ [Disk.mkDiskRequest false f page_id].
Proof.
  unfold FetchPage_install.
  destruct (pool_SetEvictable f false _) as [b1| |] eqn:E; cbn [bind]; [|done|done].
  intros [= <- <-]. apply pool_SetEvictable_frame in E. rewrite E.
  repeat frame. done.
Qed.

Lemma FetchPage_frame undef page_id b b' o :
  FetchPage undef page_id b = Ret (b', o) ->
  pool_size_ b' = pool_size_ b
  /\ page_table_ b' = page_table_ b
  /\ free_pages_ b' = free_pages_ b
  /\ next_page_id_ b' = next_page_id_ b
  /\ (o = None <->
        all_pined b = true
        \/ (page_table_ b !! page_id = None /\ free_list_ b = []
            /\ evictable_list_ (replacer_ b) = []))
  /\ (o = None -> b' = b)
  /\ Disk.request_queue_ (disk_scheduler_ b')
     = Disk.request_queue_ (disk_scheduler_ b)
       ++ match o, page_table_ b !! page_id with
          | Some f, None => [Disk.mkDiskRequest false f page_id]
          | _, _ => []
          end.
Proof.
  unfold FetchPage. destruct (all_pined b) eqn:Hap.
  { intros [= <- <-]. rewrite app_nil_r. split_and!; try done. split; auto. }
  destruct (page_table_ b !! page_id) as [f|] eqn:Hpt.
  { destruct (pool_SetEvictable f false _) as [b1| |] eqn:E; simpl; [|done|done].
    intros [= <- <-]. apply pool_SetEvictable_frame in E. rewrite E.
    repeat frame. rewrite app_nil_r.
    split_and!; try done. split; [done|]. intros [?|(? & _)]; done. }
  destruct (free_list_ b) as [|f rest] eqn:Hfl.
  - destruct (Evict undef (replacer_ b)) as [r [f|]] eqn:Hev.
    + intros Hi. apply FetchPage_install_frame in Hi
        as (-> & Hps & Hptb & _ & Hfp & Hnp & Hq).
      apply Evict_Some in Hev as (i & ns & Hl & _ & _).
      assert (Hne : evictable_list_ (replacer_ b) <> []).
      { intros Hnil. by rewrite Hnil in Hl. }
      destruct (is_dirty_ (page_at (set_replacer r b) f)) eqn:Hd.
      * repeat frame.
        split_and!; try done. split; [done|]. intros [?|(_ & _ & ?)]; done.
      * repeat frame. split_and!; try done. split; [done|]. intros [?|(_ & _ & ?)]; done.
    + apply Evict_None in Hev as [-> Hnil]. intros [= <- <-].
      rewrite set_replacer_id, app_nil_r. split_and!; try done. split; auto.
  - intros Hi. apply FetchPage_install_frame in Hi
      as (-> & Hps & Hptb & _ & Hfp & Hnp & Hq). repeat frame.
    split_and!; try done. split; [done|]. intros [?|(_ & ? & _)]; done.
Qed.

Lemma page_at_below_INT_MAX b f :
  wf b -> in_pool b f -> pins_below_INT_MAX b -> pin_count_ (page_at b f) < INT_MAX.
Proof.
  intros Hwf Hf Hpins. pose proof (in_pool_pages b f Hwf Hf) as [H0 H1].
  unfold page_at. rewrite (proj2 (Z.leb_le _ _) H0).
  destruct (lookup_lt_is_Some_2 (pages_ b) (Z.to_nat f)) as [pg Hpg]; [lia|].
  rewrite Hpg. simpl. exact (proj1 (Forall_lookup _ _) Hpins _ _ Hpg).
Qed.

(** X17: on a well-formed pool with no pin count at [INT_MAX],
    [FetchPage] returns, never throwing.  It returns [nullptr] exactly
    when every frame is pinned, or the page is not in the page table, the
    free list is empty and no frame is evictable; the pool is then
    unchanged.  The frame it returns has its pin count raised by one,
    without overflow.  In every case it leaves the page table, the freed
    page ids and [next_page_id_] as they were, and it puts at most one
    request on the disk queue: a read of [page_id], on a miss. *)
Theorem FetchPage_returns_nullptr_iff undef page_id b :
  wf b -> pins_below_INT_MAX b ->
  exists b' ret, FetchPage undef page_id b = Ret (b', ret)
    /\ wf b'
    /\ (ret = None <->
          all_pined b = true
          \/ (page_table_ b !! page_id = None /\ free_list_ b = []
              /\ evictable_list_ (replacer_ b) = []))
    /\ (ret = None -> b' = b)
    /\ (forall f, ret = Some f ->
          pin_count_ (page_at b' f) = pin_count_ (page_at b f) + 1
          /\ pin_count_ (page_at b' f) <= INT_MAX)
    /\ page_table_ b' = page_table_ b
    /\ free_pages_ b' = free_pages_ b
    /\ next_page_id_ b' = next_page_id_ b
    /\ Disk.request_queue_ (disk_scheduler_ b')
       = Disk.request_queue_ (disk_scheduler_ b)
         ++ match ret, page_table_ b !! page_id with
            | Some f, None => [Disk.mkDiskRequest false f page_id]
            | _, _ => []
            end.
Proof.
  intros Hwf Hpins.
  destruct (FetchPage_core undef page_id b Hwf) as (b' & ret & Hres & Hwf' & _ & Hpost).
  destruct (FetchPage_frame undef page_id b b' ret Hres)
    as (_ & Hpt & Hfp & Hnp & Hiff & Hsame & Hq).
  exists b', ret. split; [done|]. split; [done|]. split; [done|]. split; [done|].
  split; [|done].
  intros f Hf. destruct (Hpost f Hf) as (Hin & Hpin & _).
  pose proof (page_at_below_INT_MAX b f Hwf Hin Hpins). split; [done|lia].
Qed.

(** What the operations of the pool do to the replacer: they call
    [Evict] and [SetEvictable] and nothing else, and they keep
    [pool_size_]. *)
Section ReplacerInvariant.
Variable undef : Z -> Z.
Variable I : LRUKReplacer -> Prop.
Hypothesis I_Evict : forall r, I r -> I (Evict undef r).1.
Hypothesis I_SetEvictable :
  forall f e r r', I r -> SetEvictable f e r = Ret r' -> I r'.

Lemma kept_pool_SetEvictable f e b0 b b' :
  kept I b0 b -> pool_SetEvictable f e b = Ret b' -> kept I b0 b'.
Proof.
  intros [Hps HI]. unfold pool_SetEvictable.
  destruct (SetEvictable f e (replacer_ b)) as [r| |] eqn:E; cbn [bind]; [|done|done].
  intros [= <-]. split; [done|]. intros H0. simpl. eauto.
Qed.

Lemma kept_same b0 b b' :
  kept I b0 b -> pool_size_ b' = pool_size_ b -> replacer_ b' = replacer_ b ->
  kept I b0 b'.
Proof. intros [Hps HI] Hp Hr. split; [congruence|]. by rewrite Hr. Qed.

Lemma kept_NewPage_install f b0 b res :
  kept I b0 b -> NewPage_install f b = Ret res -> kept I b0 (np_pool res).
Proof.
  intros Hk. unfold NewPage_install.
  pose proof (AllocatePage_fields b) as (Hps & _ & Hr & _).
  destruct (AllocatePage b) as [b1 pid]. simpl in Hps, Hr.
  assert (Hk1 : kept I b0 b1) by (by apply (kept_same b0 b)).
  destruct (pool_size_ b1 <=? to_size_t pid); [by intros [= <-]|].
  destruct (pool_SetEvictable f false _) as [b2| |] eqn:E; cbn [bind]; [|done|done].
  intros [= <-]. simpl.
  eapply kept_pool_SetEvictable in E.
  - eapply kept_same; [exact E|done|done].
  - eapply kept_same; [exact Hk1| |]; repeat frame;
      destruct (page_table_ b1 !! pid); by repeat frame.
Qed.

Lemma kept_Evict b r o : Evict undef (replacer_ b) = (r, o) -> kept I b (set_replacer r b).
Proof.
  intros E. split; [done|]. intros H0. simpl.
  pose proof (I_Evict _ H0) as H1. by rewrite E in H1.
Qed.

Lemma kept_refl b : kept I b b.
Proof. by split. Qed.

Lemma kept_NewPage b res : NewPage undef b = Ret res -> kept I b (np_pool res).
Proof.
  unfold NewPage. destruct (all_pined b); [intros [= <-]; apply kept_refl|].
  destruct (free_list_ b) as [|f rest].
  - destruct (Evict undef (replacer_ b)) as [r [f|]] eqn:E.
    + apply kept_NewPage_install. apply kept_Evict in E.
      eapply kept_same; [exact E| |];
        destruct (is_dirty_ (page_at (set_replacer r b) f)); by repeat frame.
    + intros [= <-]. simpl. by eapply kept_Evict.
  - apply kept_NewPage_install. by eapply kept_same; [apply kept_refl| |].
Qed.

Lemma kept_FetchPage_install p f b0 b b' o :
  kept I b0 b -> FetchPage_install p f b = Ret (b', o) -> kept I b0 b'.
Proof.
  intros Hk. unfold FetchPage_install.
  destruct (pool_SetEvictable f false _) as [b2| |] eqn:E; cbn [bind]; [|done|done].
  intros [= <- <-]. eapply kept_pool_SetEvictable in E; [exact E|].
  eapply kept_same; [exact Hk| |]; by repeat frame.
Qed.

Lemma kept_FetchPage p b b' o : FetchPage undef p b = Ret (b', o) -> kept I b b'.
Proof.
  unfold FetchPage. destruct (all_pined b); [intros [= <- <-]; apply kept_refl|].
  destruct (page_table_ b !! p) as [f|].
  { destruct (pool_SetEvictable f false _) as [b2| |] eqn:E; cbn [bind]; [|done|done].
    intros [= <- <-]. eapply kept_pool_SetEvictable in E; [exact E|].
    eapply kept_same; [apply kept_refl| |]; by repeat frame. }
  destruct (free_list_ b) as [|f rest].
  - destruct (Evict undef (replacer_ b)) as [r [f|]] eqn:E.
    + apply kept_FetchPage_install. apply kept_Evict in E.
      eapply kept_same; [exact E| |];
        destruct (is_dirty_ (page_at (set_replacer r b) f)); by repeat frame.
    + intros [= <- <-]. by eapply kept_Evict.
  - apply kept_FetchPage_install. by eapply kept_same; [apply kept_refl| |].
Qed.

Lemma kept_UnpinPage p d b b' ok : UnpinPage p d b = Ret (b', ok) -> kept I b b'.
Proof.
  unfold UnpinPage. destruct (page_table_ b !! p) as [f|];
    [|intros [= <- <-]; apply kept_refl].
  destruct (pin_count_ (page_at b f) <=? 0); [intros [= <- <-]; apply kept_refl|].
  set (b1 := if d then _ else _).
  assert (Hk1 : kept I b b1).
  { eapply kept_same; [apply kept_refl| |]; unfold b1; destruct d; by repeat frame. }
  clearbody b1. destruct (pin_count_ (page_at b1 f) =? 0).
  - destruct (pool_SetEvictable f true b1) as [b2| |] eqn:E; cbn [bind]; [|done|done].
    intros [= <- <-]. by eapply kept_pool_SetEvictable in E.
  - cbn [bind]. by intros [= <- <-].
Qed.

Lemma kept_FlushPage p b : kept I b (FlushPage p b).1.
Proof.
  unfold FlushPage. destruct (page_table_ b !! p) as [f|]; [|apply kept_refl].
  cbv zeta. cbn [fst].
  eapply kept_same; [apply kept_refl| |];
    destruct (is_dirty_ (page_at b f)); by repeat frame.
Qed.

Lemma kept_step b c b' : step undef b c = Ret b' -> kept I b b'.
Proof.
  destruct c as [|p|p d|p]; simpl.
  - destruct (NewPage undef b) as [res| |] eqn:E; cbn [bind]; [|done|done].
    intros [= <-]. by apply kept_NewPage.
  - destruct (FetchPage undef p b) as [[b1 o]| |] eqn:E; cbn [bind]; [|done|done].
    intros [= <-]. by eapply kept_FetchPage.
  - destruct (UnpinPage p d b) as [[b1 o]| |] eqn:E; cbn [bind]; [|done|done].
    intros [= <-]. by eapply kept_UnpinPage.
  - intros [= <-]. apply kept_FlushPage.
Qed.

Lemma kept_run cs : forall b b', run undef b cs = Ret b' -> kept I b b'.
Proof.
  unfold run. induction cs as [|c cs IH] using rev_ind; intros b b'.
  - intros [= <-]. apply kept_refl.
  - rewrite foldl_app. simpl.
    destruct (foldl _ (Ret b) cs) as [b1| |] eqn:E; cbn [bind]; [|done|done].
    intros Hs. apply kept_step in Hs as [Hps HI].
    destruct (IH b b1 E) as [Hps1 HI1]. split; [congruence|auto].
Qed.
End ReplacerInvariant.

Lemma no_history_node_at r :
  no_history r <->
  current_timestamp_ r = 0 /\ forall g, history_ (node_at (node_store_ r) g) = [].
Proof.
  unfold no_history. split; intros [Hts Hh]; (split; [done|]).
  - intros g. unfold node_at. destruct (node_store_ r !! g) as [nd|] eqn:E; simpl; [|done].
    by apply (Hh g nd).
  - intros g nd E. specialize (Hh g). unfold node_at in Hh. by rewrite E in Hh.
Qed.

Lemma no_history_Evict undef r : no_history r -> no_history (Evict undef r).1.
Proof.
  intros [Hts Hh]%no_history_node_at.
  destruct (Evict undef r) as [r' [f|]] eqn:Hev; simpl.
  - apply Evict_Some in Hev as (i & ns & _ & Hns & ->).
    apply no_history_node_at. simpl. split; [done|]. intros g.
    rewrite node_at_delete. destruct (decide (g = f)); [done|]. rewrite Hns. apply Hh.
  - apply Evict_None in Hev as [-> _]. by apply no_history_node_at.
Qed.

Lemma no_history_SetEvictable f e r r' :
  no_history r -> SetEvictable f e r = Ret r' -> no_history r'.
Proof.
  intros [Hts Hh]%no_history_node_at. unfold SetEvictable.
  destruct (replacer_size_ r <=? to_size_t f); [done|].
  destruct (if e && negb _ then _ else _) as [l n]. intros [= <-].
  apply no_history_node_at. simpl. split; [done|]. intros g.
  rewrite node_at_insert. destruct (decide (g = f)); [|apply Hh]. simpl. apply Hh.
Qed.

(** X19: the pool never records an access.  In every pool a script of
    [NewPage], [FetchPage], [UnpinPage] and [FlushPage] calls reaches from
    a fresh pool, the timestamp of the replacer is still 0 and every
    frame has an empty history; so with [k > 0] every frame counts as
    having fewer than [k] accesses. *)
Theorem pool_records_no_access undef page_size pool_size k cs b :
  run undef (init page_size pool_size k) cs = Ret b ->
  current_timestamp_ (replacer_ b) = 0
  /\ (forall f, history_ (node_at (node_store_ (replacer_ b)) f) = [])
  /\ k_ (replacer_ b) = k
  /\ (0 < k -> forall f, fewer_than_k (replacer_ b) f = true).
Proof.
  intros Hrun.
  pose proof (kept_run undef no_history (no_history_Evict undef)
                no_history_SetEvictable cs _ _ Hrun) as [_ Hnh].
  pose proof (kept_run undef (fun r => k_ r = k)) as Hk.
  destruct (Hk) with (cs := cs) (b := init page_size pool_size k) (b' := b) as [_ Hkb];
    [| |done|].
  { intros r Hr. destruct (Evict undef r) as [r' [f|]] eqn:Hev; simpl.
    - by apply Evict_Some in Hev as (i & ns & _ & _ & ->).
    - by apply Evict_None in Hev as [-> _]. }
  { intros f e r r' Hr. unfold SetEvictable.
    destruct (replacer_size_ r <=? to_size_t f); [done|].
    destruct (if e && negb _ then _ else _) as [l n]. by intros [= <-]. }
  assert (H0 : no_history (replacer_ (init page_size pool_size k))).
  { split; [done|]. apply map_Forall_empty. }
  apply Hnh, no_history_node_at in H0 as [Hts Hh].
  specialize (Hkb eq_refl).
  split; [done|]. split; [done|]. split; [done|].
  intros Hpos f. unfold fewer_than_k. rewrite Hh, Hkb. simpl. by apply Z.ltb_lt.
Qed.

(** X22: [FetchPage] never enters the page in the page table.  A page
    brought in on a miss is still not in the page table, so the pin
    [FetchPage] took cannot be released through the page id:
    [UnpinPage] returns [false], [FlushPage] returns [false] and
    [DeletePage] returns [true], each leaving the pool as it is. *)
Theorem FetchPage_miss_stays_unmapped undef page_id is_dirty b b' ret :
  page_table_ b !! page_id = None ->
  FetchPage undef page_id b = Ret (b', ret) ->
  page_table_ b' !! page_id = None
  /\ UnpinPage page_id is_dirty b' = Ret (b', false)
  /\ FlushPage page_id b' = (b', false)
  /\ DeletePage page_id b' = Ret (b', true).
Proof.
  intros Hpt Hf. apply FetchPage_frame in Hf as (_ & Hpt' & _).
  rewrite <- Hpt' in Hpt.
  unfold UnpinPage, FlushPage, DeletePage. by rewrite Hpt.
Qed.

(** *** The latch *)

Lemma Evict_no_frame undef r : evictable_list_ r = [] -> Evict undef r = (r, None).
Proof.
  intros Hnil. destruct (Evict undef r) as [r' [f|]] eqn:Hev.
  - apply Evict_Some in Hev as (i & ns & Hl & _). by rewrite Hnil in Hl.
  - by apply Evict_None in Hev as [-> _].
Qed.

Lemma NewPage_latch_core undef b :
  Latch.NewPage undef false b
  = if all_pined b then Latch.Returns (Ret (mkNewPage_result b None None))
    else if bool_decide (free_list_ b = [] /\ evictable_list_ (replacer_ b) = [])
         then Latch.Returns (Ret (mkNewPage_result b None None))
         else Latch.Deadlock.
Proof.
  unfold Latch.NewPage, Latch.lock_guard. destruct (all_pined b); [done|].
  destruct (free_list_ b) as [|f rest] eqn:Hfl.
  - destruct (Evict undef (replacer_ b)) as [r [f|]] eqn:Hev.
    + apply Evict_Some in Hev as (i & ns & Hl & _).
      rewrite bool_decide_false; [done|]. intros [_ Hnil]. by rewrite Hnil in Hl.
    + apply Evict_None in Hev as [-> Hnil].
      rewrite bool_decide_true by done. by rewrite set_replacer_id.
  - rewrite bool_decide_false; [done|]. by intros [? _].
Qed.

(** X20: [NewPage], as written on a [std::mutex], never returns a page.
    It returns [nullptr], with the pool and [*page_id] untouched, when
    every frame is pinned or when the free list is empty and no frame is
    evictable; in every other state it reaches [AllocatePage] with
    [latch_] locked by its own guard and does not return. *)
Theorem NewPage_returns_nullptr_or_blocks undef b :
  Latch.NewPage undef false b
  = (if all_pined b then Latch.Returns (Ret (mkNewPage_result b None None))
     else if bool_decide (free_list_ b = [] /\ evictable_list_ (replacer_ b) = [])
          then Latch.Returns (Ret (mkNewPage_result b None None))
          else Latch.Deadlock)
  /\ (forall o, Latch.NewPage undef false b = Latch.Returns o ->
        o = Ret (mkNewPage_result b None None)).
Proof.
  split; [apply NewPage_latch_core|].
  intros o. rewrite NewPage_latch_core.
  destruct (all_pined b); [congruence|]. case_bool_decide; congruence.
Qed.

(** X24: a call of the pool that returns on the [std::mutex] of the
    source returns what it returns on a re-entrant latch, the pool it
    leaves included; so what is proved of the returning calls of
    [BufferPool] holds of the source.  [FlushPage] returns only for a page
    that is not in the page table. *)
Theorem latch_returns_agree undef b :
  (forall o, Latch.NewPage undef false b = Latch.Returns o -> NewPage undef b = o)
  /\ (forall page_id o,
        Latch.FetchPage undef false page_id b = Latch.Returns o ->
        FetchPage undef page_id b = o)
  /\ (forall page_id is_dirty o,
        Latch.UnpinPage false page_id is_dirty b = Latch.Returns o ->
        UnpinPage page_id is_dirty b = o)
  /\ (forall page_id o,
        Latch.FlushPage false page_id b = Latch.Returns o ->
        page_table_ b !! page_id = None /\ o = Ret (FlushPage page_id b))
  /\ (forall page_id o,
        Latch.DeletePage false page_id b = Latch.Returns o ->
        DeletePage page_id b = o).
Proof.
  split; [|split; [|split; [|split]]].
  - intros o. rewrite NewPage_latch_core. unfold NewPage.
    destruct (all_pined b); [congruence|].
    case_bool_decide as Hd; [|done]. destruct Hd as [Hfl Hnil].
    rewrite Hfl, (Evict_no_frame undef _ Hnil), set_replacer_id. congruence.
  - intros page_id o. unfold Latch.FetchPage, Latch.lock_guard. congruence.
  - intros page_id is_dirty o. unfold Latch.UnpinPage, Latch.lock_guard. congruence.
  - intros page_id o. unfold Latch.FlushPage, Latch.lock_guard, FlushPage.
    destruct (page_table_ b !! page_id) as [f|]; [done|].
    intros [= <-]. done.
  - intros page_id o. unfold Latch.DeletePage, Latch.lock_guard, DeletePage.
    destruct (page_table_ b !! page_id) as [f|]; [|congruence].
    destruct (0 <? pin_count_ (page_at b f)); [congruence|].
    set (b1 := if BufferPool.is_dirty_ (page_at b f) then _ else b).
    destruct (Remove f (replacer_ b1)) as [r| |]; cbn [Latch.lbind bind];
      [done|congruence|congruence].
Qed.

(** X21: [DeletePage], as written on a [std::mutex], on a well-formed
    pool.  A page that is not in the page table: [true], nothing changes.
    A page whose frame is pinned: [false], nothing changes.  A page whose
    frame is unpinned and evictable: the call reaches [DeallocatePage]
    with [latch_] locked by its own guard and does not return.  A page
    whose frame is unpinned but not evictable: the call throws, out of
    [LRUKReplacer::Remove]. *)
Theorem DeletePage_spec page_id b :
  wf b ->
  (page_table_ b !! page_id = None ->
     Latch.DeletePage false page_id b = Latch.Returns (Ret (b, true)))
  /\ (forall f, page_table_ b !! page_id = Some f ->
        (0 < pin_count_ (page_at b f) ->
           Latch.DeletePage false page_id b = Latch.Returns (Ret (b, false)))
        /\ (pin_count_ (page_at b f) = 0 -> f ∈ evictable_list_ (replacer_ b) ->
              Latch.DeletePage false page_id b = Latch.Deadlock)
        /\ (pin_count_ (page_at b f) = 0 -> f ∉ evictable_list_ (replacer_ b) ->
              Latch.DeletePage false page_id b = Latch.Returns Throw)).
Proof.
  intros Hwf. unfold Latch.DeletePage, Latch.lock_guard.
  split; [by intros ->|]. intros f Hpt. rewrite Hpt.
  assert (Hf : in_pool b f) by exact (wf_page_table b Hwf page_id f Hpt).
  pose proof Hwf as (_ & _ & Hrs & _ & _ & _ & _ & Hc).
  assert (Hr : forall b1 : BufferPoolManager,
            b1 = (if BufferPool.is_dirty_ (page_at b f)
                  then schedule true f
                         (page_id_ (page_at (update_page f (set_is_dirty false) b) f))
                         (update_page f (set_is_dirty false) b)
                  else b) ->
            replacer_ b1 = replacer_ b).
  { intros b1 ->. destruct (BufferPool.is_dirty_ (page_at b f)); by repeat frame. }
  split; [|split].
  - intros Hpin. by rewrite (proj2 (Z.ltb_lt _ _) Hpin).
  - intros Hpin Hev. rewrite Hpin. cbn [Z.ltb Z.compare].
    rewrite (Hr _ eq_refl).
    destruct (Remove f (replacer_ b)) as [r| |] eqn:Hrem; cbn [Latch.lbind].
    + reflexivity.
    + exfalso. by apply (Remove_core f _ Hc).
    + exfalso. apply (Remove_core f _ Hc) in Hrem as [Hbad|Hbad]; [|done].
      rewrite (to_size_t_in_pool b f Hwf Hf), Hrs in Hbad. unfold in_pool in Hf. lia.
  - intros Hpin Hev. rewrite Hpin. cbn [Z.ltb Z.compare].
    rewrite (Hr _ eq_refl).
    assert (Hrem : Remove f (replacer_ b) = Throw).
    { apply (Remove_core f _ Hc). by right. }
    by rewrite Hrem.
Qed.

(** *** Filling a fresh pool *)

Lemma all_pined_false b j :
  in_pool b j -> pin_count_ (page_at b j) = 0 -> all_pined b = false.
Proof.
  intros Hj Hp. unfold all_pined. apply not_true_iff_false. intros H.
  rewrite forallb_forall in H. specialize (H j).
  rewrite Hp in H. simpl in H. assert (false = true); [|done].
  apply H. apply list_elem_of_In, elem_of_seqZ. unfold in_pool in Hj. lia.
Qed.

Lemma all_pined_true b :
  (forall j, in_pool b j -> pin_count_ (page_at b j) <> 0) -> all_pined b = true.
Proof.
  intros H. unfold all_pined. apply forallb_forall. intros j Hj.
  apply list_elem_of_In, elem_of_seqZ in Hj. apply negb_true_iff, Z.eqb_neq, H.
  unfold in_pool. lia.
Qed.

Lemma page_at_update_page_ne f g b f' :
  f' <> f -> page_at (update_page f g b) f' = page_at b f'.
Proof.
  intros Hne. unfold update_page, page_at.
  destruct (0 <=? f) eqn:E0; [|done]. simpl.
  destruct (0 <=? f') eqn:E1; [|done].
  apply Z.leb_le in E0, E1. by rewrite list_lookup_alter_ne by lia.
Qed.

Lemma FetchPage_install_pages page_id f b b' o :
  FetchPage_install page_id f b = Ret (b', o) ->
  forall g, g <> f -> page_at b' g = page_at b g.
Proof.
  unfold FetchPage_install.
  destruct (pool_SetEvictable f false _) as [b1| |] eqn:E; cbn [bind]; [|done|done].
  intros [= <- <-] g Hg. apply pool_SetEvictable_frame in E. rewrite E.
  change (page_at (set_replacer (replacer_ b1) ?x) g) with (page_at x g).
  by rewrite !page_at_update_page_ne by done.
Qed.

Lemma SetEvictable_false_nil f r r' :
  SetEvictable f false r = Ret r' -> evictable_list_ r = [] -> evictable_list_ r' = [].
Proof.
  unfold SetEvictable. destruct (replacer_size_ r <=? to_size_t f); [done|].
  intros Hr Hnil. rewrite Hnil in Hr. simpl in Hr.
  destruct (is_evictable_ (node_at (node_store_ r) f)); by injection Hr as <-.
Qed.

Lemma FetchPage_install_no_evictable page_id f b b' o :
  FetchPage_install page_id f b = Ret (b', o) ->
  evictable_list_ (replacer_ b) = [] -> evictable_list_ (replacer_ b') = [].
Proof.
  unfold FetchPage_install, pool_SetEvictable.
  destruct (SetEvictable f false _) as [r| |] eqn:E; cbn [bind]; [|done|done].
  intros [= <- <-] Hnil. simpl. apply (SetEvictable_false_nil _ _ _ E).
  by repeat frame.
Qed.

Lemma filled_init page_size n k :
  Z.of_nat n < 2 ^ 31 -> filled (Z.of_nat n) 0 (init page_size n k).
Proof.
  intros Hn. split; [by apply wf_init|]. split; [done|]. split; [lia|].
  split; [simpl; f_equal; lia|]. split; [done|]. split; [done|]. split; [done|].
  split; [done|]. split; [intros; lia|].
  intros j Hj. unfold page_at, init. simpl.
  rewrite (proj2 (Z.leb_le _ _)) by lia.
  by rewrite lookup_replicate_2 by lia.
Qed.

Lemma filled_all_pined n i b : filled n i b -> all_pined b = bool_decide (i = n).
Proof.
  intros (Hwf & Hps & Hi & _ & _ & _ & _ & _ & Ho & Hz).
  case_bool_decide as Hd.
  - apply all_pined_true. intros j Hj. unfold in_pool in Hj. rewrite Ho; [done|lia].
  - apply (all_pined_false b i); [unfold in_pool; lia|]. apply Hz. lia.
Qed.

(** [FetchPage] on a pool filled up to frame [i]: a miss that takes frame
    [i], or [nullptr] when the pool is full. *)
Lemma FetchPage_filled undef page_id n i b :
  filled n i b ->
  (i < n ->
     exists b', FetchPage undef page_id b = Ret (b', Some i)
       /\ filled n (i + 1) b'
       /\ page_id_ (page_at b' i) = page_id
       /\ (forall g, g <> i -> page_at b' g = page_at b g))
  /\ (i = n -> FetchPage undef page_id b = Ret (b, None)).
Proof.
  intros Hfill. pose proof (filled_all_pined n i b Hfill) as Hap.
  destruct Hfill as (Hwf & Hps & Hi & Hfl & Hpt & Hfp & Hnp & Hnil & Ho & Hz).
  unfold FetchPage. rewrite Hap. split.
  - intros Hlt. rewrite bool_decide_false by lia.
    rewrite Hpt, lookup_empty. rewrite seqZ_cons in Hfl by lia. rewrite Hfl.
    assert (Hin : in_pool b i) by (unfold in_pool; lia).
    set (b0 := set_free_list _ b).
    assert (Hwf0 : wf b0).
    { apply (wf_same b); try done; [|exact (wf_page_table b Hwf)].
      simpl. rewrite Hfl. intros x Hx. by apply list_elem_of_further. }
    destruct (FetchPage_install_core page_id i b0 Hwf0 Hin)
      as (b' & Hb' & Hwf' & _ & Hp & _ & _).
    destruct (FetchPage_install_frame _ _ _ _ _ Hb')
      as (_ & Hps' & Hpt' & Hfl' & Hfp' & Hnp' & _).
    pose proof (FetchPage_install_pages _ _ _ _ _ Hb') as Hpa.
    pose proof (FetchPage_install_no_evictable _ _ _ _ _ Hb' Hnil) as Hnil'.
    exists b'. split; [done|]. split; [|split; [by rewrite Hp|done]].
    split; [done|]. split; [by rewrite Hps'|]. split; [lia|].
    split; [rewrite Hfl'; simpl; f_equal; lia|].
    split; [by rewrite Hpt'|]. split; [by rewrite Hfp'|]. split; [by rewrite Hnp'|].
    split; [done|]. split.
    + intros j Hj. destruct (decide (j = i)) as [->|Hne].
      * rewrite Hp. simpl. change (page_at b0 i) with (page_at b i).
        rewrite Hz by lia. done.
      * rewrite Hpa by done. change (page_at b0 j) with (page_at b j). apply Ho. lia.
    + intros j Hj. rewrite Hpa by lia. change (page_at b0 j) with (page_at b j).
      apply Hz. lia.
  - intros ->. by rewrite bool_decide_true.
Qed.

Lemma FetchPage_times_filled undef n page_ids : forall i b,
  filled n i b -> i + Z.of_nat (length page_ids) <= n ->
  exists b', FetchPage_times undef page_ids b
             = Ret (b', Some <$> seqZ i (Z.of_nat (length page_ids)))
    /\ filled n (i + Z.of_nat (length page_ids)) b'
    /\ (forall j page_id, page_ids !! j = Some page_id ->
          page_id_ (page_at b' (i + Z.of_nat j)) = page_id)
    /\ (forall g, 0 <= g < i -> page_at b' g = page_at b g).
Proof.
  induction page_ids as [|p ps IH]; intros i b Hfill Hle.
  - exists b. simpl. rewrite Z.add_0_r. done.
  - pose proof Hfill as (_ & _ & Hi & _).
    destruct (FetchPage_filled undef p n i b Hfill) as [Hstep _].
    destruct Hstep as (b1 & Hb1 & Hfill1 & Hp1 & Hpa1); [simpl in Hle; lia|].
    destruct (IH (i + 1) b1 Hfill1) as (b' & Hb' & Hfill' & Hps' & Hpa');
      [simpl in Hle; lia|].
    exists b'. simpl FetchPage_times. rewrite Hb1. cbn [bind fst snd].
    rewrite Hb'. cbn [bind fst snd].
    rewrite (seqZ_cons i) by (simpl; lia).
    replace (Z.pred (Z.of_nat (length (p :: ps)))) with (Z.of_nat (length ps))
      by (simpl; lia).
    replace (Z.succ i) with (i + 1) by lia.
    split; [done|].
    replace (i + Z.of_nat (length (p :: ps))) with (i + 1 + Z.of_nat (length ps))
      by (simpl; lia).
    split; [done|]. split.
    + intros [|j] q Hq; simpl in Hq.
      * injection Hq as <-. rewrite Z.add_0_r. rewrite Hpa' by lia. done.
      * replace (i + Z.of_nat (S j)) with (i + 1 + Z.of_nat j) by lia.
        by apply Hps'.
    + intros g Hg. rewrite Hpa' by lia. apply Hpa1. lia.
Qed.

(** X23: on a fresh pool of [n] frames, fewer than 2^31, [FetchPage] of
    any [n] page ids returns the frames 0, 1, ..., n-1 in this order,
    each holding the page asked for and pinned once.  The pool is then
    stuck: the free list is empty, the page table is still empty so that
    [UnpinPage] of any page returns [false], and [FetchPage] and
    [NewPage] return [nullptr], each leaving the pool as it is. *)
Theorem FetchPage_fills_fresh_pool undef page_size n k page_ids :
  Z.of_nat n < 2 ^ 31 -> length page_ids = n ->
  exists b, FetchPage_times undef page_ids (init page_size n k)
            = Ret (b, Some <$> seqZ 0 (Z.of_nat n))
    /\ (forall j page_id, page_ids !! j = Some page_id ->
          page_id_ (page_at b (Z.of_nat j)) = page_id)
    /\ (forall f, in_pool b f -> pin_count_ (page_at b f) = 1)
    /\ free_list_ b = []
    /\ page_table_ b = ∅
    /\ (forall page_id, FetchPage undef page_id b = Ret (b, None))
    /\ (forall page_id is_dirty, UnpinPage page_id is_dirty b = Ret (b, false))
    /\ Latch.NewPage undef false b = Latch.Returns (Ret (mkNewPage_result b None None)).
Proof.
  intros Hn Hlen.
  destruct (FetchPage_times_filled undef (Z.of_nat n) page_ids 0 (init page_size n k))
    as (b & Hb & Hfill & Hps & _); [by apply filled_init|lia|].
  rewrite Hlen, Z.add_0_l in *.
  exists b. split; [done|]. split; [done|].
  pose proof (filled_all_pined _ _ _ Hfill) as Hap.
  rewrite bool_decide_true in Hap by done.
  pose proof Hfill as (Hwf & Hpsz & _ & Hfl & Hpt & _ & _ & _ & Ho & _).
  split; [intros f Hf; apply Ho; unfold in_pool in Hf; lia|].
  split; [by rewrite Hfl, Z.sub_diag|]. split; [done|].
  split; [intros page_id; by apply (FetchPage_filled undef page_id _ _ _ Hfill)|].
  split; [intros page_id is_dirty; unfold UnpinPage; by rewrite Hpt, lookup_empty|].
  by rewrite NewPage_latch_core, Hap.
Qed.

Lemma step_filled undef n i b c :
  filled n i b ->
  (exists i' b', Latch.step undef b c = Latch.Returns (Ret b') /\ filled n i' b')
  \/ (Latch.step undef b c = Latch.Deadlock /\ c = Latch.LNewPage).
Proof.
  intros Hfill. pose proof Hfill as (_ & _ & Hi & Hfl & Hpt & _ & _ & Hnil & _).
  destruct c as [|p|p d|p|p]; unfold Latch.step.
  - rewrite NewPage_latch_core, (filled_all_pined _ _ _ Hfill).
    case_bool_decide as Hd; [left; by exists i, b|].
    rewrite bool_decide_false; [by right|].
    intros [Hfl' _]. rewrite Hfl' in Hfl. rewrite seqZ_cons in Hfl by lia. done.
  - left. unfold Latch.FetchPage, Latch.lock_guard.
    destruct (FetchPage_filled undef p n i b Hfill) as [Hlt Heq].
    destruct (decide (i = n)) as [->|Hne].
    + rewrite (Heq eq_refl). by exists n, b.
    + destruct Hlt as (b' & -> & Hfill' & _); [lia|]. by exists (i + 1), b'.
  - left. unfold Latch.UnpinPage, Latch.lock_guard, UnpinPage.
    rewrite Hpt, lookup_empty. by exists i, b.
  - left. unfold Latch.FlushPage, Latch.lock_guard.
    rewrite Hpt, lookup_empty. by exists i, b.
  - left. unfold Latch.DeletePage, Latch.lock_guard.
    rewrite Hpt, lookup_empty. by exists i, b.
Qed.

(** X18: on the [std::mutex] of the source, a script of [NewPage],
    [FetchPage], [UnpinPage], [FlushPage] and [DeletePage] calls on a
    fresh pool of fewer than 2^31 frames either runs to its end or blocks
    for ever in a [NewPage]; no call throws.  In every pool so reached
    the page table is empty, no page id has been allocated or freed, no
    frame is evictable, the frames taken by [FetchPage] are pinned once
    and the others are free with pin count 0. *)
Theorem run_fresh_pool_std_mutex undef page_size pool_size k cs :
  Z.of_nat pool_size < 2 ^ 31 ->
  (exists i b, Latch.run undef (init page_size pool_size k) cs = Latch.Returns (Ret b)
     /\ filled (Z.of_nat pool_size) i b)
  \/ (Latch.run undef (init page_size pool_size k) cs = Latch.Deadlock
      /\ Latch.LNewPage ∈ cs).
Proof.
  intros Hn. unfold Latch.run.
  induction cs as [|c cs IH] using rev_ind.
  - left. exists 0, (init page_size pool_size k). split; [done|]. by apply filled_init.
  - rewrite foldl_app. simpl. destruct IH as [(i & b & -> & Hfill)|[-> Hin]].
    + cbn [Latch.lbind].
      destruct (step_filled undef _ i b c Hfill) as [(i' & b' & Hs & Hfill')|[Hs ->]].
      * left. by exists i', b'.
      * right. split; [done|]. apply elem_of_app. right. by apply list_elem_of_singleton.
    + right. split; [done|]. apply elem_of_app. by left.
Qed.
End PoolMore.

(** ** Page guards *)

Section GuardMore.
Import BufferPool PageGuard.

Lemma Drop_again g b g' b' : Drop g b = Ret (g', b') -> Drop g' b' = Ret (g', b').
Proof.
  unfold Drop. destruct (page_ g) as [f|] eqn:Hp; [|by intros [= <- <-]; rewrite Hp].
  destruct (bpm_ g) eqn:Hb; [by intros [= <- <-]; rewrite Hp, Hb|].
  destruct (UnpinPage _ _ b) as [r| |]; cbn [bind]; [|done|done].
  by intros [= <- <-].
Qed.

(** X25: [Drop] releases one pin, once.  On a well-formed pool, for a
    guard of the pool on a pinned frame whose page the page table maps to
    that frame, [Drop] lowers the pin count by one, ORs the dirty flag of
    the guard into that of the frame, makes the frame evictable if the
    count reaches 0, and clears [page_]; a second [Drop] does nothing. *)
Theorem Drop_releases_one_pin g f b :
  wf b -> page_ g = Some f -> bpm_ g = the_pool ->
  page_table_ b !! page_id_ (page_at b f) = Some f ->
  0 < pin_count_ (page_at b f) ->
  exists b', Drop g b = Ret (mkBasicPageGuard the_pool None (is_dirty_ g), b')
    /\ wf b'
    /\ pin_count_ (page_at b' f) = pin_count_ (page_at b f) - 1
    /\ BufferPool.is_dirty_ (page_at b' f)
       = BufferPool.is_dirty_ (page_at b f) || is_dirty_ g
    /\ (pin_count_ (page_at b' f) = 0 -> evictable b' f)
    /\ Drop (mkBasicPageGuard the_pool None (is_dirty_ g)) b'
       = Ret (mkBasicPageGuard the_pool None (is_dirty_ g), b').
Proof.
  intros Hwf Hp Hb Hpt Hpin. unfold Drop at 1. rewrite Hp, Hb.
  destruct (UnpinPage_core b (page_id_ (page_at b f)) (is_dirty_ g) Hwf)
    as (b' & ok & Hu & Hwf' & Hfalse & _ & Htrue).
  rewrite Hu. cbn [bind fst]. exists b'. split; [done|]. split; [done|].
  destruct ok.
  - destruct (Htrue eq_refl) as (f' & Hpt' & Hpin' & Hd' & Hev & _).
    rewrite Hpt in Hpt'. injection Hpt' as <-. done.
  - destruct (proj1 Hfalse eq_refl) as [Hn|(f' & Hpt' & Hz)].
    + by rewrite Hpt in Hn.
    + rewrite Hpt in Hpt'. injection Hpt' as <-. lia.
Qed.


(** X27: move-constructing a [ReadPageGuard] releases the page.  The
    call acts on the pool as [Drop] of the source, and leaves both the
    new guard and the source empty. *)
Theorem ReadPageGuard_move_construct_drops that b :
  ReadPageGuard.move_construct that b
  = (r <- Drop (ReadPageGuard.guard_ that) b ;;
     Ret (ReadPageGuard.mkReadPageGuard empty_guard,
          ReadPageGuard.mkReadPageGuard empty_guard, r.2)).
Proof.
  unfold ReadPageGuard.move_construct, move_construct, move_assign.
  destruct that as [[bp pg d]]. simpl.
  destruct (Drop (mkBasicPageGuard bp pg d) b) as [[g' b']| |]; cbn [bind]; done.
Qed.

(** X28: move-assigning a [ReadPageGuard] releases both pages.  The call
    acts on the pool as [Drop] of the destination followed by [Drop] of
    the source; the source is left empty, and the destination is left
    with the page pointer and dirty flag of the source but no pool, so
    that its own [Drop] releases nothing. *)
Theorem ReadPageGuard_move_assign_drops_both this that b :
  ReadPageGuard.move_assign this that b
  = (r1 <- Drop (ReadPageGuard.guard_ this) b ;;
     r2 <- Drop (ReadPageGuard.guard_ that) r1.2 ;;
     Ret (ReadPageGuard.mkReadPageGuard
            (mkBasicPageGuard null_pool (page_ (ReadPageGuard.guard_ that))
               (is_dirty_ (ReadPageGuard.guard_ that))),
          ReadPageGuard.mkReadPageGuard empty_guard, r2.2))
  /\ forall b', Drop (mkBasicPageGuard null_pool (page_ (ReadPageGuard.guard_ that))
                       (is_dirty_ (ReadPageGuard.guard_ that))) b'
                = Ret (mkBasicPageGuard null_pool (page_ (ReadPageGuard.guard_ that))
                         (is_dirty_ (ReadPageGuard.guard_ that)), b').
Proof.
  split.
  - unfold ReadPageGuard.move_assign.
    destruct (Drop (ReadPageGuard.guard_ this) b) as [[g1 b1]| |] eqn:E1;
      cbn [bind]; [|done|done].
    cbn [fst snd]. unfold move_assign at 1.
    rewrite (Drop_again _ _ _ _ E1). cbn [bind fst snd].
    unfold move_assign.
    destruct (Drop (ReadPageGuard.guard_ that) b1) as [[g2 b2]| |] eqn:E2;
      cbn [bind]; done.
  - intros b'. unfold Drop. simpl. by destruct (page_ _).
Qed.

(** X29: moving a [WritePageGuard] releases the page it guards.  Move
    assignment acts on the pool as [Drop] of the destination followed by
    [Drop] of the source, and move construction as [Drop] of the source;
    in both the source is left empty and the new owner is left with the
    page pointer and dirty flag of the source but no pool. *)
Theorem WritePageGuard_move_drops this that b :
  WritePageGuard.move_assign this that b
  = (r1 <- Drop (WritePageGuard.guard_ this) b ;;
     r2 <- Drop (WritePageGuard.guard_ that) r1.2 ;;
     Ret (WritePageGuard.mkWritePageGuard
            (mkBasicPageGuard null_pool (page_ (WritePageGuard.guard_ that))
               (is_dirty_ (WritePageGuard.guard_ that))),
          WritePageGuard.mkWritePageGuard empty_guard, r2.2))
  /\ WritePageGuard.move_construct that b
     = (r <- Drop (WritePageGuard.guard_ that) b ;;
        Ret (WritePageGuard.mkWritePageGuard
               (mkBasicPageGuard null_pool (page_ (WritePageGuard.guard_ that))
                  (is_dirty_ (WritePageGuard.guard_ that))),
             WritePageGuard.mkWritePageGuard empty_guard, r.2)).
Proof.
  assert (Hgen : forall this, WritePageGuard.move_assign this that b
    = (r1 <- Drop (WritePageGuard.guard_ this) b ;;
       r2 <- Drop (WritePageGuard.guard_ that) r1.2 ;;
       Ret (WritePageGuard.mkWritePageGuard
              (mkBasicPageGuard null_pool (page_ (WritePageGuard.guard_ that))
                 (is_dirty_ (WritePageGuard.guard_ that))),
            WritePageGuard.mkWritePageGuard empty_guard, r2.2))).
  { intros this0. unfold WritePageGuard.move_assign.
    destruct (Drop (WritePageGuard.guard_ this0) b) as [[g1 b1]| |] eqn:E1;
      cbn [bind]; [|done|done].
    cbn [fst snd]. unfold move_assign at 1.
    rewrite (Drop_again _ _ _ _ E1). cbn [bind fst snd].
    unfold move_assign.
    destruct (Drop (WritePageGuard.guard_ that) b1) as [[g2 b2]| |] eqn:E2;
      cbn [bind]; done. }
  split; [apply Hgen|].
  unfold WritePageGuard.move_construct. rewrite Hgen. reflexivity.
Qed.
End GuardMore.

(** ** Instances of the further properties that carry hypotheses *)

Section TrieInstances.
Import Trie.

Lemma Put_then_Get_witness :
  exists t', Put uint32_t "ab" 7 (@empty_trie value_type Z) = Ret t'
             /\ Get uint32_t "ab" t' = Ret (Some 7).
Proof. apply (Put_then_Get uint32_t 7 "ab" empty_trie). left. discriminate. Defined.

Lemma Put_other_keys_witness :
  let t' := match Put uint32_t "ab" 1 (@empty_trie value_type Z) with
            | Ret t => t
            | _ => empty_trie
            end in
  Get uint64_t "b" t' = Get uint64_t "b" empty_trie.
Proof.
  intros t'.
  apply (Put_other_keys uint32_t uint64_t 1 "ab" "b" empty_trie t').
  - vm_compute. reflexivity.
  - vm_compute. reflexivity.
Defined.

Lemma Put_then_Get_other_type_witness :
  let t' := match Put uint32_t "ab" 1 (@empty_trie value_type Z) with
            | Ret t => t
            | _ => empty_trie
            end in
  Get uint64_t "ab" t' = Ret None.
Proof.
  intros t'.
  apply (Put_then_Get_other_type uint32_t uint64_t 1 "ab" empty_trie t').
  - vm_compute. reflexivity.
  - discriminate.
Defined.

Lemma Put_reexposes_prefix_witness :
  let t := match (t1 <- Put uint32_t "a" 1 (@empty_trie value_type Z) ;;
                  t2 <- Put uint32_t "ab" 2 t1 ;;
                  Ret (Remove "a" t2)) with
           | Ret t => t
           | _ => empty_trie
           end in
  Get uint32_t "a" t = Ret None
  /\ exists t', Put uint32_t ("a" +:+ "c") 3 t = Ret t'
                /\ Get uint32_t "a" t' = Ret (Some 1).
Proof.
  intros t. split; [vm_compute; reflexivity|].
  apply (Put_reexposes_prefix uint32_t uint32_t 1 3 "a" "c"%char EmptyString t
           (default (mkTrieNode ∅) (root_ t))
           (default (mkTrieNode ∅) (find_node (default (mkTrieNode ∅) (root_ t)) "a"))).
  - vm_compute. reflexivity.
  - vm_compute. reflexivity.
  - vm_compute. reflexivity.
Defined.

Lemma Remove_absent_same_witness :
  let t := match Put uint32_t "ab" 1 (@empty_trie value_type Z) with
           | Ret t => t
           | _ => empty_trie
           end in
  Remove "a" t = t.
Proof.
  intros t. apply (Remove_absent_same "a" t). vm_compute. reflexivity.
Defined.

Lemma Remove_other_keys_witness :
  let t := match (t1 <- Put uint32_t "a" 1 (@empty_trie value_type Z) ;;
                  Put uint32_t "ab" 2 t1) with
           | Ret t => t
           | _ => empty_trie
           end in
  Get uint32_t "ab" (Remove "a" t) = Get uint32_t "ab" t.
Proof.
  intros t. apply (Remove_other_keys uint32_t "a" "ab" t). discriminate.
Defined.

Lemma Remove_only_key_empty_witness :
  exists t, Put uint32_t "ab" 1 (@empty_trie value_type Z) = Ret t
            /\ Remove "ab" t = empty_trie.
Proof. apply (Remove_only_key_empty uint32_t 1 "ab"). discriminate. Defined.
End TrieInstances.

Section ReplacerInstances.
Import Replacer.

Lemma Evict_prefers_fewer_than_k_witness :
  let undef := fun _ : Z => 0 in
  let r := after_all undef (new_replacer 2 3)
             [RRecordAccess 0; RRecordAccess 1; RRecordAccess 0;
              RSetEvictable 0 true; RSetEvictable 1 true] in
  exists r' f, Evict undef r = (r', Some f)
    /\ f ∈ evictable_list_ r
    /\ fewer_than_k r f = true
    /\ forall g, g ∈ evictable_list_ r -> fewer_than_k r g = true ->
         front undef f (history_ (node_at (node_store_ r) f))
         <= front undef g (history_ (node_at (node_store_ r) g)).
Proof.
  intros undef r. apply (Evict_prefers_fewer_than_k undef r 0).
  - apply (bool_decide_unpack _). vm_compute. exact I.
  - vm_compute. reflexivity.
Defined.

Lemma Evict_least_back_witness :
  let undef := fun _ : Z => 0 in
  let r := after_all undef (new_replacer 2 1)
             [RRecordAccess 0; RRecordAccess 1; RRecordAccess 0;
              RSetEvictable 0 true; RSetEvictable 1 true] in
  exists r' f, Evict undef r = (r', Some f)
    /\ f ∈ evictable_list_ r
    /\ forall g, g ∈ evictable_list_ r ->
         back undef f (history_ (node_at (node_store_ r) f))
         <= back undef g (history_ (node_at (node_store_ r) g)).
Proof.
  intros undef r. apply (Evict_least_back undef r).
  - vm_compute. discriminate.
  - apply Forall_forall. apply (bool_decide_unpack _). vm_compute. exact I.
Defined.

Lemma Evict_removes_victim_witness :
  let undef := fun _ : Z => 0 in
  let r := after_all undef (new_replacer 2 3)
             [RRecordAccess 0; RSetEvictable 0 true; RSetEvictable 1 true] in
  exists r' o, Evict undef r = (r', o)
    /\ (o = None <-> evictable_list_ r = [])
    /\ (o = None -> r' = r)
    /\ (forall f, o = Some f ->
          f ∈ evictable_list_ r
          /\ consistent r'
          /\ (forall g, g ∈ evictable_list_ r' <-> g ∈ evictable_list_ r /\ g <> f)
          /\ node_at (node_store_ r') f = default_node
          /\ (forall g, g <> f ->
                node_at (node_store_ r') g = node_at (node_store_ r) g)
          /\ current_timestamp_ r' = current_timestamp_ r).
Proof.
  intros undef r. apply (Evict_removes_victim undef r).
  apply (bool_decide_unpack _). vm_compute. exact I.
Defined.

Lemma Evict_k1_is_LRU_witness :
  let undef := fun _ : Z => 0 in
  let r := after_all undef (new_replacer 2 1)
             [RRecordAccess 0; RRecordAccess 1; RRecordAccess 0;
              RSetEvictable 0 true; RSetEvictable 1 true] in
  exists r' f, Evict undef r = (r', Some f)
    /\ f ∈ evictable_list_ r
    /\ forall g, g ∈ evictable_list_ r ->
         front undef f (history_ (node_at (node_store_ r) f))
         <= front undef g (history_ (node_at (node_store_ r) g)).
Proof.
  intros undef r. apply (Evict_k1_is_LRU undef r).
  - vm_compute. reflexivity.
  - apply (bool_decide_unpack _). vm_compute. exact I.
  - vm_compute. discriminate.
  - apply Forall_forall. apply (bool_decide_unpack _). vm_compute. exact I.
Defined.

Lemma Size_counts_evictable_witness :
  let r := after_all (fun _ => 0) (new_replacer 2 3)
             [RRecordAccess 0; RSetEvictable 0 true; RSetEvictable 1 true;
              REvict; RRemove 1; RSetEvictable 5 true] in
  Size r = Z.of_nat (length (evictable_list_ r))
  /\ NoDup (evictable_list_ r)
  /\ forall f, f ∈ evictable_list_ r
               <-> is_evictable_ (node_at (node_store_ r) f) = true.
Proof.
  apply (Size_counts_evictable (fun _ => 0) 2 3).
  - lia.
  - repeat constructor; unfold is_frame_id; lia.
Defined.

Lemma RecordAccess_keeps_k_newest_witness :
  let r := after_all (fun _ => 0) (new_replacer 2 2)
             [RRecordAccess 0; RRecordAccess 1; RRecordAccess 0] in
  exists r', RecordAccess 0 r = Ret r'
    /\ history_ (node_at (node_store_ r') 0)
       = take (Z.to_nat (k_ r))
           (current_timestamp_ r :: history_ (node_at (node_store_ r) 0))
    /\ is_evictable_ (node_at (node_store_ r') 0)
       = is_evictable_ (node_at (node_store_ r) 0)
    /\ (forall g, g <> 0 -> node_at (node_store_ r') g = node_at (node_store_ r) g)
    /\ current_timestamp_ r' = to_size_t (current_timestamp_ r + 1)
    /\ evictable_list_ r' = evictable_list_ r
    /\ Size r' = Size r
    /\ bounded r'.
Proof.
  intros r. apply (RecordAccess_keeps_k_newest 0 r).
  - apply (bool_decide_unpack _). vm_compute. exact I.
  - vm_compute. reflexivity.
Defined.

Lemma Remove_throws_iff_witness :
  let r := after_all (fun _ => 0) (new_replacer 2 2)
             [RRecordAccess 0; RSetEvictable 0 true; RRecordAccess 1] in
  Remove 1 r = Throw /\ Remove 0 r <> Throw.
Proof.
  intros r.
  assert (Hc : consistent r) by (apply (bool_decide_unpack _); vm_compute; exact I).
  destruct (Remove_throws_iff 1 r Hc) as (H1 & _).
  destruct (Remove_throws_iff 0 r Hc) as (H0 & _).
  split.
  - apply H1. right. apply (bool_decide_unpack _). vm_compute. exact I.
  - intros Ht. apply H0 in Ht as [Hle|Hnin].
    + vm_compute in Hle. apply Hle. reflexivity.
    + apply Hnin. apply (bool_decide_unpack _). vm_compute. exact I.
Defined.

Lemma SetEvictable_twice_witness :
  let r' := after (fun _ => 0) (new_replacer 2 2) (RSetEvictable 0 true) in
  SetEvictable 0 true r' = Ret r'.
Proof.
  intros r'. apply (SetEvictable_twice 0 true (new_replacer 2 2) r').
  vm_compute. reflexivity.
Defined.
End ReplacerInstances.

Section PoolInstances.
Import Replacer BufferPool.

Lemma FetchPage_returns_nullptr_iff_witness :
  let undef := fun _ : Z => 0 in
  let b := pool_after undef 1 [CFetchPage 5] in
  FetchPage undef 7 b = Ret (b, None)
  /\ exists b' f, FetchPage undef 7 (init PAGE_SIZE 1 2) = Ret (b', Some f)
       /\ pin_count_ (page_at b' f) = pin_count_ (page_at (init PAGE_SIZE 1 2) f) + 1
       /\ pin_count_ (page_at b' f) <= INT_MAX.
Proof.
  intros undef b. split.
  - assert (Hwf : wf b) by (apply (bool_decide_unpack _); vm_compute; exact I).
    assert (Hpins : pins_below_INT_MAX b)
      by (apply (bool_decide_unpack _); vm_compute; exact I).
    destruct (FetchPage_returns_nullptr_iff undef 7 b Hwf Hpins)
      as (b' & ret & Hres & _ & Hiff & Hsame & _).
    assert (Hret : ret = None).
    { apply Hiff. left. vm_compute. reflexivity. }
    rewrite Hres, Hret, (Hsame Hret). reflexivity.
  - assert (Hwf : wf (init PAGE_SIZE 1 2))
      by (apply (bool_decide_unpack _); vm_compute; exact I).
    assert (Hpins : pins_below_INT_MAX (init PAGE_SIZE 1 2))
      by (apply (bool_decide_unpack _); vm_compute; exact I).
    destruct (FetchPage_returns_nullptr_iff undef 7 _ Hwf Hpins)
      as (b' & ret & Hres & _ & Hiff & _ & Hpin & _).
    destruct ret as [f|].
    + exists b', f. split; [exact Hres|]. exact (Hpin f eq_refl).
    + exfalso. destruct (proj1 Hiff eq_refl) as [Hap|(_ & Hfl & _)].
      * vm_compute in Hap. discriminate Hap.
      * vm_compute in Hfl. discriminate Hfl.
Defined.

Lemma run_fresh_pool_std_mutex_witness :
  let undef := fun _ : Z => 0 in
  let cs := [Latch.LFetchPage 5; Latch.LUnpinPage 5 true; Latch.LFlushPage 5;
             Latch.LFetchPage 5; Latch.LDeletePage 5; Latch.LNewPage] in
  (exists i b, Latch.run undef (init PAGE_SIZE 2 2) cs = Latch.Returns (Ret b)
     /\ filled (Z.of_nat 2) i b)
  \/ (Latch.run undef (init PAGE_SIZE 2 2) cs = Latch.Deadlock
      /\ Latch.LNewPage ∈ cs).
Proof.
  intros undef cs. apply (run_fresh_pool_std_mutex undef PAGE_SIZE 2 2 cs).
  simpl. lia.
Defined.

Lemma pool_records_no_access_witness :
  let b := pool_after (fun _ => 0) 1 stale_entry in
  current_timestamp_ (replacer_ b) = 0
  /\ (forall f, history_ (node_at (node_store_ (replacer_ b)) f) = [])
  /\ k_ (replacer_ b) = 2
  /\ (0 < 2 -> forall f, fewer_than_k (replacer_ b) f = true).
Proof.
  intros b.
  apply (pool_records_no_access (fun _ => 0) PAGE_SIZE 1 2 stale_entry b).
  vm_compute. reflexivity.
Defined.

Lemma DeletePage_spec_witness :
  let undef := fun _ : Z => 0 in
  Latch.DeletePage false 0 (init PAGE_SIZE 1 2)
  = Latch.Returns (Ret (init PAGE_SIZE 1 2, true))
  /\ Latch.DeletePage false 0 (pool_after undef 1 [CNewPage])
     = Latch.Returns (Ret (pool_after undef 1 [CNewPage], false))
  /\ Latch.DeletePage false 0 (pool_after undef 1 dirty_victim) = Latch.Deadlock
  /\ Latch.DeletePage false 0 (pool_after undef 1 lost_frame) = Latch.Returns Throw.
Proof.
  intros undef. split; [|split; [|split]].
  - assert (Hwf : wf (init PAGE_SIZE 1 2))
      by (apply (bool_decide_unpack _); vm_compute; exact I).
    destruct (DeletePage_spec 0 _ Hwf) as [H _]. apply H. vm_compute. reflexivity.
  - assert (Hwf : wf (pool_after undef 1 [CNewPage]))
      by (apply (bool_decide_unpack _); vm_compute; exact I).
    destruct (DeletePage_spec 0 _ Hwf) as [_ H].
    destruct (H 0) as (Hp & _ & _); [vm_compute; reflexivity|].
    apply Hp. vm_compute. reflexivity.
  - assert (Hwf : wf (pool_after undef 1 dirty_victim))
      by (apply (bool_decide_unpack _); vm_compute; exact I).
    destruct (DeletePage_spec 0 _ Hwf) as [_ H].
    destruct (H 0) as (_ & Hd & _); [vm_compute; reflexivity|].
    apply Hd; [vm_compute; reflexivity|].
    apply (bool_decide_unpack _). vm_compute. exact I.
  - assert (Hwf : wf (pool_after undef 1 lost_frame))
      by (apply (bool_decide_unpack _); vm_compute; exact I).
    destruct (DeletePage_spec 0 _ Hwf) as [_ H].
    destruct (H 0) as (_ & _ & Ht); [vm_compute; reflexivity|].
    apply Ht; [vm_compute; reflexivity|].
    apply (bool_decide_unpack _). vm_compute. exact I.
Defined.

Lemma FetchPage_miss_stays_unmapped_witness :
  let undef := fun _ : Z => 0 in
  let b' := pool_after undef 1 [CFetchPage 5] in
  page_id_ (page_at b' 0) = 5
  /\ pin_count_ (page_at b' 0) = 1
  /\ page_table_ b' !! 5 = None
  /\ UnpinPage 5 false b' = Ret (b', false)
  /\ FlushPage 5 b' = (b', false)
  /\ DeletePage 5 b' = Ret (b', true).
Proof.
  intros undef b'. split; [vm_compute; reflexivity|]. split; [vm_compute; reflexivity|].
  apply (FetchPage_miss_stays_unmapped undef 5 false (init PAGE_SIZE 1 2) b' (Some 0)).
  - vm_compute. reflexivity.
  - vm_compute. reflexivity.
Defined.

Lemma FetchPage_fills_fresh_pool_witness :
  let undef := fun _ : Z => 0 in
  exists b, FetchPage_times undef [7; 7; 3] (init PAGE_SIZE 3 2)
            = Ret (b, Some <$> seqZ 0 (Z.of_nat 3))
    /\ (forall j page_id, [7; 7; 3] !! j = Some page_id ->
          page_id_ (page_at b (Z.of_nat j)) = page_id)
    /\ (forall f, in_pool b f -> pin_count_ (page_at b f) = 1)
    /\ free_list_ b = []
    /\ page_table_ b = ∅
    /\ (forall page_id, FetchPage undef page_id b = Ret (b, None))
    /\ (forall page_id is_dirty, UnpinPage page_id is_dirty b = Ret (b, false))
    /\ Latch.NewPage undef false b = Latch.Returns (Ret (mkNewPage_result b None None)).
Proof.
  intros undef. apply (FetchPage_fills_fresh_pool undef PAGE_SIZE 3 2 [7; 7; 3]).
  - simpl. lia.
  - reflexivity.
Defined.
End PoolInstances.

Section GuardInstances.
Import BufferPool PageGuard.

Lemma Drop_releases_one_pin_witness :
  let b := pool_after (fun _ => 0) 1 [CNewPage] in
  let g := mkBasicPageGuard the_pool (Some 0) true in
  exists b', Drop g b = Ret (mkBasicPageGuard the_pool None true, b')
    /\ wf b'
    /\ pin_count_ (page_at b' 0) = pin_count_ (page_at b 0) - 1
    /\ BufferPool.is_dirty_ (page_at b' 0)
       = BufferPool.is_dirty_ (page_at b 0) || true
    /\ (pin_count_ (page_at b' 0) = 0 -> evictable b' 0)
    /\ Drop (mkBasicPageGuard the_pool None true) b'
       = Ret (mkBasicPageGuard the_pool None true, b').
Proof.
  intros b g. apply (Drop_releases_one_pin g 0 b).
  - apply (bool_decide_unpack _). vm_compute. exact I.
  - reflexivity.
  - reflexivity.
  - vm_compute. reflexivity.
  - vm_compute. reflexivity.
Defined.

End GuardInstances.
